(** * Verification of the multi-tenant chat backend

    A shallow embedding of the parts of the repository that its specification
    talks about, followed by the theorems about them.

    Definitions:
    - [Utf8], [Hex]: the two Buffer codecs the crypto service goes through
      ([Buffer.from(s, "utf-8")], [buf.toString("utf-8")],
      [buf.toString("hex")], [Buffer.from(s, "hex")]);
    - [Crypto], [Pii]: [src/services/encryptDecryptAlgorithm.ts], over a
      platform that stands for argon2, sodium-native and base64;
    - [Repo], [SaveHook]: the post-find and the pre-save hooks of
      [src/models/Chat.ts];
    - [Engine]: the socket handlers of the synchronization engine
      (socketManager) and the [deleteMessage] controller, on one tenant's
      database;
    - [Router]: [src/services/tenantDatabaseService.ts], as calls taking
      turns at their [await];
    - [Http]: the [sendMessage] controller;
    - [Presence], [Reactions]: the socket handlers for presence, chats and
      reactions;
    - [Vault]: [src/services/keyVault.ts];
    - [Db]: the tenant connection pool ([config/db]) with the tenant
      database service;
    - [Tenancy]: the socket handlers on the databases of all tenants;
    - [UserCache], [SocketAuth], [Permissions], [HttpAuth]: the user cache
      and the middleware.

    The theorems follow in the same order, each module of facts named after
    what it is about, with the handlers run on a two-person chat in
    [Scenarios] and its like.

    JavaScript strings are sequences of UTF-16 code units; buffers are
    sequences of bytes. *)

From Stdlib Require Import NArith ZArith List Lia Bool Ascii String.
From Stdlib.Strings Require Import Byte.
From stdpp Require Import base option list sorting gmap strings.

Open Scope N_scope.

(** A JavaScript string: its UTF-16 code units, each below 65536. *)
Abbreviation jsstring := (list N).
Abbreviation buffer := (list byte).

(** An ASCII literal as a JavaScript string. *)
Definition js (s : string) : jsstring :=
  map N_of_ascii (list_ascii_of_string s).

(** JavaScript truthiness of a string: every string but the empty one. *)
Definition truthy (s : jsstring) : bool :=
  match s with [] => false | _ => true end.

#[global] Instance byte_eq_decision : EqDecision byte := Byte.byte_eq_dec.

Definition byte_of_N (n : N) : byte :=
  match Byte.of_N n with Some b => b | None => x00 end.

(** ** UTF-8 <-> UTF-16 *)
Module Utf8.

Definition is_high (u : N) : bool := (0xD800 <=? u) && (u <=? 0xDBFF).
Definition is_low (u : N) : bool := (0xDC00 <=? u) && (u <=? 0xDFFF).

(** The bytes of one code point. *)
Definition encode_cp (cp : N) : list N :=
  if cp <? 0x80 then [cp]
  else if cp <? 0x800 then [0xC0 + cp / 64; 0x80 + cp mod 64]
  else if cp <? 0x10000 then
    [0xE0 + cp / 4096; 0x80 + (cp / 64) mod 64; 0x80 + cp mod 64]
  else
    [0xF0 + cp / 262144; 0x80 + (cp / 4096) mod 64;
     0x80 + (cp / 64) mod 64; 0x80 + cp mod 64].

(** [Buffer.from(s, "utf-8")] walks the code units: a high surrogate
    followed by a low one is one supplementary code point, any other
    surrogate is replaced by U+FFFD. *)
Fixpoint code_points (s : jsstring) : list N :=
  match s with
  | [] => []
  | u :: rest =>
      if is_high u then
        match rest with
        | v :: rest' =>
            if is_low v
            then (0x10000 + (u - 0xD800) * 1024 + (v - 0xDC00)) :: code_points rest'
            else 0xFFFD :: code_points rest
        | [] => [0xFFFD]
        end
      else if is_low u then 0xFFFD :: code_points rest
      else u :: code_points rest
  end.

Definition encode (s : jsstring) : buffer :=
  map byte_of_N (flat_map encode_cp (code_points s)).

(** The code units of one decoded code point. *)
Definition units (cp : N) : jsstring :=
  if cp <? 0x10000 then [cp]
  else [0xD800 + (cp - 0x10000) / 1024; 0xDC00 + (cp - 0x10000) mod 1024].

(** Decoder state: the code point being assembled, the continuation bytes
    still expected, and the range allowed for the next byte. *)
Record dstate := DState { acc : N; needed : nat; lower : N; upper : N }.

Definition idle : dstate := DState 0 0 0x80 0xBF.

(** A byte read with no sequence pending. *)
Definition start (b : N) : jsstring * dstate :=
  if b <=? 0x7F then ([b], idle)
  else if (0xC2 <=? b) && (b <=? 0xDF) then ([], DState (b - 0xC0) 1 0x80 0xBF)
  else if (0xE0 <=? b) && (b <=? 0xEF) then
    ([], DState (b - 0xE0) 2 (if b =? 0xE0 then 0xA0 else 0x80)
                             (if b =? 0xED then 0x9F else 0xBF))
  else if (0xF0 <=? b) && (b <=? 0xF4) then
    ([], DState (b - 0xF0) 3 (if b =? 0xF0 then 0x90 else 0x80)
                             (if b =? 0xF4 then 0x8F else 0xBF))
  else ([0xFFFD], idle).

Definition step (st : dstate) (b : N) : jsstring * dstate :=
  match needed st with
  | O => start b
  | S k =>
      if (lower st <=? b) && (b <=? upper st) then
        let cp := acc st * 64 + (b - 0x80) in
        match k with
        | O => (units cp, idle)
        | S _ => ([], DState cp k 0x80 0xBF)
        end
      else
        (* the pending sequence is ill-formed: U+FFFD, and the byte is
           read again as the start of a sequence *)
        let '(out, st') := start b in (0xFFFD :: out, st')
  end.

Fixpoint decode_from (st : dstate) (bs : list N) : jsstring :=
  match bs with
  | [] => match needed st with O => [] | S _ => [0xFFFD] end
  | b :: rest => let '(out, st') := step st b in out ++ decode_from st' rest
  end.

(** [buf.toString("utf-8")]. *)
Definition decode (bs : buffer) : jsstring :=
  decode_from idle (map Byte.to_N bs).

(** A string is well formed when every surrogate is part of a pair. *)
Fixpoint well_formed (s : jsstring) : bool :=
  match s with
  | [] => true
  | u :: rest =>
      if is_high u then
        match rest with
        | v :: rest' => is_low v && well_formed rest'
        | [] => false
        end
      else if is_low u then false
      else (u <? 0x10000) && well_formed rest
  end.

(** [s.toWellFormed()]: the string with every surrogate that is not part
    of a pair replaced by U+FFFD. *)
Fixpoint toWellFormed (s : jsstring) : jsstring :=
  match s with
  | [] => []
  | u :: rest =>
      if is_high u then
        match rest with
        | v :: rest' =>
            if is_low v then u :: v :: toWellFormed rest'
            else 0xFFFD :: toWellFormed rest
        | [] => [0xFFFD]
        end
      else if is_low u then 0xFFFD :: toWellFormed rest
      else u :: toWellFormed rest
  end.

(** A Unicode scalar value: a code point that is not a surrogate. *)
Definition scalar (cp : N) : Prop := cp < 0x110000 /\ ~ (0xD800 <= cp <= 0xDFFF).

End Utf8.

(** ** Hexadecimal *)
Module Hex.

Definition digit (n : N) : N := if n <? 10 then 48 + n else 87 + n.

Definition value (c : N) : option N :=
  if (48 <=? c) && (c <=? 57) then Some (c - 48)
  else if (97 <=? c) && (c <=? 102) then Some (c - 87)
  else if (65 <=? c) && (c <=? 70) then Some (c - 55)
  else None.

(** [buf.toString("hex")]: two lower-case digits per byte. *)
Definition encode (bs : buffer) : jsstring :=
  flat_map (fun b => [digit (Byte.to_N b / 16); digit (Byte.to_N b mod 16)]) bs.

(** [Buffer.from(s, "hex")]: reads pairs of digits and stops at the first
    pair that is not hexadecimal; a trailing single character is dropped. *)
Fixpoint decode (s : jsstring) : buffer :=
  match s with
  | c1 :: c2 :: rest =>
      match value c1, value c2 with
      | Some h, Some l => byte_of_N (16 * h + l) :: decode rest
      | _, _ => []
      end
  | _ => []
  end.

End Hex.


(** ** Errors and results

    A thrown exception is a value: every fallible operation returns a
    [result]. *)
Inductive error :=
| DecryptionFailed   (* new Error("Decryption failed") *)
| RangeError         (* Buffer.alloc with a negative size *)
| KdfError           (* argon2.hash rejected *)
| AeadError          (* sodium-native refused its arguments *)
| TypeError          (* a call on undefined *)
| DatabaseUnavailable. (* the tenant's store could not be opened *)

Inductive result (A : Type) :=
| Ok (a : A)
| Err (e : error).
Arguments Ok {A} a.
Arguments Err {A} e.

(** ** The cache service ([src/services/cacheService.ts])

    One key-value store shared by every caller. A computation that uses it
    takes the cache and hands back its result, or the exception it threw,
    with the cache as it left it. *)
Abbreviation cache := (gmap jsstring jsstring).

Definition io (A : Type) : Type := cache -> result A * cache.

#[global] Instance io_ret : MRet io := fun A a c => (Ok a, c).
#[global] Instance io_bind : MBind io := fun A B k m c =>
  match m c with
  | (Ok a, c') => k a c'
  | (Err e, c') => (Err e, c')
  end.

Definition throw {A} (e : error) : io A := fun c => (Err e, c).

(** [cacheService.get]: [null] for a missing key. *)
Definition cache_get (key : jsstring) : io (option jsstring) :=
  fun c => (Ok (c !! key), c).

(** [cacheService.set]. *)
Definition cache_set (key value : jsstring) : io unit :=
  fun c => (Ok tt, <[key := value]> c).

(** [if (cached)]: a value that is there and is not the empty string. *)
Definition usable (v : option jsstring) : option jsstring :=
  match v with
  | Some s => if truthy s then Some s else None
  | None => None
  end.

(** ** The crypto service ([src/services/encryptDecryptAlgorithm.ts]) *)
Module Crypto.

(** What the service calls and does not define: argon2's raw hash,
    sodium's XChaCha20-Poly1305 pair (message or ciphertext, nonce, key) and
    Buffer's base64 codec. [None] is a thrown exception, or for
    [aead_decrypt] a failed verification. *)
Record Platform := {
  argon2id : jsstring -> buffer -> option buffer;
  aead_encrypt : buffer -> buffer -> buffer -> option buffer;
  aead_decrypt : buffer -> buffer -> buffer -> option buffer;
  base64_encode : buffer -> jsstring;
  base64_decode : jsstring -> buffer
}.

(** [sodium.crypto_aead_xchacha20poly1305_ietf_ABYTES]. *)
Definition ABYTES : nat := 16.

(** What is assumed of the platform: decrypting what was encrypted under the
    same nonce and key gives the message back, a ciphertext is [ABYTES]
    longer than its message, encryption accepts a 24-byte nonce with a
    32-byte key, the hash is 32 bytes long, and base64 decodes what it
    encoded. *)
Record PlatformLaws (P : Platform) : Prop := {
  aead_inverse : forall m n k c,
    aead_encrypt P m n k = Some c -> aead_decrypt P c n k = Some m;
  aead_length : forall m n k c,
    aead_encrypt P m n k = Some c -> length c = (length m + ABYTES)%nat;
  aead_accepts : forall m n k,
    length n = 24%nat -> length k = 32%nat -> is_Some (aead_encrypt P m n k);
  argon2id_length : forall pw salt k,
    argon2id P pw salt = Some k -> length k = 32%nat;
  base64_inverse : forall b, base64_decode P (base64_encode P b) = b
}.

Section Service.
Context (P : Platform).

(** [`${password}:${salt}`] *)
Definition kdf_cache_key (password salt : jsstring) : jsstring :=
  password ++ js ":" ++ salt.

Definition deriveKey (password salt : jsstring) : io buffer :=
  let cacheKey := kdf_cache_key password salt in
  cached ← cache_get cacheKey;
  match usable cached with
  | Some cached => mret (base64_decode P cached)
  | None =>
      match argon2id P password (Hex.decode salt) with
      | None => throw KdfError
      | Some key =>
          _ ← cache_set cacheKey (base64_encode P key);
          mret key
      end
  end.

Definition encryptDataWithNonce (plaintext salt nonce encryptionPassword : jsstring)
    : io jsstring :=
  key ← deriveKey encryptionPassword salt;
  let message := Utf8.encode plaintext in
  match aead_encrypt P message (Hex.decode nonce) key with
  | Some ciphertext => mret (Hex.encode ciphertext)
  | None => throw AeadError
  end.

(** [[tenantId, moduleName, docId, fieldName, updatedAt?.toISOString()].join(":")];
    a missing [updatedAt] joins as the empty string. *)
Definition generateCacheKey (fieldName tenantId docId moduleName : jsstring)
    (updatedAt : option jsstring) : jsstring :=
  tenantId ++ js ":" ++ moduleName ++ js ":" ++ docId ++ js ":" ++ fieldName
    ++ js ":" ++ default [] updatedAt.

Definition decryptDataWithNonce (ciphertextHex nonceHex salt encryptionPassword : jsstring)
    (cacheKey : option jsstring) : io jsstring :=
  cachedData ← match usable cacheKey with                       (* if (cacheKey) *)
               | Some k => cache_get k
               | None => mret None
               end;
  match usable cachedData with
  | Some cachedData => mret cachedData
  | None =>
      key ← deriveKey encryptionPassword salt;
      let ciphertext := Hex.decode ciphertextHex in
      let nonce := Hex.decode nonceHex in
      if (length ciphertext <? ABYTES)%nat then throw RangeError
      else
        match aead_decrypt P ciphertext nonce key with
        | None => throw DecryptionFailed
        | Some message =>
            let newCacheData := Utf8.decode message in
            _ ← match usable cacheKey with                      (* if (cacheKey) *)
                | Some k => cache_set k newCacheData
                | None => mret tt
                end;
            mret newCacheData
        end
  end.

End Service.

(** A cache agrees with the key derivation of [(password, salt)] when what
    it holds under that pair's key, if usable, is the base64 of the derived
    key. *)
Definition kdf_consistent (P : Platform) (password salt : jsstring) (c : cache) : Prop :=
  forall v, usable (c !! kdf_cache_key password salt) = Some v ->
    exists key, argon2id P password (Hex.decode salt) = Some key /\ v = base64_encode P key.

(** Nothing usable is cached under the decryption's own cache key. *)
Definition cache_miss (cacheKey : option jsstring) (c : cache) : Prop :=
  forall k, usable cacheKey = Some k -> usable (c !! k) = None.

(** A small platform to run the service on: the "cipher" appends sixteen
    copies of the first key byte as its tag, the "hash" is 32 copies of
    the first salt byte, and base64 is played by hex. *)
Definition toy_tag (k : buffer) : buffer := replicate ABYTES (hd x00 k).

Definition toy_encrypt (m n k : buffer) : option buffer :=
  if ((length n =? 24)%nat && (length k =? 32)%nat)%bool then Some (m ++ toy_tag k) else None.

Definition toy_decrypt (c n k : buffer) : option buffer :=
  let m := take (length c - ABYTES)%nat c in
  if bool_decide (c = m ++ toy_tag k) then Some m else None.

Definition toy : Platform := {|
  argon2id := fun _ salt => if (length salt <? 8)%nat then None else Some (replicate 32 (hd x00 salt));
  aead_encrypt := toy_encrypt;
  aead_decrypt := toy_decrypt;
  base64_encode := Hex.encode;
  base64_decode := Hex.decode
|}.

(** Secrets for the examples: a 16-byte salt, a 24-byte nonce. *)
Definition demo_salt : jsstring := js "a0a1a2a3a4a5a6a7a8a9aaabacadaeaf".
Definition demo_nonce : jsstring := js "000102030405060708090a0b0c0d0e0f1011121314151617".
Definition demo_password : jsstring := js "encryption-key".

End Crypto.

(** ** The decrypt-on-read hooks ([src/models/Chat.ts])

    The Chat and the Message schema carry the same post hook on [find],
    [findOne] and [findOneAndUpdate]; they differ in the field they treat
    ([name], [body]). *)
Module Repo.
Import Crypto.

(** [getEncryptionSecretsByTenantId]'s answer. *)
Record secrets := Secrets {
  salt : jsstring;
  nonce : jsstring;
  encryptionPassword : jsstring
}.

(** What the hooks read of a document: its id, tenant tag and
    modification time, and the designated field when it holds a string. *)
Record doc := Doc {
  _id : jsstring;
  tenantId : jsstring;
  updatedAt : option jsstring;
  field : option jsstring
}.

(** A query's result: [null], one document, or an array. *)
Inductive query_result :=
| Null
| Single (d : doc)
| Array (ds : list doc).

Section Hooks.
Context (P : Platform).
(** The secret vault: [null] when the tenant's secrets cannot be read. *)
Context (getEncryptionSecretsByTenantId : jsstring -> option secrets).
(** ["name"] for chats, ["body"] for messages. *)
Context (fieldName : jsstring).

Definition decryptFields (d : doc) (s : secrets) : io doc :=
  match usable (field d) with
  | Some v =>
      let cacheKey :=
        generateCacheKey fieldName (tenantId d) (_id d) (js "chats") (updatedAt d) in
      v' ← decryptDataWithNonce P v (nonce s) (salt s) (encryptionPassword s) (Some cacheKey);
      mret (Doc (_id d) (tenantId d) (updatedAt d) (Some v'))
  | None => mret d
  end.

(** [for (const doc of documents) await decryptFields(doc, ...)] *)
Fixpoint decrypt_each (documents : list doc) (s : secrets) : io (list doc) :=
  match documents with
  | [] => mret []
  | d :: rest =>
      d' ← decryptFields d s;
      rest' ← decrypt_each rest s;
      mret (d' :: rest')
  end.

(** The post hook. [contextTenant] is [requestContext.get().tenantId]. An
    [Err] is [next(error)]: the query rejects with it. *)
Definition post_find (contextTenant : option jsstring) (result : query_result)
    : io query_result :=
  match result with
  | Null => mret Null
  | _ =>
      match usable contextTenant with
      | None => mret result
      | Some tenant =>
          match getEncryptionSecretsByTenantId tenant with
          | None => mret result
          | Some s =>
              match result with
              | Array ds => ds' ← decrypt_each ds s; mret (Array ds')
              | Single d => d' ← decryptFields d s; mret (Single d')
              | Null => mret Null
              end
          end
      end
  end.

End Hooks.

Definition demo_secrets : secrets := Secrets demo_salt demo_nonce demo_password.

Definition demo_vault (tenant : jsstring) : option secrets :=
  if bool_decide (tenant = js "t1") then Some demo_secrets else None.

(** "hello" as the toy platform encrypts it under the demo secrets. *)
Definition good_doc : doc :=
  Doc (js "m1") (js "t1") None
      (Some (js "68656c6c6fa0a0a0a0a0a0a0a0a0a0a0a0a0a0a0a0")).

(** Seventeen bytes of which the last sixteen are not the tag. *)
Definition bad_doc : doc :=
  Doc (js "m2") (js "t1") None
      (Some (js "6800000000000000000000000000000000")).

End Repo.

(** ** The synchronization engine (socketManager, [deleteMessage] controller)

    One tenant's database holds three collections. An id in the database is
    an ObjectId, written here as the string it prints as; dates are
    milliseconds. An id named by a request is a string: [deleteMessage] and
    its controller are followed through the casts they apply to it, the
    other handlers are given requests that name ids the way the database
    prints them. The database answers every query of a socket handler. The
    handlers see message bodies in clear: encryption happens in the hooks
    of [Repo]. *)
Module Engine.

Abbreviation ObjectId := string.
Abbreviation TenantId := string.
Abbreviation SocketId := string.
Abbreviation Date := N.

(** [new Types.ObjectId(s)], which is also the cast Mongoose applies to an
    id named in a query: the id that the string [s] stands for, as the
    string that id prints as, or [None] when the constructor throws
    (BSONError, or CastError from a query). Which strings stand for an id
    is the driver's business. *)
Class Bson := { Types_ObjectId : string -> option ObjectId }.

Definition is_hex_digit (a : ascii) : bool :=
  let n := nat_of_ascii a in
  ((48 <=? n) && (n <=? 57) || (97 <=? n) && (n <=? 102) || (65 <=? n) && (n <=? 70))%nat.

Definition to_lower (a : ascii) : ascii :=
  let n := nat_of_ascii a in
  if ((65 <=? n) && (n <=? 90))%nat then ascii_of_nat (n + 32) else a.

(** The driver of bson 6: an id is written with 24 hexadecimal digits, in
    either case, and prints in lower case. *)
Definition hexObjectId (s : string) : option ObjectId :=
  let digits := list_ascii_of_string s in
  if ((length digits =? 24)%nat && forallb is_hex_digit digits)%bool
  then Some (string_of_list_ascii (map to_lower digits))
  else None.

Module DeletedFor.
Record t := mk { userId : ObjectId; deletedAt : Date }.
End DeletedFor.

Module Message.
Record t := mk {
  _id : ObjectId;
  tenantId : TenantId;
  chatId : ObjectId;
  senderId : ObjectId;
  body : string;
  createdAt : Date;
  (* the schema defaults it to the empty array; a document written by other
     means may lack it *)
  deletedFor : option (list DeletedFor.t);
  viewers : list ObjectId
}.
End Message.

Module Chat.
Record t := mk {
  _id : ObjectId;
  tenantId : TenantId;
  participants : list ObjectId;
  lastMessage : option ObjectId
}.
End Chat.

Module ChatUser.
Record t := mk {
  _id : ObjectId;
  socketIds : list SocketId;
  active : bool
}.
End ChatUser.

(** What the identity service answers for a user. *)
Record IUser := {
  iam_id : ObjectId;
  firstname : string;
  lastname : string;
  profile_image : string
}.

Record Store := {
  messages : list Message.t;
  chats : list Chat.t;
  users : list ChatUser.t
}.

(** A connected socket: its id, what the middleware put in [socket.data],
    and the rooms it has joined. *)
Module Socket.
Record t := mk {
  id : SocketId;
  userId : ObjectId;
  tenantId : TenantId;
  token : option string;
  rooms : list string
}.
End Socket.

Inductive Mode := forMe | forEveryone.

(** [.select("body createdAt")]: the id, the body and the creation time. *)
Record Preview := {
  preview_id : ObjectId;
  preview_body : string;
  preview_createdAt : Date
}.

Definition preview (m : Message.t) : Preview :=
  {| preview_id := Message._id m;
     preview_body := Message.body m;
     preview_createdAt := Message.createdAt m |}.

(** Server-to-client events. *)
Inductive payload :=
| messageSent (message : Message.t) (chatId : ObjectId)
| messageHistory (messages : list (Message.t * option IUser)) (hasMore : bool)
    (total : Z) (currentPage : Z)
| messageRead (messageId chatId userId : ObjectId) (readAt : Date) (displayName : string)
| unreadCountUpdate (chatId : ObjectId) (count : nat)
| messageDeleted (chatId messageId : ObjectId) (lastMessage : option Preview) (mode : Mode).

(** [io.to(socketId).emit(...)], or [socket.emit(...)] to the socket itself. *)
Record emit := Emit { to : SocketId; what : payload }.

(** *** Queries *)

Definition findMessageById (messageId : ObjectId) (st : Store) : option Message.t :=
  find (fun m => bool_decide (Message._id m = messageId)) (messages st).

Definition findChatById (chatId : ObjectId) (st : Store) : option Chat.t :=
  find (fun c => bool_decide (Chat._id c = chatId)) (chats st).

Definition findUserById (userId : ObjectId) (st : Store) : option ChatUser.t :=
  find (fun u => bool_decide (ChatUser._id u = userId)) (users st).

(** [.populate("participants")]: the referenced users that exist, in the
    order of the reference array. *)
Definition populate (c : Chat.t) (st : Store) : list ChatUser.t :=
  omap (fun p => findUserById p st) (Chat.participants c).

(** The three-way [$or] on [deletedFor]: the field is missing, or is the
    empty array, or has no element with this [userId]. *)
Definition not_deleted_for (userId : ObjectId) (m : Message.t) : bool :=
  match Message.deletedFor m with
  | None => true                                         (* $exists: false *)
  | Some ds =>
      bool_decide (length ds = 0%nat)                    (* $size: 0 *)
      || negb (existsb (fun d => bool_decide (DeletedFor.userId d = userId)) ds)
                                                         (* $not $elemMatch *)
  end.

(** [.sort({ createdAt: -1 })]. *)
Definition newer_first (a b : Message.t) : Prop :=
  (Message.createdAt b <= Message.createdAt a)%N.

#[global] Instance newer_first_dec a b : Decision (newer_first a b) :=
  N.le_dec (Message.createdAt b) (Message.createdAt a).

Definition sort_newest_first (ms : list Message.t) : list Message.t :=
  merge_sort newer_first ms.

(** [.limit(n)]: zero means no limit, a negative limit counts as its
    absolute value. *)
Definition limit (n : Z) (ms : list Message.t) : list Message.t :=
  if (n =? 0)%Z then ms else take (Z.abs_nat n) ms.

(** [doc.save()] of a message: the stored document with that id is replaced. *)
Definition saveMessage (m : Message.t) (st : Store) : Store :=
  {| messages := map (fun m' => if bool_decide (Message._id m' = Message._id m)
                                then m else m') (messages st);
     chats := chats st;
     users := users st |}.

Definition createMessage (m : Message.t) (st : Store) : Store :=
  {| messages := messages st ++ [m]; chats := chats st; users := users st |}.

(** [Message.findByIdAndDelete]: the first document with that id goes. *)
Fixpoint delete_first (messageId : ObjectId) (ms : list Message.t) : list Message.t :=
  match ms with
  | [] => []
  | m :: rest =>
      if bool_decide (Message._id m = messageId) then rest
      else m :: delete_first messageId rest
  end.

Definition findByIdAndDelete (messageId : ObjectId) (st : Store) : Store :=
  {| messages := delete_first messageId (messages st);
     chats := chats st;
     users := users st |}.

(** [Chat.findByIdAndUpdate(chatId, { lastMessage })]: the first chat with
    that id is updated. *)
Fixpoint update_first_chat (chatId : ObjectId) (f : Chat.t -> Chat.t) (cs : list Chat.t)
    : list Chat.t :=
  match cs with
  | [] => []
  | c :: rest =>
      if bool_decide (Chat._id c = chatId) then f c :: rest
      else c :: update_first_chat chatId f rest
  end.

Definition setLastMessage (chatId messageId : ObjectId) (st : Store) : Store :=
  {| messages := messages st;
     chats := update_first_chat chatId
                (fun c => Chat.mk (Chat._id c) (Chat.tenantId c) (Chat.participants c)
                            (Some messageId)) (chats st);
     users := users st |}.

(** One event to each socket of a user. *)
Definition to_sockets (socketIds : list SocketId) (p : payload) : list emit :=
  map (fun s => Emit s p) socketIds.

(** *** [getUnreadCount], [emitUnreadCountUpdate] *)

Definition unread (chatId userId : ObjectId) (tenantId : TenantId) (m : Message.t) : bool :=
  bool_decide (Message.chatId m = chatId)
  && negb (bool_decide (Message.senderId m = userId))       (* senderId: { $ne } *)
  && negb (bool_decide (userId ∈ Message.viewers m))         (* viewers: { $ne } *)
  && bool_decide (Message.tenantId m = tenantId)
  && not_deleted_for userId m.

Definition getUnreadCount (chatId userId : ObjectId) (tenantId : TenantId) (st : Store) : nat :=
  length (List.filter (unread chatId userId tenantId) (messages st)).

Definition emitUnreadCountUpdate (chatId userId : ObjectId) (tenantId : TenantId)
    (st : Store) : list emit :=
  let count := getUnreadCount chatId userId tenantId st in
  match findUserById userId st with
  | Some user => to_sockets (ChatUser.socketIds user) (unreadCountUpdate chatId count)
  | None => []
  end.

(** *** The identity service *)

Section Handlers.
(** [GET /users/:id] for a tenant and a bearer token; [None] when the
    service has no answer or cannot be reached. *)
Context (iam : ObjectId -> TenantId -> string -> option IUser).
Context {bson : Bson}.

Definition getUserDetailsByToken (userId : ObjectId) (tenantId : TenantId)
    (token : option string) : option IUser :=
  match token with
  | Some tk => if bool_decide (tk = "") then None else iam userId tenantId tk
  | None => None
  end.

(** [POST /users/bulk]: the users the service knows, in the order asked. *)
Definition getUsersDetailsByToken (userIds : list ObjectId) (tenantId : TenantId)
    (token : option string) : list IUser :=
  omap (fun u => getUserDetailsByToken u tenantId token) userIds.

(** The objects built by the identity service have no [socketIds]
    property: reading it gives [undefined]. *)
Definition IUser_socketIds (p : IUser) : option (list SocketId) := None.

Definition displayName (u : IUser) : string :=
  firstname u ++ " " ++ lastname u.

(** [new Set(xs)] then [Array.from]: first occurrences, in order. *)
Fixpoint uniq (xs : list ObjectId) : list ObjectId :=
  match xs with
  | [] => []
  | x :: rest => x :: List.filter (fun y => negb (bool_decide (y = x))) (uniq rest)
  end.

Definition withViewers (m : Message.t) (vs : list ObjectId) : Message.t :=
  Message.mk (Message._id m) (Message.tenantId m) (Message.chatId m)
             (Message.senderId m) (Message.body m) (Message.createdAt m)
             (Message.deletedFor m) vs.

Definition withDeletedFor (m : Message.t) (ds : list DeletedFor.t) : Message.t :=
  Message.mk (Message._id m) (Message.tenantId m) (Message.chatId m)
             (Message.senderId m) (Message.body m) (Message.createdAt m)
             (Some ds) (Message.viewers m).

(** For each populated participant, look the user up again and emit to
    each of its sockets. *)
Definition to_participants (participants : list ChatUser.t) (st : Store)
    (p : ChatUser.t -> payload) : list emit :=
  flat_map (fun participant =>
    match findUserById (ChatUser._id participant) st with
    | Some participantUser => to_sockets (ChatUser.socketIds participantUser) (p participant)
    | None => []
    end) participants.

(** *** [markMessageAsRead]

    The [messageRead] events are emitted from callbacks that are started
    before the viewer check and not awaited; they are listed first here.
    Nothing below depends on how they interleave with the rest. *)
Definition markMessageAsRead (socket : Socket.t) (now : Date)
    (chatId messageId userId : ObjectId) (st : Store) : Store * list emit :=
  match findMessageById messageId st with
  | None => (st, [])
  | Some message =>
      let uniqueViewers := uniq (Message.viewers message) in
      let chat := findChatById chatId st in
      let readEvents :=
        match chat with
        | Some c =>
            match getUserDetailsByToken userId (Socket.tenantId socket) (Socket.token socket) with
            | Some userDetails =>
                to_participants (populate c st) st (fun _ =>
                  messageRead messageId chatId userId now (displayName userDetails))
            | None => []
            end
        | None => []
        end in
      (* Only update the database if user is not already in viewers *)
      if bool_decide (userId ∈ uniqueViewers) then (st, readEvents)
      else
        let st' := saveMessage (withViewers message (uniqueViewers ++ [userId])) st in
        let countEvents :=
          match chat with
          | Some c =>
              to_participants (populate c st) st' (fun participant =>
                unreadCountUpdate chatId
                  (getUnreadCount chatId (ChatUser._id participant) (Socket.tenantId socket) st'))
          | None => []
          end in
        (st', readEvents ++ countEvents)
  end.

(** *** [markAllMessagesAsRead] *)
Definition markAllMessagesAsRead (socket : Socket.t) (chatId userId : ObjectId) (st : Store)
    : Store * list emit :=
  let st' :=
    {| messages :=
         map (fun m =>
           if bool_decide (Message.chatId m = chatId)
              && negb (bool_decide (Message.senderId m = userId))
              && negb (bool_decide (userId ∈ Message.viewers m))
           then withViewers m (Message.viewers m ++ [userId])   (* $addToSet *)
           else m) (messages st);
       chats := chats st;
       users := users st |} in
  match findChatById chatId st' with
  | Some c =>
      (st', to_participants
              (List.filter (fun participant => negb (bool_decide (ChatUser._id participant = userId)))
                 (populate c st'))
              st' (fun participant =>
                unreadCountUpdate chatId
                  (getUnreadCount chatId (ChatUser._id participant) (Socket.tenantId socket) st')))
  | None => (st', [])
  end.

(** *** [updateUnreadCount] *)
Definition updateUnreadCount (socket : Socket.t) (chatId userId : ObjectId) (st : Store)
    : Store * list emit :=
  (st, emitUnreadCountUpdate chatId userId (Socket.tenantId socket) st).

(** *** [getMessageHistory] *)
Definition getMessageHistory (socket : Socket.t) (chatId : ObjectId) (page : Z) (st : Store)
    : Store * list emit :=
  let limit_ := (10 * page)%Z in
  let skip := ((page - 1) * limit_)%Z in
  let totalMessages :=
    length (List.filter (fun m => bool_decide (Message.chatId m = chatId)) (messages st)) in
  let found :=
    limit limit_
      (sort_newest_first
         (List.filter (fun m => bool_decide (Message.chatId m = chatId)
                                && bool_decide (Message.tenantId m = Socket.tenantId socket))
            (messages st))) in
  let populatedMessages :=
    map (fun m =>
      (m, match findUserById (Message.senderId m) st with     (* populate("senderId") *)
          | Some sender =>
              getUserDetailsByToken (ChatUser._id sender) (Socket.tenantId socket) (Socket.token socket)
          | None => None
          end)) found in
  (st, [Emit (Socket.id socket)
          (messageHistory (rev populatedMessages)
             (Z.of_nat totalMessages >? skip + limit_)%Z
             (Z.of_nat totalMessages) page)]).

(** *** [deleteMessage] *)

(** The most recent message of the chat that is not hidden from [userId];
    the controller also filters on the tenant, the for-everyone branches
    also exclude the deleted id. *)
Definition findLastVisible (chatId : ObjectId) (tenantId : option TenantId)
    (excluded : option ObjectId) (userId : ObjectId) (st : Store) : option Message.t :=
  head (sort_newest_first
          (List.filter (fun m =>
             bool_decide (Message.chatId m = chatId)
             && match tenantId with
                | Some t => bool_decide (Message.tenantId m = t)
                | None => true
                end
             && match excluded with
                | Some x => negb (bool_decide (Message._id m = x))
                | None => true
                end
             && not_deleted_for userId m) (messages st))).

(** [deletedFor.find(d => d.userId.toString() === userId)], then either the
    found entry's [deletedAt] is overwritten or an entry for
    [new Types.ObjectId(userId)] is pushed. The lookup compares the strings;
    [None] is the constructor throwing. *)
Fixpoint upsertDeleted (userId : string) (now : Date) (ds : list DeletedFor.t)
    : option (list DeletedFor.t) :=
  match ds with
  | [] =>
      match Types_ObjectId userId with
      | Some userIdObj => Some [DeletedFor.mk userIdObj now]
      | None => None
      end
  | d :: rest =>
      if bool_decide (DeletedFor.userId d = userId)
      then Some (DeletedFor.mk (DeletedFor.userId d) now :: rest)
      else
        match upsertDeleted userId now rest with
        | Some rest' => Some (d :: rest')
        | None => None
        end
  end.

(** The entries stored with a message name ids: each reads back as itself. *)
Definition entries_name_ids (ds : list DeletedFor.t) : Prop :=
  Forall (fun d => Types_ObjectId (DeletedFor.userId d) = Some (DeletedFor.userId d)) ds.

Definition findMessageInChat (messageId chatId : ObjectId) (tenantId : TenantId) (st : Store)
    : option Message.t :=
  find (fun m => bool_decide (Message._id m = messageId)
                 && bool_decide (Message.chatId m = chatId)
                 && bool_decide (Message.tenantId m = tenantId)) (messages st).

(** [messageId], [chatId] and [userId] are the strings of the request.
    Mongoose casts the first two in every query that names them; [userId]
    is compared as a string with [message.senderId.toString()] and with the
    [deletedFor] entries, and passed to [new Types.ObjectId] where an id is
    needed. Whatever throws ends the handler in its [catch], which logs:
    what was written before stays written. An id read from the database is
    an ObjectId already: [new Types.ObjectId(participantId)] is the
    participant's id. The events carry the strings of the request. *)
Definition deleteMessage (socket : Socket.t) (now : Date)
    (messageId chatId userId : string) (mode : Mode) (st : Store) : Store * list emit :=
  match Types_ObjectId messageId, Types_ObjectId chatId with
  | Some messageIdObj, Some chatIdObj =>
      match findMessageInChat messageIdObj chatIdObj (Socket.tenantId socket) st with
      | None => (st, [])
      | Some message =>
          match mode with
          | forEveryone =>
              if negb (bool_decide (Message.senderId message = userId)) then (st, [])
              else
                let st' := findByIdAndDelete messageIdObj st in
                match findChatById chatIdObj st' with
                | None => (st', [])
                | Some chat =>
                    (st', to_participants (populate chat st') st' (fun participant =>
                            let lastVisibleMessage :=
                              findLastVisible chatIdObj None (Some messageIdObj)
                                (ChatUser._id participant) st' in
                            messageDeleted chatId messageId (preview <$> lastVisibleMessage)
                              forEveryone))
                end
          | forMe =>
              match upsertDeleted userId now (default [] (Message.deletedFor message)) with
              | None => (st, [])                             (* thrown before the save *)
              | Some deletedFor =>
                  let st1 := saveMessage (withDeletedFor message deletedFor) st in
                  match Types_ObjectId userId with
                  | None => (st1, [])                        (* thrown after the save *)
                  | Some userIdObj =>
                      let lastVisibleMessage :=
                        findLastVisible chatIdObj None None userIdObj st1 in
                      let st2 :=
                        match lastVisibleMessage with
                        | Some lv =>
                            if bool_decide (Message.senderId message = userId)
                            then setLastMessage chatIdObj (Message._id lv) st1
                            else st1
                        | None => st1
                        end in
                      (st2,
                       match findUserById userIdObj st2 with
                       | Some user =>
                           to_sockets (ChatUser.socketIds user)
                             (messageDeleted chatId messageId (preview <$> lastVisibleMessage)
                                forMe)
                       | None => []
                       end)
                  end
              end
          end
      end
  | _, _ => (st, [])                                         (* CastError *)
  end.

(** *** The [deleteMessage] controller (HTTP)

    [st] is the database of the request's tenant. The body of the
    controller is one [try]: whatever throws is answered 500 by its
    [catch], and what was written before stays written. An id that is not
    one throws where it is cast. And each [await] may reject: the driver
    fails, or a hook of the schema does (the decryption of
    [Repo.post_find]); [rejects] says which ones do. *)

Inductive Await :=
| AwaitGetTenantModels
| AwaitFindMessage
| AwaitFindByIdAndDelete
| AwaitFindChat
| AwaitFindLastVisible (userId : ObjectId)     (* the query made for that user *)
| AwaitFindParticipant (participantId : ObjectId)
| AwaitSave
| AwaitFindByIdAndUpdate
| AwaitFindUser.

Inductive Response :=
| status404                                   (* { error: "Message not found" } *)
| status403                                   (* { error: "Not authorized ..." } *)
| status200 (lastMessage : option Preview)    (* { success: true, lastMessage } *)
| status200NoUser                             (* { message: "No User Found" } *)
| status500                                   (* { error: "Error deleting message" } *)
| noResponse.                                 (* the function returns without answering *)

(** The loop over the participants. [lastVisibleMessage] is the variable of
    that name, which keeps the value computed for the last participant. It
    returns what was emitted and the variable, or [None] when an [await]
    rejected. *)
Fixpoint notifyParticipants (rejects : Await -> bool) (tenantId : TenantId)
    (chatId messageId : string) (chatIdObj messageIdObj : ObjectId) (st : Store)
    (participants : list ChatUser.t) (lastVisibleMessage : option Message.t)
    : list emit * option (option Message.t) :=
  match participants with
  | [] => ([], Some lastVisibleMessage)
  | participant :: rest =>
      let participantId := ChatUser._id participant in
      if rejects (AwaitFindLastVisible participantId) then ([], None)
      else
        let lastVisibleMessage :=
          findLastVisible chatIdObj (Some tenantId) (Some messageIdObj) participantId st in
        if rejects (AwaitFindParticipant participantId) then ([], None)
        else
          let events :=
            match findUserById participantId st with
            | Some participantUser =>
                to_sockets (ChatUser.socketIds participantUser)
                  (messageDeleted chatId messageId (preview <$> lastVisibleMessage)
                     forEveryone)
            | None => []
            end in
          let '(more, outcome) :=
            notifyParticipants rejects tenantId chatId messageId chatIdObj messageIdObj st
              rest lastVisibleMessage in
          (events ++ more, outcome)
  end.

Definition deleteMessageController (rejects : Await -> bool) (tenantId : TenantId)
    (now : Date) (messageId chatId userId : string) (mode : Mode) (st : Store)
    : Store * list emit * Response :=
  if rejects AwaitGetTenantModels then (st, [], status500) else
  match Types_ObjectId messageId, Types_ObjectId chatId with
  | Some messageIdObj, Some chatIdObj =>
      if rejects AwaitFindMessage then (st, [], status500) else
      match findMessageInChat messageIdObj chatIdObj tenantId st with
      | None => (st, [], status404)
      | Some message =>
          match mode with
          | forEveryone =>
              if negb (bool_decide (Message.senderId message = userId))
              then (st, [], status403)
              else if rejects AwaitFindByIdAndDelete then (st, [], status500)
              else
                let st' := findByIdAndDelete messageIdObj st in
                if rejects AwaitFindChat then (st', [], status500) else
                match findChatById chatIdObj st' with
                | None => (st', [], noResponse)
                | Some chat =>
                    match notifyParticipants rejects tenantId chatId messageId
                            chatIdObj messageIdObj st' (populate chat st') None with
                    | (events, Some lastVisibleMessage) =>
                        (st', events, status200 (preview <$> lastVisibleMessage))
                    | (events, None) => (st', events, status500)
                    end
                end
          | forMe =>
              match upsertDeleted userId now (default [] (Message.deletedFor message)) with
              | None => (st, [], status500)
              | Some deletedFor =>
                  if rejects AwaitSave then (st, [], status500) else
                  let st1 := saveMessage (withDeletedFor message deletedFor) st in
                  match Types_ObjectId userId with
                  | None => (st1, [], status500)
                  | Some userIdObj =>
                      if rejects (AwaitFindLastVisible userIdObj) then (st1, [], status500)
                      else
                        let lastVisibleMessage :=
                          findLastVisible chatIdObj (Some tenantId) None userIdObj st1 in
                        match
                          match lastVisibleMessage with
                          | Some lv =>
                              if bool_decide (Message.senderId message = userId)
                              then
                                if rejects AwaitFindByIdAndUpdate then None
                                else Some (setLastMessage chatIdObj (Message._id lv) st1)
                              else Some st1
                          | None => Some st1
                          end
                        with
                        | None => (st1, [], status500)
                        | Some st2 =>
                            if rejects AwaitFindUser then (st2, [], status500) else
                            match findUserById userIdObj st2 with
                            | None => (st2, [], status200NoUser)
                            | Some user =>
                                (st2,
                                 to_sockets (ChatUser.socketIds user)
                                   (messageDeleted chatId messageId
                                      (preview <$> lastVisibleMessage) forMe),
                                 status200 (preview <$> lastVisibleMessage))
                            end
                        end
                  end
              end
          end
      end
  | _, _ => (st, [], status500)
  end.

(** *** [directMessage] *)

(** A query result is a document with its methods, or with [.lean()] a
    plain object, which has no [save]. *)
Inductive loaded (A : Type) :=
| Hydrated (doc : A)
| Lean (doc : A).
Arguments Hydrated {A} doc.
Arguments Lean {A} doc.

Definition saveChat (c : loaded Chat.t) (st : Store) : result Store :=
  match c with
  | Hydrated doc =>
      Ok {| messages := messages st;
            chats := update_first_chat (Chat._id doc) (fun _ => doc) (chats st);
            users := users st |}
  | Lean _ => Err TypeError                    (* chat.save is not a function *)
  end.

Definition findUserBySocket (socketId : SocketId) (st : Store) : option ChatUser.t :=
  find (fun u => bool_decide (socketId ∈ ChatUser.socketIds u)) (users st).

(** The loop over the other participants. [participants] are the objects the
    identity service returned; [viewers] is [message.viewers] in memory. It
    returns what was emitted, the viewers, and the exception that ended it,
    if any. *)
Fixpoint autoRead (socket : Socket.t) (sockets : list Socket.t) (now : Date)
    (chatId messageId : ObjectId) (participants : list IUser) (st : Store)
    (otherParticipants : list IUser) (viewers : list ObjectId)
    : list emit * list ObjectId * option error :=
  match otherParticipants with
  | [] => ([], viewers, None)
  | participant :: rest =>
      match IUser_socketIds participant, sockets with
      | None, _ :: _ => ([], viewers, Some TypeError)   (* undefined.includes(s.id) *)
      | socketIds, _ =>
          let participantSockets :=
            List.filter (fun s => bool_decide (Socket.id s ∈ default [] socketIds)) sockets in
          let isParticipantInChat :=
            existsb (fun s => bool_decide (chatId ∈ Socket.rooms s)) participantSockets in
          let userIdObj := iam_id participant in
          let viewers' :=
            if isParticipantInChat && negb (bool_decide (userIdObj ∈ viewers))
            then viewers ++ [userIdObj] else viewers in
          let userDetails :=
            getUserDetailsByToken userIdObj (Socket.tenantId socket) (Socket.token socket) in
          match isParticipantInChat, userDetails with
          | true, None => autoRead socket sockets now chatId messageId participants st rest viewers'
          | inChat, _ =>
              let readEvents :=
                match inChat, userDetails with
                | true, Some details =>
                    flat_map (fun p =>
                      to_sockets (default [] (IUser_socketIds p))
                        (messageRead messageId chatId userIdObj now (displayName details)))
                      participants
                | _, _ => []
                end in
              let countEvents :=
                emitUnreadCountUpdate chatId (iam_id participant) (Socket.tenantId socket) st in
              let '(events, viewers'', thrown) :=
                autoRead socket sockets now chatId messageId participants st rest viewers' in
              (readEvents ++ countEvents ++ events, viewers'', thrown)
          end
      end
  end.

(** What a handler that can throw leaves behind: the store, the handling
    socket, what was emitted, and the exception its [catch] logged. *)
Record Outcome := {
  store : Store;
  socket_after : Socket.t;
  emitted : list emit;
  thrown : option error
}.

Definition joinRoom (room : string) (socket : Socket.t) : Socket.t :=
  if bool_decide (room ∈ Socket.rooms socket) then socket
  else Socket.mk (Socket.id socket) (Socket.userId socket) (Socket.tenantId socket)
         (Socket.token socket) (Socket.rooms socket ++ [room]).

(** [others] are the other connected sockets: [io.sockets.sockets] is the
    handling socket and them. [newId] is the id given to the new message. *)
Definition directMessage (socket : Socket.t) (others : list Socket.t) (now : Date)
    (newId chatId : ObjectId) (content_body : string) (st : Store) : Outcome :=
  let user := findUserBySocket (Socket.id socket) st in
  let chat := Lean <$> findChatById chatId st in                   (* .lean() *)
  match user, chat with
  | Some user, Some chat =>
      let participants :=
        getUsersDetailsByToken
          (map ChatUser._id (populate (match chat with Lean c | Hydrated c => c end) st))
          (Socket.tenantId socket) (Socket.token socket) in
      let socket := joinRoom chatId socket in
      let message :=
        Message.mk newId (Socket.tenantId socket) chatId (ChatUser._id user) content_body now
          (Some []) [] in
      let st := createMessage message st in
      let chat :=
        match chat with
        | Lean c => Lean (Chat.mk (Chat._id c) (Chat.tenantId c) (Chat.participants c) (Some newId))
        | Hydrated c =>
            Hydrated (Chat.mk (Chat._id c) (Chat.tenantId c) (Chat.participants c) (Some newId))
        end in
      match saveChat chat st with
      | Err e => {| store := st; socket_after := socket; emitted := []; thrown := Some e |}
      | Ok st =>
          match findMessageById newId st with
          | None => {| store := st; socket_after := socket; emitted := []; thrown := None |}
          | Some populatedMessage =>
              let otherParticipants :=
                List.filter (fun p => negb (bool_decide (iam_id p = ChatUser._id user)))
                  participants in
              let sent :=
                flat_map (fun p =>
                  to_sockets (default [] (IUser_socketIds p))
                    (messageSent populatedMessage chatId)) participants in
              let '(events, viewers, thrown) :=
                autoRead socket (socket :: others) now chatId newId participants st
                  otherParticipants (Message.viewers message) in
              match thrown with
              | Some e =>
                  {| store := st; socket_after := socket; emitted := sent ++ events;
                     thrown := Some e |}
              | None =>
                  {| store := saveMessage (withViewers message viewers) st;
                     socket_after := socket; emitted := sent ++ events; thrown := None |}
              end
          end
      end
  | _, _ => {| store := st; socket_after := socket; emitted := []; thrown := None |}
  end.

(** *** Requests *)

Inductive Request :=
| MarkMessageAsRead (chatId messageId userId : ObjectId)
| MarkAllMessagesAsRead (chatId userId : ObjectId)
| UpdateUnreadCount (chatId userId : ObjectId)
| GetMessageHistory (chatId : ObjectId) (page : Z)
| DeleteMessage (messageId chatId userId : string) (mode : Mode)
| DirectMessage (chatId : ObjectId) (content_body : string).

Definition handle (socket : Socket.t) (others : list Socket.t) (now : Date) (newId : ObjectId)
    (r : Request) (st : Store) : Store * list emit :=
  match r with
  | MarkMessageAsRead chatId messageId userId =>
      markMessageAsRead socket now chatId messageId userId st
  | MarkAllMessagesAsRead chatId userId => markAllMessagesAsRead socket chatId userId st
  | UpdateUnreadCount chatId userId => updateUnreadCount socket chatId userId st
  | GetMessageHistory chatId page => getMessageHistory socket chatId page st
  | DeleteMessage messageId chatId userId mode =>
      deleteMessage socket now messageId chatId userId mode st
  | DirectMessage chatId content_body =>
      let o := directMessage socket others now newId chatId content_body st in
      (store o, emitted o)
  end.

End Handlers.

(** Every message and chat of the database carries the tag of tenant [t]. *)
Definition tagged (t : TenantId) (st : Store) : Prop :=
  Forall (fun m => Message.tenantId m = t) (messages st) /\
  Forall (fun c => Chat.tenantId c = t) (chats st).

(** The documents an event hands to a client are documents of [st]. *)
Definition from_store (st : Store) (p : payload) : Prop :=
  match p with
  | messageSent m _ => m ∈ messages st
  | messageHistory ms _ _ _ => forall m, m ∈ map fst ms -> m ∈ messages st
  | messageDeleted _ _ (Some pv) _ => exists m, m ∈ messages st /\ preview m = pv
  | _ => True
  end.

(** The specification's unread predicate: the message is of chat [c], was
    not sent by [u], has not been viewed by [u], and has no [deletedFor]
    entry for [u]. *)
Definition spec_unread (c u : ObjectId) (m : Message.t) : Prop :=
  Message.chatId m = c /\
  (Message.senderId m <> u) /\
  (u ∉ Message.viewers m) /\
  Forall (fun d => DeletedFor.userId d <> u) (default [] (Message.deletedFor m)).

#[global] Instance spec_unread_dec c u m : Decision (spec_unread c u m).
Proof. unfold spec_unread. apply _. Defined.





(** No [deletedFor] entry of the message names [u]. *)
Definition visible_to (u : ObjectId) (m : Message.t) : Prop :=
  Forall (fun d => DeletedFor.userId d <> u) (default [] (Message.deletedFor m)).

(** [r] is the most recent message of chat [c] in [st] that is not hidden
    from [u], or nothing when there is none. *)
Definition last_visible_for (c u : ObjectId) (st : Store) (r : option Message.t) : Prop :=
  match r with
  | Some lv =>
      lv ∈ messages st /\ Message.chatId lv = c /\ visible_to u lv /\
      forall m, m ∈ messages st -> Message.chatId m = c -> visible_to u m ->
                (Message.createdAt m <= Message.createdAt lv)%N
  | None =>
      forall m, m ∈ messages st -> Message.chatId m = c -> ~ visible_to u m
  end.

(** *** A two-person chat to run the handlers on

    Alice and Bob, each with one socket in the room of their chat. Bob sent
    [m1], which Alice has read; Alice sent [m2], which Bob has not. *)
Module Demo.

Definition iam (u : ObjectId) (t : TenantId) (token : string) : option IUser :=
  Some {| iam_id := u; firstname := "User"; lastname := u; profile_image := "" |}.

(** The ids of the two users, of their chat and of its messages, of a third
    user, and of the documents of another tenant. *)
Abbreviation alice_id := "aaaaaaaaaaaaaaaaaaaaaaa1"%string.
Abbreviation bob_id := "bbbbbbbbbbbbbbbbbbbbbbb2"%string.
Abbreviation carol_id := "ccccccccccccccccccccccc3"%string.
Abbreviation chat_id := "c0c0c0c0c0c0c0c0c0c0c0c1"%string.
Abbreviation m1_id := "000000000000000000000001"%string.
Abbreviation m2_id := "000000000000000000000002"%string.
Abbreviation m3_id := "000000000000000000000003"%string.
Abbreviation zoe_id := "eeeeeeeeeeeeeeeeeeeeeee9"%string.
Abbreviation yan_id := "ddddddddddddddddddddddd8"%string.
Abbreviation other_chat_id := "c0c0c0c0c0c0c0c0c0c0c0c9"%string.
Abbreviation other_message_id := "f00000000000000000000001"%string.

(** Bob's id as a client may write it: the same id, in upper case. *)
Abbreviation bob_id_upper := "BBBBBBBBBBBBBBBBBBBBBBB2"%string.

Definition alice : ChatUser.t := ChatUser.mk alice_id ["sa"] true.
Definition bob : ChatUser.t := ChatUser.mk bob_id ["sb"] true.

Definition m1 : Message.t :=
  Message.mk m1_id "t1" chat_id bob_id "hello" 100 (Some []) [alice_id].
Definition m2 : Message.t :=
  Message.mk m2_id "t1" chat_id alice_id "hi bob" 200 (Some []) [].

Definition chat : Chat.t := Chat.mk chat_id "t1" [alice_id; bob_id] (Some m2_id).

Definition st : Store := {| messages := [m1; m2]; chats := [chat]; users := [alice; bob] |}.

Definition alice_socket : Socket.t := Socket.mk "sa" alice_id "t1" (Some "token") [chat_id].
Definition bob_socket : Socket.t := Socket.mk "sb" bob_id "t1" (Some "token") [chat_id].

(** Another tenant's database. *)
Definition st2 : Store :=
  {| messages := [Message.mk other_message_id "t2" other_chat_id zoe_id "elsewhere" 50
                    (Some []) []];
     chats := [Chat.mk other_chat_id "t2" [zoe_id; yan_id] (Some other_message_id)];
     users := [ChatUser.mk zoe_id ["sz"] true] |}.

(** The driver the handlers are run with. *)
Definition bson : Bson := {| Types_ObjectId := hexObjectId |}.

(** The database answers every query. *)
Definition answers (a : Await) : bool := false.

End Demo.

End Engine.

(** ** Tenant initialization ([src/services/tenantDatabaseService.ts])

    [initializeTenantDB] runs in two parts separated by its [await]: the
    membership test with the call to [connectToTenantDB], then the addition
    to [initializedTenants]. Calls in flight take turns, each running its
    next part. [connectToTenantDB] belongs to [config/db]; what is recorded
    of it is that it was invoked. *)
Module Router.

Abbreviation TenantId := string.

Record State := {
  initializedTenants : gset TenantId;
  (* one entry per invocation of connectToTenantDB *)
  connectCalls : list TenantId
}.

(** Where a call stands. *)
Inductive Call :=
| Entered (tenantId : TenantId)
| AwaitingConnect (tenantId : TenantId)
| Returned (tenantId : TenantId).

(** The next part of a call. *)
Definition advance (c : Call) (s : State) : Call * State :=
  match c with
  | Entered t =>
      if bool_decide (t ∈ initializedTenants s)
      then (Returned t, s)                        (* getTenantConnection(tenantId) *)
      else (AwaitingConnect t,
            {| initializedTenants := initializedTenants s;
               connectCalls := connectCalls s ++ [t] |})
  | AwaitingConnect t =>
      (Returned t,
       {| initializedTenants := {[t]} ∪ initializedTenants s;
          connectCalls := connectCalls s |})
  | Returned t => (Returned t, s)
  end.

(** A schedule names, turn after turn, the call that runs. *)
Fixpoint run (schedule : list nat) (calls : list Call) (s : State) : list Call * State :=
  match schedule with
  | [] => (calls, s)
  | i :: rest =>
      match calls !! i with
      | Some c =>
          let '(c', s') := advance c s in
          run rest (<[i := c']> calls) s'
      | None => run rest calls s
      end
  end.

Definition fresh : State := {| initializedTenants := ∅; connectCalls := [] |}.

End Router.

(** ** The [sendMessage] controller ([src/controllers/chat.controller.ts])

    The HTTP way to send a message. The sender is [content.senderId._id] of
    the request body and [body] is [String(content.body || '')]. Push
    notifications go to a hub outside the store and the sockets; a failure
    there is caught and logged, and they are left out. *)
Module Http.
Import Engine.





End Http.

(** ** Presence and chats (socketManager: [join], [disconnect],
       [updateStatus], [startChat])

    A [chatusers] document as these handlers see it: what [Engine.ChatUser.t]
    holds, and the [status]. [io.emit] reaches every connected socket. *)
Module Presence.
Import Engine.

Module User.
Record t := mk {
  _id : ObjectId;
  socketIds : list SocketId;
  active : bool;
  status : string
}.
End User.

Definition toChatUser (u : User.t) : ChatUser.t :=
  ChatUser.mk (User._id u) (User.socketIds u) (User.active u).

Record State := {
  users : list User.t;
  chats : list Chat.t
}.

(** [io.emit("participantStatusUpdate", ...)]. *)
Inductive broadcast :=
| participantStatusUpdate (participantId : ObjectId) (status : string) (active : bool).

(** A value that is there and is not the empty string. *)
Definition given (a : option string) : option string :=
  match a with
  | Some s => if bool_decide (s = "") then None else Some s
  | None => None
  end.

(** [a || b]. *)
Definition or_else (a b : option string) : option string :=
  match given a with
  | Some s => Some s
  | None => b
  end.

Definition findUser (userId : ObjectId) (st : State) : option User.t :=
  find (fun u => bool_decide (User._id u = userId)) (users st).

(** [user.save()]. *)
Definition saveUser (u : User.t) (st : State) : State :=
  {| users := map (fun u' => if bool_decide (User._id u' = User._id u) then u else u') (users st);
     chats := chats st |}.

(** [ChatUser.create]: [active] defaults to [false], [status] to ["Online"]. *)
Definition createUser (userId : ObjectId) (socketIds : list SocketId) (st : State) : State :=
  {| users := users st ++ [User.mk userId socketIds false "Online"];
     chats := chats st |}.

(** [Chat.find({ participants: userId, tenantId })]. *)
Definition chatsOf (userId : ObjectId) (tenantId : TenantId) (st : State) : list Chat.t :=
  List.filter (fun c => bool_decide (userId ∈ Chat.participants c)
                        && bool_decide (Chat.tenantId c = tenantId)) (chats st).

(** [userData] is the event's argument: its [_id] and [tenantId]. *)
Definition join (socket : Socket.t) (userData_id userData_tenantId : option string)
    (st : State) : State * Socket.t * list broadcast :=
  match given (or_else (Some (Socket.userId socket)) userData_id),
        given (or_else (Some (Socket.tenantId socket)) userData_tenantId) with
  | Some userId, Some tenantId =>
      match findUser userId st with
      | Some user =>
          let socketIds :=
            if bool_decide (Socket.id socket ∈ User.socketIds user) then User.socketIds user
            else User.socketIds user ++ [Socket.id socket] in
          let user := User.mk (User._id user) socketIds true (User.status user) in
          let st := saveUser user st in
          let socket :=
            fold_left (fun s chat => joinRoom (Chat._id chat) s) (chatsOf userId tenantId st)
              socket in
          (st, socket, [participantStatusUpdate (User._id user) (User.status user) true])
      | None => (createUser userId [Socket.id socket] st, socket, [])
      end
  | _, _ => (st, socket, [])
  end.

Definition disconnect (socket : Socket.t) (st : State) : State * list broadcast :=
  match find (fun u => bool_decide (Socket.id socket ∈ User.socketIds u)) (users st) with
  | Some user =>
      let socketIds :=
        List.filter (fun id => negb (bool_decide (id = Socket.id socket))) (User.socketIds user) in
      let active := (0 <? length socketIds)%nat in
      let user := User.mk (User._id user) socketIds active (User.status user) in
      (saveUser user st, [participantStatusUpdate (User._id user) (User.status user) active])
  | None => (st, [])
  end.

(** [ChatUser.findByIdAndUpdate(userId, { status }, { new: true })]: the
    first document with that id. *)
Fixpoint update_first_user (userId : ObjectId) (f : User.t -> User.t) (us : list User.t)
    : list User.t :=
  match us with
  | [] => []
  | u :: rest =>
      if bool_decide (User._id u = userId) then f u :: rest
      else u :: update_first_user userId f rest
  end.

Definition updateStatus (status : string) (userId : ObjectId) (st : State)
    : State * list broadcast :=
  match findUser userId st with
  | Some user =>
      ({| users := update_first_user userId
                     (fun u => User.mk (User._id u) (User.socketIds u) (User.active u) status)
                     (users st);
          chats := chats st |},
       [participantStatusUpdate (User._id user) status (User.active user)])
  | None => (st, [])
  end.

(** [startChat]. [userId] and [contact_id] are the event's [userId] and
    [contact?._id]; [newId] is the id a created chat gets. What the handler
    returns is dropped by the socket server: only the store matters. *)
Definition startChat (socket : Socket.t) (userId contact_id : option string)
    (newId : ObjectId) (st : State) : State :=
  match given (or_else (Some (Socket.userId socket)) userId) with
  | None => st
  | Some currentUserId =>
      match findUser currentUserId st with
      | None => st
      | Some currentUser =>
          let otherUser := contact_id ≫= (fun c => findUser c st) in
          let '(otherUser, st) :=
            match otherUser, given contact_id with
            | None, Some c => (Some (User.mk c [] false "Online"), createUser c [] st)
            | _, _ => (otherUser, st)
            end in
          match otherUser with
          | None => st
          | Some otherUser =>
              let chat :=
                find (fun c =>
                  bool_decide (User._id currentUser ∈ Chat.participants c)
                  && bool_decide (User._id otherUser ∈ Chat.participants c)   (* $all *)
                  && bool_decide (Chat.tenantId c = Socket.tenantId socket)) (chats st) in
              match chat with
              | Some _ => st
              | None =>
                  {| users := users st;
                     chats := chats st ++
                       [Chat.mk newId (Socket.tenantId socket)
                          [User._id currentUser; User._id otherUser] None] |}
              end
          end
      end
  end.

(** The [active] flag is only ever set on a user that has a socket. *)
Definition active_with_socket (st : State) : Prop :=
  Forall (fun u => User.active u = true -> User.socketIds u <> []) (users st).

End Presence.

(** ** Reactions (socketManager: [addReaction])

    [reactions] holds, per message id, the [reactions] array of that
    message; a message without an entry has none. *)
Module Reactions.
Import Engine.

Record Reaction := { userId : ObjectId; emoji : string }.

Record State := {
  store : Store;
  reactions : gmap ObjectId (list Reaction)
}.

Definition reactionsOf (messageId : ObjectId) (st : State) : list Reaction :=
  default [] (reactions st !! messageId).

(** What a client is told of a reaction: who, which emoji, and the
    reacting user's display name and picture. *)
Record ReactionNotice := {
  notice_userId : ObjectId;
  notice_emoji : string;
  notice_user_id : ObjectId;
  notice_displayName : string;
  notice_profile_image : string
}.

Inductive payload :=
| messageReaction (messageId chatId : ObjectId) (reaction : option ReactionNotice)
    (userId : ObjectId).

Record emit := Emit { to : SocketId; what : payload }.

Section Handler.
Context (iam : ObjectId -> TenantId -> string -> option IUser).

Definition addReaction (socket : Socket.t) (messageId chatId : ObjectId) (emoji : string)
    (st : State) : State * list emit :=
  match findUserBySocket (Socket.id socket) (store st) with
  | None => (st, [])
  | Some user =>
      match findMessageById messageId (store st) with
      | None => (st, [])
      | Some message =>
          let kept :=
            List.filter (fun r => negb (bool_decide (userId r = ChatUser._id user)))
              (reactionsOf (Message._id message) st) in
          let reactions' :=
            if bool_decide (emoji = "") then kept
            else kept ++ [{| userId := ChatUser._id user; emoji := emoji |}] in
          let st :=
            {| store := store st;
               reactions := <[Message._id message := reactions']> (reactions st) |} in
          match findChatById chatId (store st) with
          | None => (st, [])
          | Some chat =>
              match getUserDetailsByToken iam (ChatUser._id user) (Socket.tenantId socket)
                      (Socket.token socket) with
              | None => (st, [])
              | Some userDetails =>
                  let reaction :=
                    if bool_decide (emoji = "") then None
                    else Some {| notice_userId := ChatUser._id user;
                                 notice_emoji := emoji;
                                 notice_user_id := iam_id userDetails;
                                 notice_displayName := displayName userDetails;
                                 notice_profile_image := profile_image userDetails |} in
                  (st,
                   flat_map (fun participant =>
                     map (fun socketId =>
                       Emit socketId
                         (messageReaction messageId chatId reaction (ChatUser._id user)))
                       (ChatUser.socketIds participant))
                     (populate chat (store st)))
              end
          end
      end
  end.

End Handler.

End Reactions.

(** ** Encryption with a fresh nonce
       ([encryptData], [decryptData], [storePII] of the crypto service)

    [randomBytes] is not a function of its argument: what it returned is a
    parameter of the call that used it. *)
Module Pii.
Import Crypto.

Record Stored := {
  stored_nonce : jsstring;
  stored_salt : jsstring;
  stored_ciphertext : jsstring
}.

Section Service.
Context (P : Platform).

(** [randomBytes(16).toString("hex")] *)
Definition generateSalt (random16 : buffer) : jsstring := Hex.encode random16.

(** [random24] is [randomBytes(24)]; the result is the pair
    [{ ciphertext, nonce }], both in hex. *)
Definition encryptData (random24 : buffer) (plaintext : jsstring) (key : buffer)
    : result (jsstring * jsstring) :=
  let message := Utf8.encode plaintext in
  match aead_encrypt P message random24 key with
  | Some ciphertext => Ok (Hex.encode ciphertext, Hex.encode random24)
  | None => Err AeadError
  end.

Definition decryptData (ciphertextHex nonceHex : jsstring) (key : buffer) : result jsstring :=
  let ciphertext := Hex.decode ciphertextHex in
  let nonce := Hex.decode nonceHex in
  if (length ciphertext <? ABYTES)%nat then Err RangeError
  else
    match aead_decrypt P ciphertext nonce key with
    | None => Err DecryptionFailed
    | Some message => Ok (Utf8.decode message)
    end.

Definition storePII (random16 random24 : buffer) (ssn password : jsstring) : io Stored :=
  let salt := generateSalt random16 in
  key ← deriveKey P password salt;
  match encryptData random24 ssn key with
  | Ok (ciphertext, nonce) =>
      mret {| stored_nonce := nonce; stored_salt := salt; stored_ciphertext := ciphertext |}
  | Err e => throw e
  end.

End Service.

End Pii.

(** ** The key vault ([src/services/keyVault.ts])

    A read-through cache before the vault's client. [getSecret] and
    [setSecret] are the client's calls: [Err] when they throw, else
    [result.value] and [result.name], which may be missing. *)
Module Vault.

Section Client.
Context (getSecret : jsstring -> result (option jsstring)).
Context (setSecret : jsstring -> jsstring -> result (option jsstring)).

Definition putValueInKeyVault (secretName secretValue : jsstring) : io jsstring :=
  match setSecret secretName secretValue with
  | Err e => throw e
  | Ok name =>
      _ ← cache_set secretName secretValue;
      mret (default [] name)                                   (* result.name || '' *)
  end.

Definition getValueFromKeyVault (secretName : jsstring) : io jsstring :=
  cachedSecret ← cache_get secretName;
  match usable cachedSecret with
  | Some cachedSecret => mret cachedSecret
  | None =>
      match getSecret secretName with
      | Err e => throw e
      | Ok value =>
          let value := default [] value in                     (* result.value || '' *)
          if truthy value
          then _ ← cache_set secretName value; mret value
          else mret value
      end
  end.

End Client.

End Vault.

(** ** The encrypt-on-save hooks ([src/models/Chat.ts])

    The pre-save hook of the Chat and the Message schema. [isModified] is
    [this.isModified(field)]. *)
Module SaveHook.
Import Crypto Repo.

Section Hooks.
Context (P : Platform).
Context (getEncryptionSecretsByTenantId : jsstring -> option secrets).

Definition pre_save (contextTenant : option jsstring) (isModified : bool) (d : doc)
    : io doc :=
  match usable contextTenant with
  | None => mret d
  | Some tenant =>
      match getEncryptionSecretsByTenantId tenant with
      | None => mret d
      | Some s =>
          match isModified, usable (field d) with
          | true, Some v =>
              encryptedData ← encryptDataWithNonce P v (salt s) (nonce s) (encryptionPassword s);
              mret (Doc (_id d) (tenantId d) (updatedAt d) (Some encryptedData))
          | _, _ => mret d
          end
      end
  end.

End Hooks.

End SaveHook.

(** ** The tenant connection pool ([config/db]) and the tenant database
       service, one call after the other

    The pool's code stands in the sources after the request validations
    ([src/validations/chat.validation.ts], from [connectToTenantDB] on).
    [connections] and [modelCache] are its two module-level objects,
    [initializedTenants] is the set of the tenant database service.
    [created] lists every connection [mongoose.createConnection] has been
    asked for: it returns at once, and a database that cannot be reached
    shows later as an event, not as an exception. The credentials are read
    from the key vault; [creds] is what the two reads gave, or the
    exception one of them threw. A connection is to the database that its
    connection string names, [dbName]: a tenant id is taken to be written
    with characters that stand for themselves in a connection string. *)
Module Db.

Abbreviation TenantId := string.

(** *** Plain objects

    [connections] and [modelCache] are object literals. For a key that it
    does not hold itself such an object answers what [Object.prototype]
    holds under that key. *)
Definition Object_prototype : list string :=
  ["constructor"; "__defineGetter__"; "__defineSetter__"; "hasOwnProperty";
   "__lookupGetter__"; "__lookupSetter__"; "isPrototypeOf"; "propertyIsEnumerable";
   "toString"; "valueOf"; "__proto__"; "toLocaleString"]%string.

(** What [object[key]] is when it is not [undefined]: a value stored under
    the key, or the inherited member of that name (a function, and for
    [__proto__] the prototype itself). Either is truthy. *)
Inductive Held (A : Type) :=
| Own (a : A)
| Inherited (member : string).
Arguments Own {A} a.
Arguments Inherited {A} member.

(** [object[key]]; [None] is [undefined]. *)
Definition property {A} (object : gmap string A) (key : string) : option (Held A) :=
  match object !! key with
  | Some a => Some (Own a)
  | None => if bool_decide (key ∈ Object_prototype) then Some (Inherited key) else None
  end.

Record Connection := {
  serial : nat;                         (* which call of createConnection made it *)
  dbName : string;
  username : jsstring;
  password : jsstring
}.

(** The three models of a tenant, built on one connection. *)
Record Models := { connection : Connection }.

(** [connections] and [modelCache] hold what was stored in them. *)
Record State := {
  connections : gmap TenantId Connection;
  modelCache : gmap TenantId Models;
  initializedTenants : gset TenantId;
  created : list Connection
}.

Definition initial : State :=
  {| connections := ∅; modelCache := ∅; initializedTenants := ∅; created := [] |}.

(** [connections[tenantId] = connection] is reached past the test of
    [connections[tenantId]], hence with a key that names no member of the
    prototype: it stores under the key. *)
Definition connectToTenantDB (creds : result (jsstring * jsstring)) (tenantId : TenantId)
    (s : State) : result (Held Connection) * State :=
  match property (connections s) tenantId with
  | Some held => (Ok held, s)
  | None =>
      match creds with
      | Err e => (Err e, s)
      | Ok (mongoUsername, mongoPassword) =>
          let connection :=
            {| serial := length (created s);
               dbName := ("tenant-" ++ tenantId)%string;
               username := mongoUsername;
               password := mongoPassword |} in
          (Ok (Own connection),
           {| connections := <[tenantId := connection]> (connections s);
              modelCache := modelCache s;
              initializedTenants := initializedTenants s;
              created := created s ++ [connection] |})
      end
  end.

(** It throws [No active connection for tenant]. *)
Definition getTenantConnection (tenantId : TenantId) (s : State)
    : result (Held Connection) :=
  match property (connections s) tenantId with
  | Some held => Ok held
  | None => Err DatabaseUnavailable
  end.

(** [contextTenantId] is [req?.user?.contextTenantId]. Of an inherited
    member [connection.model] is [undefined], and calling it throws. *)
Definition getTenantModels (creds : result (jsstring * jsstring)) (tenantId : TenantId)
    (contextTenantId : option TenantId) (s : State) : result (Held Models) * State :=
  let actualTenantId :=
    match contextTenantId with
    | Some c => if bool_decide (c = "") then tenantId else c
    | None => tenantId
    end in
  match property (modelCache s) actualTenantId with
  | Some held => (Ok held, s)
  | None =>
      match connectToTenantDB creds actualTenantId s with
      | (Err e, s) => (Err e, s)
      | (Ok (Inherited _), s) => (Err TypeError, s)
      | (Ok (Own connection), s) =>
          let models := {| connection := connection |} in
          (Ok (Own models),
           {| connections := connections s;
              modelCache := <[actualTenantId := models]> (modelCache s);
              initializedTenants := initializedTenants s;
              created := created s |})
      end
  end.

(** The [disconnected] event of a tenant's connection. *)
Definition disconnected (tenantId : TenantId) (s : State) : State :=
  {| connections := connections s;
     modelCache := delete tenantId (modelCache s);
     initializedTenants := initializedTenants s;
     created := created s |}.

(** *** [src/services/tenantDatabaseService.ts] *)

Definition initializeTenantDB (creds : result (jsstring * jsstring)) (tenantId : TenantId)
    (s : State) : result (Held Connection) * State :=
  if bool_decide (tenantId ∈ initializedTenants s)
  then (getTenantConnection tenantId s, s)
  else
    match connectToTenantDB creds tenantId s with
    | (Err e, s) => (Err e, s)
    | (Ok connection, s) =>
        (Ok connection,
         {| connections := connections s;
            modelCache := modelCache s;
            initializedTenants := {[tenantId]} ∪ initializedTenants s;
            created := created s |})
    end.

Definition ensureTenantDatabaseExists (creds : result (jsstring * jsstring))
    (tenantId : TenantId) (s : State) : bool * State :=
  match initializeTenantDB creds tenantId s with
  | (Ok _, s) => (true, s)
  | (Err _, s) => (false, s)
  end.

Definition resetTenantInitialization (tenantId : TenantId) (s : State) : State :=
  {| connections := connections s;
     modelCache := modelCache s;
     initializedTenants := initializedTenants s ∖ {[tenantId]};
     created := created s |}.

(** [getTenantModels] of the socket manager. It hands on [Chat], [Message]
    and [ChatUser] of what the pool returned: the models, or three times
    [undefined] ([None]) when that is an inherited member. *)
Definition socketGetTenantModels (creds : result (jsstring * jsstring)) (tenantId : TenantId)
    (s : State) : result (option Models) * State :=
  match ensureTenantDatabaseExists creds tenantId s with
  | (false, s) => (Err DatabaseUnavailable, s)
  | (true, s) =>
      match getTenantModels creds tenantId None s with
      | (Err e, s) => (Err e, s)
      | (Ok (Own models), s) => (Ok (Some models), s)
      | (Ok (Inherited _), s) => (Ok None, s)
      end
  end.

(** Whatever is called, in whatever order. *)
Inductive Op :=
| ConnectToTenantDB (creds : result (jsstring * jsstring)) (tenantId : TenantId)
| GetTenantModels (creds : result (jsstring * jsstring)) (tenantId : TenantId)
    (contextTenantId : option TenantId)
| Disconnected (tenantId : TenantId)
| InitializeTenantDB (creds : result (jsstring * jsstring)) (tenantId : TenantId)
| EnsureTenantDatabaseExists (creds : result (jsstring * jsstring)) (tenantId : TenantId)
| ResetTenantInitialization (tenantId : TenantId)
| SocketGetTenantModels (creds : result (jsstring * jsstring)) (tenantId : TenantId).

Definition perform (s : State) (op : Op) : State :=
  match op with
  | ConnectToTenantDB creds t => (connectToTenantDB creds t s).2
  | GetTenantModels creds t c => (getTenantModels creds t c s).2
  | Disconnected t => disconnected t s
  | InitializeTenantDB creds t => (initializeTenantDB creds t s).2
  | EnsureTenantDatabaseExists creds t => (ensureTenantDatabaseExists creds t s).2
  | ResetTenantInitialization t => resetTenantInitialization t s
  | SocketGetTenantModels creds t => (socketGetTenantModels creds t s).2
  end.

Definition after (ops : list Op) : State := fold_left perform ops initial.

(** Every pooled connection is to its tenant's database and was created by
    the pool, under a key that names no member of the prototype; the cached
    models of a tenant are built on its pooled connection; and for an
    initialized tenant [connections[tenantId]] is not [undefined]. *)
Definition consistent (s : State) : Prop :=
  (forall t c, connections s !! t = Some c ->
     dbName c = ("tenant-" ++ t)%string /\ c ∈ created s /\ t ∉ Object_prototype) /\
  (forall t m, modelCache s !! t = Some m -> connections s !! t = Some (connection m)) /\
  (forall t, t ∈ initializedTenants s -> is_Some (property (connections s) t)).

(** *** Calls of [connectToTenantDB] that overlap

    [connectToTenantDB] tests the pool, awaits the key vault, and then
    creates and stores the connection. Calls in flight take turns, each
    running its next part. *)
Inductive Call :=
| Entered (tenantId : TenantId)
| AwaitingVault (tenantId : TenantId)
| Returned (connection : Held Connection)
| Thrown (e : error).

Definition resume (creds : result (jsstring * jsstring)) (c : Call) (s : State)
    : Call * State :=
  match c with
  | Entered t =>
      match property (connections s) t with
      | Some held => (Returned held, s)
      | None => (AwaitingVault t, s)
      end
  | AwaitingVault t =>
      match creds with
      | Err e => (Thrown e, s)
      | Ok (mongoUsername, mongoPassword) =>
          let connection :=
            {| serial := length (created s);
               dbName := ("tenant-" ++ t)%string;
               username := mongoUsername;
               password := mongoPassword |} in
          (Returned (Own connection),
           {| connections := <[t := connection]> (connections s);
              modelCache := modelCache s;
              initializedTenants := initializedTenants s;
              created := created s ++ [connection] |})
      end
  | Returned connection => (Returned connection, s)
  | Thrown e => (Thrown e, s)
  end.

(** A schedule names, turn after turn, the call that runs. *)
Fixpoint interleave (creds : result (jsstring * jsstring)) (schedule : list nat)
    (calls : list Call) (s : State) : list Call * State :=
  match schedule with
  | [] => (calls, s)
  | i :: rest =>
      match calls !! i with
      | Some c =>
          let '(c', s') := resume creds c s in
          interleave creds rest (<[i := c']> calls) s'
      | None => interleave creds rest calls s
      end
  end.

End Db.

(** ** Events on the tenants' databases

    A socket handler resolves the models of [socket.data.tenantId] and
    works on the database that their connection is to. [databases] holds
    the documents of each database of the cluster, by name; a database
    nothing was written to holds none. *)
Module Tenancy.
Import Engine.

Record World := {
  router : Db.State;
  databases : gmap string Store
}.

Definition no_documents : Store := {| messages := []; chats := []; users := [] |}.

Definition database (name : string) (w : World) : Store :=
  default no_documents (databases w !! name).

(** Each tenant's database holds only documents tagged for that tenant. *)
Definition isolated (w : World) : Prop :=
  forall t, tagged t (database ("tenant-" ++ t) w).

Section Events.
Context {bson : Bson}.
Context (iam : ObjectId -> TenantId -> string -> option IUser).

(** An event received on a socket. Every handler starts with
    [getTenantModels(socket.data.tenantId)]: when that throws, or hands on
    models that are [undefined], the handler ends in its [catch] before any
    query, and the [catch] logs. The calls of [getTenantModels] that follow
    in the same handler find the tenant initialized and its models cached.
    [creds] is what the key vault answers if it is asked. *)
Definition onEvent (creds : result (jsstring * jsstring)) (socket : Socket.t)
    (others : list Socket.t) (now : Date) (newId : ObjectId) (r : Request) (w : World)
    : World * list emit :=
  match Db.socketGetTenantModels creds (Socket.tenantId socket) (router w) with
  | (Ok (Some models), s) =>
      let name := Db.dbName (Db.connection models) in
      let '(st', events) := handle iam socket others now newId r (database name w) in
      ({| router := s; databases := <[name := st']> (databases w) |}, events)
  | (_, s) => ({| router := s; databases := databases w |}, [])
  end.

End Events.

End Tenancy.

(** ** The user cache ([UserCacheService])

    An in-process map from ["user_" + id] to the user and the time it was
    stored. Times are milliseconds since the epoch, which is what
    [toISOString] keeps and [getTime] gives back. [now] is the time of the
    validity test, [fetchedAt] the time at which a fetched user is stored. *)
Module UserCache.
Import Engine.

Record CacheEntry := { data : IUser; updatedAt : N }.

Definition CACHE_TTL : Z := 5 * 60 * 1000.

Definition cacheKey (userId : ObjectId) : string := "user_" ++ userId.

Definition isCacheValid (now : N) (entry : CacheEntry) : bool :=
  (Z.of_N now - Z.of_N (updatedAt entry) <? CACHE_TTL)%Z.

Section Service.
(** [iamService.getUserById] and [getUsersByIds]: [Err] when they throw. *)
Context (getUserById : ObjectId -> TenantId -> result (option IUser)).
Context (getUsersByIds : list ObjectId -> TenantId -> result (list IUser)).

Definition cached (now : N) (userId : ObjectId) (c : gmap string CacheEntry) : option IUser :=
  match c !! cacheKey userId with
  | Some entry => if isCacheValid now entry then Some (data entry) else None
  | None => None
  end.

Definition getUser (now fetchedAt : N) (userId : ObjectId) (tenantId : TenantId)
    (c : gmap string CacheEntry) : result (option IUser) * gmap string CacheEntry :=
  match cached now userId c with
  | Some user => (Ok (Some user), c)
  | None =>
      match getUserById userId tenantId with
      | Err e => (Err e, c)
      | Ok None => (Ok None, c)
      | Ok (Some user) =>
          (Ok (Some user), <[cacheKey userId := {| data := user; updatedAt := fetchedAt |}]> c)
      end
  end.

Definition getUsers (now fetchedAt : N) (userIds : list ObjectId) (tenantId : TenantId)
    (c : gmap string CacheEntry) : result (list IUser) * gmap string CacheEntry :=
  let cachedUsers := omap (fun userId => cached now userId c) userIds in
  let missingUserIds :=
    List.filter (fun userId => negb (bool_decide (is_Some (cached now userId c)))) userIds in
  match missingUserIds with
  | [] => (Ok cachedUsers, c)
  | _ =>
      match getUsersByIds missingUserIds tenantId with
      | Err e => (Err e, c)
      | Ok fetchedUsers =>
          (Ok (cachedUsers ++ fetchedUsers),
           fold_left (fun c user =>
                        <[cacheKey (iam_id user) := {| data := user; updatedAt := fetchedAt |}]> c)
             fetchedUsers c)
      end
  end.

End Service.

End UserCache.

(** ** The socket middleware (socketManager: [validateSocketAuth],
       [socketTenantMiddleware])

    What a connecting socket brings: [socket.data.token], and of the
    handshake [auth.token] and the [authorization] header. *)
Module SocketAuth.
Import Engine.

Record Handshake := {
  data_token : option string;
  auth_token : option string;
  authorization : option string
}.

(** What the identity service decodes from a token. *)
Record Decoded := {
  decoded_userId : string;
  decoded_tenantId : option string
}.

Fixpoint until_space (s : string) : string :=
  match s with
  | EmptyString => EmptyString
  | String c rest => if Ascii.eqb c " " then EmptyString else String c (until_space rest)
  end.

(** [s.split(' ')[1]]: what stands between the first and the second
    space; nothing when [s] has no space. *)
Fixpoint split_1 (s : string) : option string :=
  match s with
  | EmptyString => None
  | String c rest => if Ascii.eqb c " " then Some (until_space rest) else split_1 rest
  end.

Inductive Outcome :=
| Accepted (socket : Socket.t)                 (* next() *)
| AuthenticationFailed                         (* next(new Error("Authentication failed")) *)
| TenantIdRequired                             (* "Tenant ID is required" *)
| DatabaseConnectionFailed.                    (* "Database connection failed for tenant ..." *)

Section Middleware.
(** [verifyToken]: [{ valid, decoded }], or [Err] when it throws. *)
Context (verifyToken : string -> result (bool * option Decoded)).

(** [None] is [false]; otherwise the token and what it decodes to. *)
Definition validateSocketAuth (h : Handshake) : option (string * Decoded) :=
  let token :=
    match Presence.given (data_token h) with
    | Some token => Some token
    | None =>
        match Presence.given (Presence.or_else (auth_token h) (authorization h)) with
        | None => None                             (* No token provided *)
        | Some authHeader =>
            if String.prefix "Bearer " authHeader
            then Presence.given (split_1 authHeader)
            else None                              (* Invalid token format *)
        end
    end in
  match token with
  | None => None
  | Some token =>
      match verifyToken token with
      | Ok (true, Some decoded) => Some (token, decoded)
      | _ => None
      end
  end.

(** [id] is the socket's id; a socket that connects is in no room. *)
Definition socketTenantMiddleware (creds : result (jsstring * jsstring)) (id : SocketId)
    (h : Handshake) (s : Db.State) : Outcome * Db.State :=
  match validateSocketAuth h with
  | None => (AuthenticationFailed, s)
  | Some (token, decoded) =>
      match Presence.given (decoded_tenantId decoded) with
      | None => (TenantIdRequired, s)
      | Some tenantId =>
          match Db.ensureTenantDatabaseExists creds tenantId s with
          | (false, s) => (DatabaseConnectionFailed, s)
          | (true, s) =>
              (Accepted (Socket.mk id (decoded_userId decoded) tenantId (Some token) []), s)
          end
      end
  end.

End Middleware.

End SocketAuth.

(** ** Permissions ([src/middleware/authMiddleware.ts]: [checkPermission])

    A role's permissions are a forest of modules; each module may carry a
    key, a list of actions under one of two names, and submodules. *)
Module Permissions.

Record Action := { name : string; status : bool }.

#[local] Unset Elimination Schemes.
Inductive PModule :=
| Mod (module_key submodule_key : option string)
      (allowed_actions actions : option (list Action))
      (submodules : list PModule).
#[local] Set Elimination Schemes.

(** [mod.module_key || mod.submodule_key] *)
Definition key_of (m : PModule) : option string :=
  match m with
  | Mod module_key submodule_key _ _ _ =>
      Presence.or_else module_key submodule_key
  end.

(** [mod.allowed_actions || mod.actions || []]: an array, even empty, is
    truthy. *)
Definition actions_of (m : PModule) : list Action :=
  match m with
  | Mod _ _ (Some allowed_actions) _ _ => allowed_actions
  | Mod _ _ None (Some actions) _ => actions
  | Mod _ _ None None _ => []
  end.

(** [helper] of [flattenPermissionsToMap], for one module: the module is
    written under its key, then its submodules are visited. *)
Fixpoint visit (m : PModule) (map : gmap string PModule) : gmap string PModule :=
  match m with
  | Mod _ _ _ _ submodules =>
      let map :=
        match Presence.given (key_of m) with
        | Some key => <[key := m]> map
        | None => map
        end in
      fold_left (fun map sub => visit sub map) submodules map
  end.

Definition flattenPermissionsToMap (modules : list PModule) : gmap string PModule :=
  fold_left (fun map m => visit m map) modules ∅.

Definition checkPermissionInMap (map : gmap string PModule) (keyOrName action : string)
    : bool * bool :=
  match map !! keyOrName with
  | None => (false, false)
  | Some m =>
      let actions := actions_of m in
      (existsb (fun a => bool_decide (name a = "Full Access") && status a) actions,
       existsb (fun a => bool_decide (name a = action) && status a) actions)
  end.

(** [permissions] is [req.user.permissions] when it is an array. The
    answer is [true] for [next()] and [false] for 403. *)
Definition checkPermission (moduleKeyOrName actionName : string)
    (permissions : option (list PModule)) : bool :=
  match permissions with
  | None => false
  | Some permissions =>
      let '(hasFull, hasAction) :=
        checkPermissionInMap (flattenPermissionsToMap permissions) moduleKeyOrName
          actionName in
      hasFull || hasAction
  end.

(** The modules of a forest in the order [helper] visits them. *)
Fixpoint preorder (m : PModule) : list PModule :=
  match m with
  | Mod _ _ _ _ submodules => m :: flat_map preorder submodules
  end.

(** The module carries the key. *)
Definition has_key (k : string) (m : PModule) : bool :=
  bool_decide (Presence.given (key_of m) = Some k).

End Permissions.

(** ** The HTTP authentication middleware
       ([src/middleware/authMiddleware.ts]: [authMiddleware])

    [decoded.userId] and [decoded.tenantId] are taken to be strings. The
    database of the effective tenant is ensured and the user is looked up
    side by side; each leaves its effect whatever becomes of the other. *)
Module HttpAuth.
Import Engine.

Record Decoded := {
  decoded_userId : string;
  decoded_tenantId : string
}.

(** What [verifyToken] answers: [valid], [decoded] and
    [userTenant.hasAccess], the last two possibly missing. *)
Record TokenResponse := {
  valid : bool;
  decoded : option Decoded;
  userTenant_hasAccess : option bool
}.

Record Headers := {
  authorization : option string;
  x_tenant_id : option string;
  x_context_id : option string
}.

(** What the middleware leaves on the request. *)
Record AuthenticatedRequest := {
  req_userId : string;
  req_tenantId : string;
  req_contextTenantId : string;
  req_tenantDomain : option string
}.

Inductive Outcome :=
| Next (req : AuthenticatedRequest)
| Unauthorized                    (* 401 "Unauthorized request. Please login to continue. " *)
| NoAccessToTenant                (* 401 "User does not have access to this tenant. " *)
| DatabaseConnectionFailed        (* 500 "Database connection failed" *)
| UserNotFound                    (* 401 "User not found" *)
| AuthenticationFailed.           (* 401 "Authentication failed", from the catch *)

Section Middleware.
Context (verifyToken : string -> result TokenResponse).
Context (getUserById : ObjectId -> TenantId -> result (option IUser)).

Definition authMiddleware (creds : result (jsstring * jsstring)) (now fetchedAt : N)
    (headers : Headers) (s : Db.State) (c : gmap string UserCache.CacheEntry)
    : Outcome * Db.State * gmap string UserCache.CacheEntry :=
  match Presence.given (authorization headers) with
  | None => (Unauthorized, s, c)
  | Some authHeader =>
      if negb (String.prefix "Bearer " authHeader) then (Unauthorized, s, c)
      else
        match SocketAuth.split_1 authHeader with
        | None => (AuthenticationFailed, s, c)   (* not reached: there is a space *)
        | Some token =>
            match verifyToken token with
            | Err _ => (AuthenticationFailed, s, c)
            | Ok response =>
                match valid response, decoded response with
                | true, Some decoded =>
                    match userTenant_hasAccess response with
                    | None => (AuthenticationFailed, s, c)   (* userTenant is undefined *)
                    | Some false => (NoAccessToTenant, s, c)
                    | Some true =>
                        let effectiveTenantId :=
                          match Presence.given (x_context_id headers) with
                          | Some contextTenantHeader => contextTenantHeader
                          | None => decoded_tenantId decoded
                          end in
                        let '(dbConnection, s) :=
                          Db.ensureTenantDatabaseExists creds effectiveTenantId s in
                        let '(cachedUser, c) :=
                          UserCache.getUser getUserById now fetchedAt (decoded_userId decoded)
                            (decoded_tenantId decoded) c in
                        match cachedUser with
                        | Err _ => (AuthenticationFailed, s, c)
                        | Ok cachedUser =>
                            if negb dbConnection then (DatabaseConnectionFailed, s, c)
                            else
                              match cachedUser with
                              | None => (UserNotFound, s, c)
                              | Some _ =>
                                  (Next {| req_userId := decoded_userId decoded;
                                           req_tenantId := decoded_tenantId decoded;
                                           req_contextTenantId :=
                                             default "" (Presence.given (x_context_id headers));
                                           req_tenantDomain := x_tenant_id headers |},
                                   s, c)
                              end
                        end
                    end
                | _, _ => (Unauthorized, s, c)
                end
            end
        end
  end.

End Middleware.

End HttpAuth.

(** ** More to run the code on

    The chat of Alice and Bob again, as the presence handlers see it:
    Alice has a record and no socket, Bob is connected. *)
Module Examples.
Import Engine.

Definition alice_record : Presence.User.t :=
  Presence.User.mk Demo.alice_id [] false "Online".
Definition bob_record : Presence.User.t :=
  Presence.User.mk Demo.bob_id ["sb"] true "Away".

Definition presence : Presence.State :=
  {| Presence.users := [alice_record; bob_record]; Presence.chats := [Demo.chat] |}.

(** Alice's socket as it connects, in no room yet; and the socket of
    someone who has no record. *)
Definition alice_connecting : Socket.t :=
  Socket.mk "sa" Demo.alice_id "t1" (Some "token") [].
Definition carol_connecting : Socket.t :=
  Socket.mk "sc" Demo.carol_id "t1" (Some "token") [].

(** The demo database with no reaction on any message. *)
Definition reactions : Reactions.State :=
  {| Reactions.store := Demo.st; Reactions.reactions := ∅ |}.

(** "hello" as the toy platform encrypts it under the demo secrets. *)
Definition hello_ciphertext : jsstring := js "68656c6c6fa0a0a0a0a0a0a0a0a0a0a0a0a0a0a0a0".

Definition plain_doc : Repo.doc :=
  Repo.Doc (js "m1") (js "t1") None (Some (js "hello")).

(** An identity service that knows one token, Alice's. *)
Definition verify_socket (token : string) : result (bool * option SocketAuth.Decoded) :=
  if bool_decide (token = "good")
  then Ok (true, Some {| SocketAuth.decoded_userId := Demo.alice_id;
                         SocketAuth.decoded_tenantId := Some "t1" |})
  else Ok (false, None).

Definition verify_http (token : string) : result HttpAuth.TokenResponse :=
  if bool_decide (token = "good")
  then Ok {| HttpAuth.valid := true;
             HttpAuth.decoded := Some {| HttpAuth.decoded_userId := Demo.alice_id;
                                         HttpAuth.decoded_tenantId := "t1" |};
             HttpAuth.userTenant_hasAccess := Some true |}
  else Ok {| HttpAuth.valid := false; HttpAuth.decoded := None;
             HttpAuth.userTenant_hasAccess := None |}.

Definition getUserById (userId : ObjectId) (tenantId : TenantId) : result (option IUser) :=
  Ok (Demo.iam userId tenantId "").

Definition credentials : result (jsstring * jsstring) := Ok (js "chat", js "secret").

(** A token whose tenant is named as a member of [Object.prototype] is. *)
Definition verify_socket_constructor (token : string)
    : result (bool * option SocketAuth.Decoded) :=
  Ok (true, Some {| SocketAuth.decoded_userId := Demo.alice_id;
                    SocketAuth.decoded_tenantId := Some "constructor" |}).

(** The key vault cannot be read. *)
Definition vault_down : result (jsstring * jsstring) := Err DatabaseUnavailable.

(** Two tenants whose sockets have been served, each database with its
    documents. *)
Definition world : Tenancy.World :=
  {| Tenancy.router :=
       Db.after [Db.SocketGetTenantModels credentials "t1";
                 Db.SocketGetTenantModels credentials "t2"];
     Tenancy.databases := <["tenant-t1" := Demo.st]> (<["tenant-t2" := Demo.st2]> ∅) |}.

End Examples.

(** * Theorems *)

Module HexFacts.

Lemma byte_digits (b : byte) :
  exists h l, Hex.value (Hex.digit (Byte.to_N b / 16)) = Some h /\
              Hex.value (Hex.digit (Byte.to_N b mod 16)) = Some l /\
              byte_of_N (16 * h + l) = b.
Proof. destruct b; vm_compute; eauto. Qed.

Lemma hex_decode_encode (bs : buffer) : Hex.decode (Hex.encode bs) = bs.
Proof.
  induction bs as [|b bs IH]; [reflexivity|].
  destruct (byte_digits b) as (h & l & Hh & Hl & Hb).
  cbn [Hex.encode flat_map app Hex.decode].
  rewrite Hh, Hl, Hb. f_equal. exact IH.
Qed.

End HexFacts.

Module Utf8Facts.
Import Utf8.

Ltac Zify.zify_post_hook ::= Z.to_euclidean_division_equations.

Lemma to_N_byte_of_N n : n < 256 -> Byte.to_N (byte_of_N n) = n.
Proof.
  intros H. unfold byte_of_N.
  destruct (Byte.of_N n) as [b|] eqn:E.
  - now apply Byte.to_of_N.
  - apply Byte.of_N_None_iff in E. lia.
Qed.

Lemma encode_cp_bytes cp : scalar cp -> Forall (fun n => n < 256) (encode_cp cp).
Proof.
  intros [H1 H2]. unfold encode_cp.
  repeat match goal with
  | |- context [?a <? ?b] => destruct (N.ltb_spec a b)
  end; repeat constructor; lia.
Qed.

Ltac decide_tests :=
  repeat match goal with
  | |- context [?a <=? ?b] =>
      first [ replace (a <=? b) with true by (symmetry; apply N.leb_le; lia)
            | replace (a <=? b) with false by (symmetry; apply N.leb_gt; lia) ]
  | |- context [?a <? ?b] =>
      first [ replace (a <? b) with true by (symmetry; apply N.ltb_lt; lia)
            | replace (a <? b) with false by (symmetry; apply N.ltb_ge; lia) ]
  end; cbn [andb orb negb].

Ltac run_decoder :=
  cbn [app decode_from step needed lower upper acc idle];
  unfold start; decide_tests; cbv beta iota zeta.

Lemma decode_cp cp rest :
  scalar cp ->
  decode_from idle (encode_cp cp ++ rest) = units cp ++ decode_from idle rest.
Proof.
  intros [H1 H2]. unfold encode_cp.
  destruct (N.ltb_spec cp 0x80); [|destruct (N.ltb_spec cp 0x800); [|destruct (N.ltb_spec cp 0x10000)]].
  - run_decoder. unfold units. decide_tests. reflexivity.
  - do 2 run_decoder. cbn [app]. do 2 f_equal. lia.
  - run_decoder.
    destruct (N.eqb_spec (0xE0 + cp / 4096) 0xE0), (N.eqb_spec (0xE0 + cp / 4096) 0xED);
      try lia; do 2 run_decoder; cbn [app]; do 2 f_equal; lia.
  - run_decoder.
    destruct (N.eqb_spec (0xF0 + cp / 262144) 0xF0), (N.eqb_spec (0xF0 + cp / 262144) 0xF4);
      try lia; do 3 run_decoder; cbn [app]; do 2 f_equal; lia.
Qed.

Lemma units_pair u v :
  is_high u = true -> is_low v = true ->
  scalar (0x10000 + (u - 0xD800) * 1024 + (v - 0xDC00)) /\
  units (0x10000 + (u - 0xD800) * 1024 + (v - 0xDC00)) = [u; v].
Proof.
  unfold is_high, is_low, scalar, units.
  intros [Hu1 Hu2]%andb_true_iff [Hv1 Hv2]%andb_true_iff.
  apply N.leb_le in Hu1, Hu2, Hv1, Hv2.
  split; [lia|]. decide_tests. f_equal; [|f_equal]; lia.
Qed.

Lemma units_bmp u :
  is_high u = false -> is_low u = false -> (u <? 0x10000) = true ->
  scalar u /\ units u = [u].
Proof.
  unfold is_high, is_low, scalar, units. intros Hh Hl Hu. rewrite Hu.
  apply N.ltb_lt in Hu. split; [|reflexivity].
  apply andb_false_iff in Hh, Hl. rewrite !N.leb_gt in Hh, Hl. lia.
Qed.

Lemma code_points_well_formed s :
  well_formed s = true ->
  Forall scalar (code_points s) /\ flat_map units (code_points s) = s.
Proof.
  remember (length s) as n eqn:Hn. revert s Hn.
  induction n as [n IH] using lt_wf_ind. intros s -> Hwf.
  destruct s as [|u rest]; [split; [constructor|reflexivity]|].
  cbn [well_formed code_points] in *.
  destruct (is_high u) eqn:Hh.
  - destruct rest as [|v rest']; [discriminate|].
    apply andb_true_iff in Hwf as [Hv Hwf]. rewrite Hv.
    destruct (units_pair u v Hh Hv) as [Hs Hu].
    destruct (IH (length rest')) with (s := rest') as [IH1 IH2]; [cbn; lia|reflexivity|exact Hwf|].
    split; [constructor; assumption|].
    cbn [flat_map]. rewrite Hu, IH2. reflexivity.
  - destruct (is_low u) eqn:Hl; [discriminate|].
    apply andb_true_iff in Hwf as [Hu Hwf].
    destruct (units_bmp u Hh Hl Hu) as [Hs Hu'].
    destruct (IH (length rest)) with (s := rest) as [IH1 IH2]; [cbn; lia|reflexivity|exact Hwf|].
    split; [constructor; assumption|].
    cbn [flat_map]. rewrite Hu', IH2. reflexivity.
Qed.

Lemma decode_code_points cps :
  Forall scalar cps ->
  decode_from idle (map Byte.to_N (map byte_of_N (flat_map encode_cp cps))) = flat_map units cps.
Proof.
  induction 1 as [|cp cps Hcp _ IH]; [reflexivity|].
  cbn [flat_map]. rewrite !map_app.
  replace (map Byte.to_N (map byte_of_N (encode_cp cp))) with (encode_cp cp).
  - rewrite decode_cp by assumption. now rewrite IH.
  - pose proof (encode_cp_bytes cp Hcp) as Hb.
    induction Hb as [|b bs Hb _ IHb]; [reflexivity|].
    cbn [map]. rewrite to_N_byte_of_N by assumption. now rewrite <- IHb.
Qed.

(** Decoding the UTF-8 encoding of a well-formed string gives it back. *)
Lemma utf8_decode_encode s : well_formed s = true -> decode (encode s) = s.
Proof.
  intros [Hs Hu]%code_points_well_formed.
  unfold decode, encode. now rewrite decode_code_points.
Qed.

Lemma code_points_cons u rest :
  code_points (u :: rest) =
    if is_high u then
      match rest with
      | v :: rest' =>
          if is_low v
          then (0x10000 + (u - 0xD800) * 1024 + (v - 0xDC00)) :: code_points rest'
          else 0xFFFD :: code_points rest
      | [] => [0xFFFD]
      end
    else if is_low u then 0xFFFD :: code_points rest
    else u :: code_points rest.
Proof. destruct rest; reflexivity. Qed.

Lemma toWellFormed_cons u rest :
  toWellFormed (u :: rest) =
    if is_high u then
      match rest with
      | v :: rest' =>
          if is_low v then u :: v :: toWellFormed rest'
          else 0xFFFD :: toWellFormed rest
      | [] => [0xFFFD]
      end
    else if is_low u then 0xFFFD :: toWellFormed rest
    else u :: toWellFormed rest.
Proof. destruct rest; reflexivity. Qed.

Lemma well_formed_cons u rest :
  well_formed (u :: rest) =
    if is_high u then
      match rest with
      | v :: rest' => is_low v && well_formed rest'
      | [] => false
      end
    else if is_low u then false
    else (u <? 0x10000) && well_formed rest.
Proof. reflexivity. Qed.

Lemma scalar_replacement : scalar 0xFFFD.
Proof. unfold scalar. lia. Qed.

(** The code points read from a JavaScript string are scalar values, and
    written back as code units they are the string made well formed. *)
Lemma code_points_toWellFormed s :
  Forall (fun u => u < 65536) s ->
  Forall scalar (code_points s) /\ flat_map units (code_points s) = toWellFormed s.
Proof.
  remember (length s) as n eqn:Hn. revert s Hn.
  induction n as [n IH] using lt_wf_ind. intros s -> Hs.
  destruct s as [|u rest]; [split; [constructor|reflexivity]|].
  apply Forall_cons in Hs as [Hu Hrest].
  destruct (IH (length rest)) with (s := rest) as [IH1 IH2];
    [cbn; lia|reflexivity|exact Hrest|].
  rewrite code_points_cons, toWellFormed_cons.
  destruct (is_high u) eqn:Hh.
  - destruct rest as [|v rest'].
    + split; [constructor; [exact scalar_replacement|constructor]|reflexivity].
    + destruct (is_low v) eqn:Hv.
      * apply Forall_cons in Hrest as [_ Hrest'].
        destruct (IH (length rest')) with (s := rest') as [IH1' IH2'];
          [cbn; lia|reflexivity|exact Hrest'|].
        destruct (units_pair u v Hh Hv) as [Hs Hp].
        split; [constructor; assumption|].
        cbn [flat_map]. rewrite Hp, IH2'. reflexivity.
      * split; [constructor; [exact scalar_replacement|exact IH1]|].
        cbn [flat_map]. rewrite IH2. reflexivity.
  - destruct (is_low u) eqn:Hl.
    + split; [constructor; [exact scalar_replacement|exact IH1]|].
      cbn [flat_map]. rewrite IH2. reflexivity.
    + destruct (units_bmp u Hh Hl) as [Hs Hu']; [apply N.ltb_lt; exact Hu|].
      split; [constructor; assumption|].
      cbn [flat_map]. rewrite Hu', IH2. reflexivity.
Qed.

(** Decoding the UTF-8 encoding of a JavaScript string gives the string
    made well formed. *)
Lemma decode_encode_toWellFormed s :
  Forall (fun u => u < 65536) s -> decode (encode s) = toWellFormed s.
Proof.
  intros [Hs Hu]%code_points_toWellFormed.
  unfold decode, encode. now rewrite decode_code_points.
Qed.

(** Making a string well formed changes it exactly when it is not. *)
Lemma toWellFormed_fixed s :
  Forall (fun u => u < 65536) s -> (toWellFormed s = s <-> well_formed s = true).
Proof.
  remember (length s) as n eqn:Hn. revert s Hn.
  induction n as [n IH] using lt_wf_ind. intros s -> Hs.
  destruct s as [|u rest]; [split; reflexivity|].
  apply Forall_cons in Hs as [Hu Hrest].
  pose proof (IH (length rest) ltac:(cbn; lia) rest eq_refl Hrest) as IHrest.
  rewrite toWellFormed_cons, well_formed_cons.
  assert (Hhigh : is_high u = true -> u <> 0xFFFD).
  { unfold is_high. intros [_ H]%andb_true_iff. apply N.leb_le in H. lia. }
  assert (Hlow : is_low u = true -> u <> 0xFFFD).
  { unfold is_low. intros [_ H]%andb_true_iff. apply N.leb_le in H. lia. }
  destruct (is_high u) eqn:Hh.
  - destruct rest as [|v rest'].
    + split; [intros [= E]; now destruct (Hhigh eq_refl)|discriminate].
    + destruct (is_low v) eqn:Hv.
      * apply Forall_cons in Hrest as [_ Hrest'].
        pose proof (IH (length rest') ltac:(cbn; lia) rest' eq_refl Hrest') as IH'.
        cbn [andb]. rewrite <- IH'. split; [intros [= E]; exact E|intros ->; reflexivity].
      * cbn [andb]. split; [intros [= E]; now destruct (Hhigh eq_refl)|discriminate].
  - destruct (is_low u) eqn:Hl.
    + split; [intros [= E]; now destruct (Hlow eq_refl)|discriminate].
    + replace (u <? 0x10000) with true by (symmetry; apply N.ltb_lt; exact Hu).
      cbn [andb]. rewrite <- IHrest. split; [intros [= E]; exact E|intros ->; reflexivity].
Qed.

(** A lone surrogate comes back as U+FFFD. *)
Lemma decode_encode_lone_surrogate : decode (encode [0xD800]) = [0xFFFD].
Proof. vm_compute. reflexivity. Qed.

End Utf8Facts.

Module CryptoFacts.
Import Crypto.

Lemma deriveKey_consistent P password salt c key :
  PlatformLaws P ->
  kdf_consistent P password salt c ->
  argon2id P password (Hex.decode salt) = Some key ->
  exists c', deriveKey P password salt c = (Ok key, c').
Proof.
  intros L Hc Hk. unfold deriveKey, mbind, io_bind, cache_get.
  destruct (usable (c !! _)) as [v|] eqn:Hv.
  - destruct (Hc v Hv) as (key' & Hk' & ->).
    rewrite Hk in Hk'. injection Hk' as <-.
    rewrite (base64_inverse P L). eexists. reflexivity.
  - rewrite Hk. eexists. reflexivity.
Qed.

Lemma deriveKey_inv P password salt c c' key :
  PlatformLaws P ->
  kdf_consistent P password salt c ->
  deriveKey P password salt c = (Ok key, c') ->
  argon2id P password (Hex.decode salt) = Some key.
Proof.
  intros L Hc. unfold deriveKey, mbind, io_bind, cache_get.
  destruct (usable (c !! _)) as [v|] eqn:Hv.
  - destruct (Hc v Hv) as (key' & Hk' & ->).
    rewrite (base64_inverse P L). now intros [= <- _].
  - destruct (argon2id P password (Hex.decode salt)); [|discriminate].
    now intros [= <- _].
Qed.

Lemma encrypt_succeeds P p salt nonce password c :
  PlatformLaws P ->
  kdf_consistent P password salt c ->
  length (Hex.decode nonce) = 24%nat ->
  is_Some (argon2id P password (Hex.decode salt)) ->
  exists ct c', encryptDataWithNonce P p salt nonce password c = (Ok ct, c').
Proof.
  intros L Hc Hn [key Hk].
  destruct (deriveKey_consistent P password salt c key L Hc Hk) as [c' Hd].
  destruct (aead_accepts P L (Utf8.encode p) (Hex.decode nonce) key Hn
              (argon2id_length P L _ _ _ Hk)) as [ct Hct].
  exists (Hex.encode ct), c'.
  unfold encryptDataWithNonce, mbind, io_bind. now rewrite Hd, Hct.
Qed.

(** Whatever the plaintext, decrypting what encryption returned gives the
    UTF-8 decoding of the plaintext's UTF-8 encoding. *)
Lemma decrypt_encrypted P p salt nonce password cacheKey c1 c1' c2 ct :
  PlatformLaws P ->
  kdf_consistent P password salt c1 ->
  kdf_consistent P password salt c2 ->
  cache_miss cacheKey c2 ->
  encryptDataWithNonce P p salt nonce password c1 = (Ok ct, c1') ->
  exists c2',
    decryptDataWithNonce P ct nonce salt password cacheKey c2
      = (Ok (Utf8.decode (Utf8.encode p)), c2').
Proof.
  intros L Hc1 Hc2 Hmiss. unfold encryptDataWithNonce, mbind, io_bind.
  destruct (deriveKey P password salt c1) as [[key|e] c] eqn:Hd1; [|discriminate].
  destruct (aead_encrypt P (Utf8.encode p) (Hex.decode nonce) key) as [ct0|] eqn:Hct;
    [|discriminate].
  intros [= <- <-].
  pose proof (deriveKey_inv P password salt c1 c key L Hc1 Hd1) as Hk.
  destruct (deriveKey_consistent P password salt c2 key L Hc2 Hk) as [c2' Hd2].
  assert (Hlen : (length ct0 <? ABYTES)%nat = false).
  { apply Nat.ltb_ge. rewrite (aead_length P L _ _ _ _ Hct). lia. }
  unfold decryptDataWithNonce, mbind, io_bind.
  destruct (usable cacheKey) as [k|] eqn:Hkey.
  - unfold cache_get at 1. rewrite (Hmiss k Hkey), Hd2.
    rewrite HexFacts.hex_decode_encode, Hlen, (aead_inverse P L _ _ _ _ Hct).
    eexists. reflexivity.
  - cbn [mret io_ret usable]. rewrite Hd2.
    rewrite HexFacts.hex_decode_encode, Hlen, (aead_inverse P L _ _ _ _ Hct).
    eexists. reflexivity.
Qed.

Lemma toy_laws : PlatformLaws toy.
Proof.
  split; cbn.
  - intros m n k c. unfold toy_encrypt, toy_decrypt.
    destruct (_ && _)%bool; [|discriminate]. intros [= <-].
    assert (Hlen : (length (m ++ toy_tag k) - ABYTES)%nat = length m).
    { rewrite length_app. unfold toy_tag. rewrite length_replicate. lia. }
    rewrite Hlen, take_app_length. now rewrite bool_decide_eq_true_2.
  - intros m n k c. unfold toy_encrypt.
    destruct (_ && _)%bool; [|discriminate]. intros [= <-].
    rewrite length_app. unfold toy_tag. now rewrite length_replicate.
  - intros m n k Hn Hk. unfold toy_encrypt. rewrite Hn, Hk. cbn. eauto.
  - intros pw salt k. case_match; [discriminate|]. now intros [= <-].
  - apply HexFacts.hex_decode_encode.
Qed.

Lemma kdf_consistent_empty P password salt : kdf_consistent P password salt ∅.
Proof. intros v. rewrite lookup_empty. discriminate. Qed.

Lemma cache_miss_empty cacheKey : cache_miss cacheKey ∅.
Proof. intros k _. now rewrite lookup_empty. Qed.

(** C3 (as amended). Take any plaintext (a JavaScript string of any
    length, 0 to 5000 included) and any salt, nonce and password. Whenever
    encryption returns a ciphertext, decrypting it under the same salt,
    nonce and password returns the plaintext made well formed, that is with
    each surrogate code unit that is not part of a pair replaced by U+FFFD:
    exactly the plaintext when each of its surrogates is part of a pair,
    and another string when one is not. Encryption does return a
    ciphertext when the nonce has 24 bytes and the key derivation accepts
    the salt and password. This holds of caches such that each call finds
    under the key-derivation entry nothing usable or the derived key, and
    the decryption finds nothing usable under its own cache key; the
    caches of the two calls may differ. *)
Theorem encrypt_decrypt_roundtrip P p salt nonce password cacheKey c1 c2 :
  PlatformLaws P ->
  Forall (fun u => u < 65536) p ->
  kdf_consistent P password salt c1 ->
  kdf_consistent P password salt c2 ->
  cache_miss cacheKey c2 ->
  (forall ct c1',
     encryptDataWithNonce P p salt nonce password c1 = (Ok ct, c1') ->
     exists c2',
       decryptDataWithNonce P ct nonce salt password cacheKey c2
         = (Ok (Utf8.toWellFormed p), c2')) /\
  (Utf8.toWellFormed p = p <-> Utf8.well_formed p = true) /\
  (length (Hex.decode nonce) = 24%nat ->
   is_Some (argon2id P password (Hex.decode salt)) ->
   exists ct c1', encryptDataWithNonce P p salt nonce password c1 = (Ok ct, c1')).
Proof.
  intros L Hp Hc1 Hc2 Hmiss. split; [|split].
  - intros ct c1' He.
    destruct (decrypt_encrypted P p salt nonce password cacheKey c1 c1' c2 ct
                L Hc1 Hc2 Hmiss He) as [c2' Hd].
    rewrite (Utf8Facts.decode_encode_toWellFormed p Hp) in Hd. eauto.
  - now apply Utf8Facts.toWellFormed_fixed.
  - intros Hn Hk. now apply encrypt_succeeds.
Qed.

Lemma encrypt_decrypt_roundtrip_witness :
  Forall (fun u => u < 65536) (js "hello") /\
  exists ct c1' c2',
    encryptDataWithNonce toy (js "hello") demo_salt demo_nonce demo_password ∅ = (Ok ct, c1') /\
    decryptDataWithNonce toy ct demo_nonce demo_salt demo_password None ∅ = (Ok (js "hello"), c2').
Proof.
  assert (Hp : Forall (fun u => u < 65536) (js "hello")) by (repeat constructor).
  split; [exact Hp|].
  destruct (encrypt_decrypt_roundtrip toy (js "hello") demo_salt demo_nonce demo_password
              None ∅ ∅ toy_laws Hp
              (kdf_consistent_empty _ _ _) (kdf_consistent_empty _ _ _) (cache_miss_empty _))
    as (Hdec & _ & Henc).
  destruct Henc as (ct & c1' & He); [reflexivity|vm_compute; eauto|].
  destruct (Hdec ct c1' He) as [c2' Hd]. eauto.
Defined.

(** C3 (as stated) fails: the one-unit plaintext made of the unpaired
    surrogate U+D800 is encrypted without error, and its ciphertext decrypts
    to U+FFFD. *)
Lemma roundtrip_lone_surrogate :
  exists ct c1' c2',
    (N.of_nat (length [0xD800]) <= 5000) /\
    encryptDataWithNonce toy [0xD800] demo_salt demo_nonce demo_password ∅ = (Ok ct, c1') /\
    decryptDataWithNonce toy ct demo_nonce demo_salt demo_password None ∅
      = (Ok [0xFFFD], c2') /\
    [0xFFFD] <> [0xD800].
Proof.
  destruct (encrypt_succeeds toy [0xD800] demo_salt demo_nonce demo_password ∅ toy_laws
              (kdf_consistent_empty _ _ _)) as (ct & c1' & He);
    [reflexivity|vm_compute; eauto|].
  destruct (decrypt_encrypted toy [0xD800] demo_salt demo_nonce demo_password None ∅ c1' ∅ ct
              toy_laws (kdf_consistent_empty _ _ _) (kdf_consistent_empty _ _ _)
              (cache_miss_empty _) He) as [c2' Hd].
  rewrite Utf8Facts.decode_encode_lone_surrogate in Hd.
  exists ct, c1', c2'. split; [|split; [exact He|split; [exact Hd|discriminate]]].
  cbn. lia.
Qed.

End CryptoFacts.

Module RepoFacts.
Import Crypto Repo.

Section Hooks.
Context (P : Platform) (vault : jsstring -> option secrets) (fieldName : jsstring).

(** The loop stops at the first document whose field does not decrypt. *)
Lemma decrypt_each_failure (s : secrets) before d after before' e c c1 c2 :
  decrypt_each P fieldName before s c = (Ok before', c1) ->
  decryptFields P fieldName d s c1 = (Err e, c2) ->
  decrypt_each P fieldName (before ++ d :: after) s c = (Err e, c2).
Proof.
  revert before' c. induction before as [|b before IH]; intros before' c Hb Hd.
  - cbn in Hb. injection Hb as <- <-.
    cbn [app decrypt_each]. unfold mbind, io_bind. now rewrite Hd.
  - cbn [app decrypt_each] in *. unfold mbind, io_bind in *.
    destruct (decryptFields P fieldName b s c) as [[b'|eb] cb]; [|discriminate].
    destruct (decrypt_each P fieldName before s cb) as [[rest'|er] cr] eqn:Hr; [|discriminate].
    cbn in Hb. injection Hb as <- <-.
    now rewrite (IH rest' cb Hr Hd).
Qed.

(** When the loop succeeds it returns as many documents as it was given. *)
Lemma decrypt_each_length (s : secrets) ds ds' c c' :
  decrypt_each P fieldName ds s c = (Ok ds', c') -> length ds' = length ds.
Proof.
  revert ds' c. induction ds as [|d ds IH]; intros ds' c H.
  - cbn in H. now injection H as <- <-.
  - cbn [decrypt_each] in H. unfold mbind, io_bind in H.
    destruct (decryptFields P fieldName d s c) as [[d'|e] cd]; [|discriminate].
    destruct (decrypt_each P fieldName ds s cd) as [[rest'|e] cr] eqn:Hr; [|discriminate].
    cbn in H. injection H as <- <-. cbn. f_equal. eauto.
Qed.

End Hooks.

(** C6 (as amended). With a tenant in the request context and its secrets
    at hand, when the documents before [d] decrypt and [d] does not, the
    hook answers the query with [d]'s error: the read is aborted and no
    batch is returned, whatever follows [d]. *)
Theorem post_find_aborts_on_failure P vault fieldName tenant s before d after before' e c c1 c2 :
  usable (Some tenant) = Some tenant ->
  vault tenant = Some s ->
  decrypt_each P fieldName before s c = (Ok before', c1) ->
  decryptFields P fieldName d s c1 = (Err e, c2) ->
  post_find P vault fieldName (Some tenant) (Array (before ++ d :: after)) c = (Err e, c2).
Proof.
  intros Ht Hs Hb Hd. unfold post_find. rewrite Ht, Hs.
  unfold mbind, io_bind.
  now rewrite (decrypt_each_failure P fieldName s before d after before' e c c1 c2 Hb Hd).
Qed.

Lemma good_doc_decrypts :
  fst (post_find toy demo_vault (js "body") (Some (js "t1")) (Array [good_doc]) ∅)
  = Ok (Array [Doc (js "m1") (js "t1") None (Some (js "hello"))]).
Proof. vm_compute. reflexivity. Qed.

Lemma post_find_aborts_on_failure_witness :
  fst (post_find toy demo_vault (js "body") (Some (js "t1"))
         (Array ([good_doc] ++ bad_doc :: [good_doc])) ∅)
  = Err DecryptionFailed.
Proof.
  erewrite (post_find_aborts_on_failure toy demo_vault (js "body") (js "t1") demo_secrets
              [good_doc] bad_doc [good_doc]).
  - reflexivity.
  - reflexivity.
  - reflexivity.
  - vm_compute. reflexivity.
  - vm_compute. reflexivity.
Defined.

(** C6 (as stated) fails: a batch of two documents of which the second
    does not decrypt is not returned; the query is answered with the error,
    although the first document alone decrypts. *)
Lemma batch_aborted_by_one_failure :
  fst (post_find toy demo_vault (js "body") (Some (js "t1")) (Array [good_doc]) ∅)
    = Ok (Array [Doc (js "m1") (js "t1") None (Some (js "hello"))]) /\
  fst (post_find toy demo_vault (js "body") (Some (js "t1")) (Array [good_doc; bad_doc]) ∅)
    = Err DecryptionFailed.
Proof. split; vm_compute; reflexivity. Qed.

End RepoFacts.

Module EngineFacts.
Import Engine.

(** *** The unread filter *)

Lemma not_deleted_for_spec u m :
  not_deleted_for u m = true <->
  Forall (fun d => DeletedFor.userId d <> u) (default [] (Message.deletedFor m)).
Proof.
  unfold not_deleted_for. destruct (Message.deletedFor m) as [ds|]; cbn [default from_option Datatypes.id].
  - rewrite orb_true_iff, negb_true_iff, bool_decide_eq_true.
    split.
    + intros [Hlen | Hnone].
      * destruct ds; [constructor | discriminate].
      * apply Forall_forall. intros d Hd Heq.
        assert (existsb (fun d => bool_decide (DeletedFor.userId d = u)) ds = true)
          as Hex; [|congruence].
        apply existsb_exists. exists d. split; [now apply list_elem_of_In|].
        now apply bool_decide_eq_true.
    + intros Hall. right.
      destruct (existsb _ ds) eqn:Hex; [|reflexivity].
      apply existsb_exists in Hex as (d & Hd & Heq).
      apply bool_decide_eq_true in Heq.
      rewrite Forall_forall in Hall. apply list_elem_of_In in Hd. now destruct (Hall d Hd).
  - split; [constructor | reflexivity].
Qed.

Lemma unread_spec c u t m :
  unread c u t m = true <-> spec_unread c u m /\ Message.tenantId m = t.
Proof.
  unfold unread, spec_unread.
  rewrite !andb_true_iff, !negb_true_iff, !bool_decide_eq_true, !bool_decide_eq_false.
  rewrite not_deleted_for_spec. tauto.
Qed.


(** The count for a tenant does not see a message tagged for another. *)
Lemma unread_count_ignores_other_tenants c u t1 t2 ms :
  t1 <> t2 ->
  length (List.filter (unread c u t1) ms)
  = length (List.filter (unread c u t1)
              (List.filter (fun m => negb (bool_decide (Message.tenantId m = t2))) ms)).
Proof.
  intros Hne. induction ms as [|m ms IH]; [reflexivity|].
  cbn [List.filter].
  destruct (unread c u t1 m) eqn:Hu.
  - apply unread_spec in Hu as Hu'. destruct Hu' as [_ Ht].
    rewrite bool_decide_eq_false_2 by congruence.
    cbn [negb List.filter]. rewrite Hu. cbn. now rewrite IH.
  - destruct (negb _); [cbn [List.filter]; rewrite Hu|]; exact IH.
Qed.

Lemma elem_of_to_sockets s p e :
  e ∈ to_sockets s p <-> exists sid, sid ∈ s /\ e = Emit sid p.
Proof.
  unfold to_sockets. rewrite list_elem_of_In, in_map_iff.
  setoid_rewrite <- list_elem_of_In.
  split; intros (sid & H1 & H2); exists sid; auto.
Qed.

Lemma elem_of_to_participants ps st p e :
  e ∈ to_participants ps st p <->
  exists participant user sid,
    participant ∈ ps /\ findUserById (ChatUser._id participant) st = Some user /\
    sid ∈ ChatUser.socketIds user /\ e = Emit sid (p participant).
Proof.
  unfold to_participants. rewrite list_elem_of_In, in_flat_map.
  setoid_rewrite <- list_elem_of_In.
  split.
  - intros (participant & Hp & He).
    destruct (findUserById _ st) as [user|] eqn:Hu.
    + apply elem_of_to_sockets in He as (sid & Hs & ->). eauto 10.
    + inversion He.
  - intros (participant & user & sid & Hp & Hu & Hs & ->).
    exists participant. split; [exact Hp|]. rewrite Hu.
    apply elem_of_to_sockets. eauto.
Qed.

(** *** Stores and tenant tags *)

Lemma find_elem_of {A} (f : A -> bool) (l : list A) x :
  find f l = Some x -> x ∈ l /\ f x = true.
Proof. intros H%find_some. now rewrite list_elem_of_In. Qed.

Lemma findMessageById_elem mid st m :
  findMessageById mid st = Some m -> m ∈ messages st /\ Message._id m = mid.
Proof.
  intros [H1 H2]%find_elem_of. now apply bool_decide_eq_true in H2.
Qed.

Lemma findMessageInChat_elem mid c t st m :
  findMessageInChat mid c t st = Some m ->
  m ∈ messages st /\ Message._id m = mid /\ Message.chatId m = c /\ Message.tenantId m = t.
Proof.
  intros [H1 H2]%find_elem_of.
  rewrite !andb_true_iff, !bool_decide_eq_true in H2. tauto.
Qed.

Lemma saveMessage_tagged t m st :
  tagged t st -> Message.tenantId m = t -> tagged t (saveMessage m st).
Proof.
  intros [Hm Hc] Ht. split; [|exact Hc]. cbn [saveMessage messages].
  rewrite Forall_forall in Hm |- *. intros m' Hin%list_elem_of_In.
  apply in_map_iff in Hin as (m0 & <- & Hin%list_elem_of_In).
  destruct (bool_decide _); auto.
Qed.

Lemma delete_first_subseteq mid ms : delete_first mid ms ⊆ ms.
Proof.
  induction ms as [|m ms IH]; [done|]. cbn [delete_first].
  destruct (bool_decide _); intros x Hx.
  - now right.
  - apply elem_of_cons in Hx as [->|Hx]; [left|right; auto].
Qed.

Lemma findByIdAndDelete_tagged t mid st : tagged t st -> tagged t (findByIdAndDelete mid st).
Proof.
  intros [Hm Hc]. split; [|exact Hc]. cbn [findByIdAndDelete messages].
  rewrite Forall_forall in Hm |- *. intros m Hin. apply Hm.
  now apply (delete_first_subseteq mid).
Qed.

Lemma update_first_chat_tagged t c f cs :
  (forall x, Chat.tenantId (f x) = Chat.tenantId x) ->
  Forall (fun x => Chat.tenantId x = t) cs ->
  Forall (fun x => Chat.tenantId x = t) (update_first_chat c f cs).
Proof.
  intros Hf. induction 1 as [|x cs Hx Hcs IH]; [constructor|].
  cbn [update_first_chat]. destruct (bool_decide _); constructor; auto.
  now rewrite Hf.
Qed.

Lemma setLastMessage_tagged t c mid st : tagged t st -> tagged t (setLastMessage c mid st).
Proof.
  intros [Hm Hc]. split; [exact Hm|]. cbn [setLastMessage chats].
  now apply update_first_chat_tagged.
Qed.

(** *** What the handlers emit *)

Section Handlers.
Context (iam : ObjectId -> TenantId -> string -> option IUser).
Context {bson : Bson}.






Lemma directMessage_outcome socket others now newId c content_body st user chat :
  findUserBySocket (Socket.id socket) st = Some user ->
  findChatById c st = Some chat ->
  directMessage iam socket others now newId c content_body st =
  {| store := createMessage
                (Message.mk newId (Socket.tenantId socket) c (ChatUser._id user) content_body
                   now (Some []) []) st;
     socket_after := joinRoom c socket;
     emitted := [];
     thrown := Some TypeError |}.
Proof.
  intros Hu Hc. unfold directMessage. rewrite Hu, Hc. cbn [fmap option_fmap option_map].
  cbn [saveChat]. unfold joinRoom. now destruct (bool_decide _).
Qed.

Lemma directMessage_emits_nothing socket others now newId c content_body st :
  emitted (directMessage iam socket others now newId c content_body st) = [].
Proof.
  unfold directMessage.
  destruct (findUserBySocket _ st); [|reflexivity].
  destruct (findChatById c st); reflexivity.
Qed.


Lemma markMessageAsRead_tagged socket now c mid u st :
  tagged (Socket.tenantId socket) st ->
  tagged (Socket.tenantId socket) (markMessageAsRead iam socket now c mid u st).1.
Proof.
  intros Ht. unfold markMessageAsRead.
  destruct (findMessageById mid st) as [message|] eqn:Hm; [|exact Ht].
  destruct (bool_decide _); [exact Ht|]. cbn [fst].
  apply saveMessage_tagged; [exact Ht|]. cbn.
  apply findMessageById_elem in Hm as [Hin _].
  destruct Ht as [Ht _]. rewrite Forall_forall in Ht. auto.
Qed.

Lemma markAllMessagesAsRead_tagged socket c u st :
  tagged (Socket.tenantId socket) st ->
  tagged (Socket.tenantId socket) (markAllMessagesAsRead socket c u st).1.
Proof.
  intros [Hm Hc]. unfold markAllMessagesAsRead.
  match goal with |- context [findChatById c ?s] => set (st' := s) end.
  assert (tagged (Socket.tenantId socket) st') as Ht'.
  { split; [|exact Hc]. subst st'. cbn [messages].
    rewrite Forall_forall in Hm |- *. intros m' Hin%list_elem_of_In.
    apply in_map_iff in Hin as (m0 & <- & Hin%list_elem_of_In).
    destruct (_ && _); cbn; auto. }
  now destruct (findChatById c st').
Qed.

Lemma deleteMessage_tagged socket now mid c u mode st :
  tagged (Socket.tenantId socket) st ->
  tagged (Socket.tenantId socket) (deleteMessage socket now mid c u mode st).1.
Proof.
  intros Ht. unfold deleteMessage.
  destruct (Types_ObjectId mid) as [midObj|]; [|exact Ht].
  destruct (Types_ObjectId c) as [cObj|]; [|exact Ht].
  destruct (findMessageInChat _ _ _ st) as [message|] eqn:Hm; [|exact Ht].
  apply findMessageInChat_elem in Hm as (_ & _ & _ & Htm).
  destruct mode.
  - destruct (upsertDeleted _ _ _) as [deletedFor|]; [|exact Ht].
    assert (tagged (Socket.tenantId socket)
              (saveMessage (withDeletedFor message deletedFor) st))
      as Ht1 by (now apply saveMessage_tagged).
    destruct (Types_ObjectId u) as [uObj|]; [|exact Ht1]. cbn [fst].
    destruct (findLastVisible _ _ _ _ _); [|exact Ht1].
    destruct (bool_decide _); [|exact Ht1]. now apply setLastMessage_tagged.
  - destruct (negb _); [exact Ht|].
    assert (tagged (Socket.tenantId socket) (findByIdAndDelete midObj st)) as Ht1
      by (now apply findByIdAndDelete_tagged).
    now destruct (findChatById _ _).
Qed.

Lemma directMessage_tagged socket others now newId c content_body st :
  tagged (Socket.tenantId socket) st ->
  tagged (Socket.tenantId socket)
    (store (directMessage iam socket others now newId c content_body st)).
Proof.
  intros Ht.
  destruct (findUserBySocket (Socket.id socket) st) as [user|] eqn:Hu;
    [destruct (findChatById c st) as [chat|] eqn:Hc|].
  - rewrite (directMessage_outcome _ _ _ _ _ _ _ user chat Hu Hc). cbn [store].
    destruct Ht as [Hm Hch]. split; [|exact Hch]. cbn [createMessage messages].
    apply Forall_app. split; [exact Hm|]. now repeat constructor.
  - unfold directMessage. now rewrite Hu, Hc.
  - unfold directMessage. now rewrite Hu.
Qed.

Lemma handle_tagged socket others now newId r st :
  tagged (Socket.tenantId socket) st ->
  tagged (Socket.tenantId socket) (handle iam socket others now newId r st).1.
Proof.
  intros Ht. destruct r; cbn [handle].
  - now apply markMessageAsRead_tagged.
  - now apply markAllMessagesAsRead_tagged.
  - exact Ht.
  - exact Ht.
  - now apply deleteMessage_tagged.
  - now apply directMessage_tagged.
Qed.

End Handlers.






Section Counts.
Context (iam : ObjectId -> TenantId -> string -> option IUser).
Context {bson : Bson}.




End Counts.


(** *** Documents handed to clients *)

Lemma elem_of_limit n ms m : m ∈ limit n ms -> m ∈ ms.
Proof.
  unfold limit. destruct (n =? 0)%Z; [done|].
  apply subseteq_take.
Qed.

Lemma elem_of_sort_newest_first ms m : m ∈ sort_newest_first ms <-> m ∈ ms.
Proof. unfold sort_newest_first. now rewrite merge_sort_Permutation. Qed.

Lemma elem_of_List_filter {A} (f : A -> bool) l x :
  x ∈ List.filter f l <-> x ∈ l /\ f x = true.
Proof. now rewrite !list_elem_of_In, filter_In. Qed.

Lemma elem_of_rev {A} (l : list A) x : x ∈ rev l <-> x ∈ l.
Proof. rewrite !list_elem_of_In. symmetry. apply in_rev. Qed.

Lemma map_fst_pair {A B} (g : A -> B) (l : list A) :
  map fst (map (fun x => (x, g x)) l) = l.
Proof. rewrite map_map. cbn. apply map_id. Qed.

Lemma findLastVisible_elem c t x u st m :
  findLastVisible c t x u st = Some m ->
  m ∈ messages st /\ Message.chatId m = c /\ not_deleted_for u m = true /\
  (forall y, x = Some y -> Message._id m <> y).
Proof.
  unfold findLastVisible. intros H.
  assert (m ∈ sort_newest_first
            (List.filter (fun m =>
               bool_decide (Message.chatId m = c)
               && match t with Some t => bool_decide (Message.tenantId m = t) | None => true end
               && match x with Some x => negb (bool_decide (Message._id m = x)) | None => true end
               && not_deleted_for u m) (messages st))) as Hin.
  { destruct (sort_newest_first _) as [|m0 l]; [discriminate|].
    cbn in H. injection H as ->. left. }
  apply elem_of_sort_newest_first, elem_of_List_filter in Hin as [Hin Hf].
  rewrite !andb_true_iff, bool_decide_eq_true in Hf.
  destruct Hf as [[[Hc _] Hx] Hd]. repeat split; auto.
  intros y ->. now apply negb_true_iff, bool_decide_eq_false in Hx.
Qed.

Section Isolation.
Context (iam : ObjectId -> TenantId -> string -> option IUser).
Context {bson : Bson}.

Lemma handle_from_store socket others now newId r st e :
  e ∈ (handle iam socket others now newId r st).2 ->
  from_store (handle iam socket others now newId r st).1 (what e).
Proof.
  destruct r; cbn [handle].
  - unfold markMessageAsRead.
    destruct (findMessageById messageId st); [|inversion 1].
    set (readEvents := match findChatById chatId st with Some _ => _ | None => _ end).
    assert (Hread : forall e, e ∈ readEvents -> forall s, from_store s (what e)).
    { subst readEvents. intros e'. destruct (findChatById chatId st); [|inversion 1].
      destruct (getUserDetailsByToken _ _ _ _); [|inversion 1].
      now intros (? & ? & ? & _ & _ & _ & ->)%elem_of_to_participants. }
    destruct (bool_decide _); cbn [fst snd]; [now auto|].
    intros [He|He]%elem_of_app; [now auto|].
    destruct (findChatById chatId st); [|inversion He].
    now apply elem_of_to_participants in He as (? & ? & ? & _ & _ & _ & ->).
  - unfold markAllMessagesAsRead.
    match goal with |- context [findChatById chatId ?s] => set (st' := s) end.
    destruct (findChatById chatId st'); cbn [fst snd]; [|inversion 1].
    now intros (? & ? & ? & _ & _ & _ & ->)%elem_of_to_participants.
  - cbn [updateUnreadCount fst snd]. unfold emitUnreadCountUpdate.
    destruct (findUserById userId st); [|inversion 1].
    now intros (? & _ & ->)%elem_of_to_sockets.
  - cbn [getMessageHistory fst snd]. intros ->%list_elem_of_singleton.
    cbn [what from_store]. intros m.
    rewrite map_rev, map_fst_pair, elem_of_rev.
    intros Hm%elem_of_limit%elem_of_sort_newest_first%elem_of_List_filter.
    tauto.
  - unfold deleteMessage.
    destruct (Types_ObjectId messageId) as [messageIdObj|]; [|inversion 1].
    destruct (Types_ObjectId chatId) as [chatIdObj|]; [|inversion 1].
    destruct (findMessageInChat _ _ _ st) as [message|]; [|inversion 1].
    destruct mode.
    + destruct (upsertDeleted _ _ _) as [deletedFor|]; [|inversion 1].
      destruct (Types_ObjectId userId) as [userIdObj|]; [|inversion 1].
      cbn [fst snd].
      set (st1 := saveMessage _ st).
      set (st2 := match findLastVisible chatIdObj None None userIdObj st1 with
                  | Some _ => _ | None => _ end).
      assert (messages st2 = messages st1) as Hms.
      { subst st2. destruct (findLastVisible _ _ _ _ st1); [|reflexivity].
        now destruct (bool_decide _). }
      destruct (findUserById userIdObj st2); [|inversion 1].
      intros (? & _ & ->)%elem_of_to_sockets. cbn [what from_store].
      destruct (findLastVisible _ _ _ _ st1) as [lv|] eqn:Hlv; [|exact I].
      cbn. exists lv. rewrite Hms. split; [|reflexivity].
      now apply findLastVisible_elem in Hlv.
    + destruct (negb _); [inversion 1|].
      destruct (findChatById _ _); [|inversion 1]. cbn [fst snd].
      intros (p & ? & ? & _ & _ & _ & ->)%elem_of_to_participants.
      cbn [what from_store].
      destruct (findLastVisible _ _ _ _ _) as [lv|] eqn:Hlv; [|exact I].
      cbn. exists lv. split; [|reflexivity].
      now apply findLastVisible_elem in Hlv.
  - cbn [fst snd]. rewrite directMessage_emits_nothing. inversion 1.
Qed.

End Isolation.

(** Whatever the store holds, the history query returns only messages
    carrying the socket's tenant. *)
Lemma getMessageHistory_own_tenant iam socket c page st e ms hasMore total currentPage m :
  e ∈ (getMessageHistory iam socket c page st).2 ->
  what e = messageHistory ms hasMore total currentPage ->
  m ∈ map fst ms ->
  Message.tenantId m = Socket.tenantId socket.
Proof.
  cbn [getMessageHistory snd]. intros ->%list_elem_of_singleton [= <- _ _ _].
  rewrite map_rev, map_fst_pair, elem_of_rev.
  intros [_ Hm]%elem_of_limit%elem_of_sort_newest_first%elem_of_List_filter.
  now apply andb_true_iff in Hm as [_ Hm%bool_decide_eq_true].
Qed.

End EngineFacts.

Module MarkReadFacts.
Import Engine EngineFacts.

Lemma elem_of_uniq x xs : x ∈ uniq xs <-> x ∈ xs.
Proof.
  induction xs as [|y xs IH]; [done|]. cbn [uniq].
  rewrite !elem_of_cons, elem_of_List_filter, IH, negb_true_iff, bool_decide_eq_false.
  destruct (decide (x = y)); tauto.
Qed.

Lemma NoDup_List_filter {A} (f : A -> bool) l : NoDup l -> NoDup (List.filter f l).
Proof.
  induction 1 as [|x l Hx Hl IH]; cbn; [constructor|].
  destruct (f x); [constructor|]; auto.
  rewrite elem_of_List_filter. tauto.
Qed.

Lemma NoDup_uniq xs : NoDup (uniq xs).
Proof.
  induction xs as [|y xs IH]; cbn [uniq]; constructor.
  - rewrite elem_of_List_filter, negb_true_iff, bool_decide_eq_false. tauto.
  - now apply NoDup_List_filter.
Qed.



Section MarkRead.
Context (iam : ObjectId -> TenantId -> string -> option IUser).



(** Whether net-new or not, every socket of every participant gets the
    [messageRead] event when the chat is found and the identity service
    knows the reader. *)
Lemma markMessageAsRead_fans_out socket now c mid u st message chat details participant sid :
  findMessageById mid st = Some message ->
  findChatById c st = Some chat ->
  getUserDetailsByToken iam u (Socket.tenantId socket) (Socket.token socket) = Some details ->
  participant ∈ populate chat st ->
  sid ∈ ChatUser.socketIds participant ->
  Emit sid (messageRead mid c u now (displayName details))
    ∈ (markMessageAsRead iam socket now c mid u st).2.
Proof.
  intros Hm Hc Hd Hp Hs. unfold markMessageAsRead. rewrite Hm, Hc, Hd.
  assert (Emit sid (messageRead mid c u now (displayName details))
          ∈ to_participants (populate chat st) st
              (fun _ => messageRead mid c u now (displayName details))) as Hin.
  { apply elem_of_to_participants. exists participant, participant, sid.
    repeat split; auto.
    unfold populate in Hp. apply list_elem_of_omap in Hp as (p & _ & Hp).
    pose proof Hp as [_ Hid%bool_decide_eq_true]%find_elem_of.
    now rewrite Hid. }
  destruct (bool_decide _); cbn [snd]; [exact Hin|].
  apply elem_of_app. now left.
Qed.

(** A net-new viewer: every socket of every participant gets the unread
    count of that participant, counted after the save. *)
Lemma markMessageAsRead_recounts socket now c mid u st message chat participant sid :
  findMessageById mid st = Some message ->
  u ∉ Message.viewers message ->
  findChatById c st = Some chat ->
  participant ∈ populate chat st ->
  sid ∈ ChatUser.socketIds participant ->
  Emit sid (unreadCountUpdate c
              (getUnreadCount c (ChatUser._id participant) (Socket.tenantId socket)
                 (markMessageAsRead iam socket now c mid u st).1))
    ∈ (markMessageAsRead iam socket now c mid u st).2.
Proof.
  intros Hm Hu Hc Hp Hs. unfold markMessageAsRead. rewrite Hm, Hc.
  rewrite bool_decide_eq_false_2 by (now rewrite elem_of_uniq). cbn [fst snd].
  apply elem_of_app. right. apply elem_of_to_participants.
  exists participant, participant, sid. repeat split; auto.
  unfold populate in Hp. apply list_elem_of_omap in Hp as (p & _ & Hp).
  pose proof Hp as [_ Hid%bool_decide_eq_true]%find_elem_of.
  rewrite Hid. exact Hp.
Qed.

End MarkRead.


End MarkReadFacts.

Module HistoryFacts.
Import Engine EngineFacts.

#[local] Instance newer_first_total : Total newer_first.
Proof. intros a b. unfold newer_first. lia. Qed.

#[local] Instance newer_first_trans : Transitive newer_first.
Proof. intros a b c. unfold newer_first. lia. Qed.


Lemma sorted_sort_newest_first ms : StronglySorted newer_first (sort_newest_first ms).
Proof. apply StronglySorted_merge_sort; apply _. Qed.


Lemma limit_positive n ms : (0 < n)%Z -> limit n ms = take (Z.to_nat n) ms.
Proof.
  intros Hn. unfold limit. destruct (Z.eqb_spec n 0); [lia|].
  now rewrite Zabs2Nat.abs_nat_nonneg by lia.
Qed.




End HistoryFacts.

Module DeleteFacts.
Import Engine EngineFacts HistoryFacts.

Lemma head_sort_newest_first ms :
  match head (sort_newest_first ms) with
  | Some lv => lv ∈ ms /\ forall m, m ∈ ms -> Message.createdAt m <= Message.createdAt lv
  | None => ms = []
  end.
Proof.
  pose proof (sorted_sort_newest_first ms) as Hs.
  assert (Hp : sort_newest_first ms ≡ₚ ms) by apply merge_sort_Permutation.
  destruct (sort_newest_first ms) as [|lv rest]; cbn [head].
  - symmetry in Hp. now apply Permutation_nil_r in Hp.
  - split.
    + rewrite <- Hp. left.
    + intros m Hm. rewrite <- Hp in Hm.
      apply StronglySorted_cons in Hs as [Hall _].
      apply elem_of_cons in Hm as [->|Hm]; [lia|].
      rewrite Forall_forall in Hall. apply (Hall m Hm).
Qed.

(** The query with its optional filters, when these filter nothing out. *)
Lemma findLastVisible_spec c t x u st :
  (forall t', t = Some t' -> Forall (fun m => Message.tenantId m = t') (messages st)) ->
  (forall x', x = Some x' -> Forall (fun m => Message._id m <> x') (messages st)) ->
  last_visible_for c u st (findLastVisible c t x u st).
Proof.
  intros Ht Hx. unfold findLastVisible.
  match goal with |- context [List.filter ?f _] => set (cond := f) end.
  assert (Hcond : forall m, m ∈ messages st ->
            (cond m = true <-> Message.chatId m = c /\ visible_to u m)).
  { intros m Hm. subst cond. cbn beta.
    assert (match t with Some t => bool_decide (Message.tenantId m = t) | None => true end = true)
      as ->.
    { destruct t as [t'|]; [|reflexivity]. apply bool_decide_eq_true.
      specialize (Ht t' eq_refl). rewrite Forall_forall in Ht. auto. }
    assert (match x with Some x => negb (bool_decide (Message._id m = x)) | None => true end = true)
      as ->.
    { destruct x as [x'|]; [|reflexivity]. apply negb_true_iff, bool_decide_eq_false.
      specialize (Hx x' eq_refl). rewrite Forall_forall in Hx. auto. }
    rewrite !andb_true_r, andb_true_iff, bool_decide_eq_true, not_deleted_for_spec.
    reflexivity. }
  pose proof (head_sort_newest_first (List.filter cond (messages st))) as Hh.
  destruct (head _) as [lv|]; cbn [last_visible_for].
  - destruct Hh as [[Hin Hc]%elem_of_List_filter Hmax].
    apply (Hcond lv Hin) in Hc as [Hc Hv].
    repeat split; auto.
    intros m Hm Hmc Hmv. apply Hmax, elem_of_List_filter. split; [exact Hm|].
    now apply Hcond.
  - intros m Hm Hmc Hmv.
    assert (m ∈ List.filter cond (messages st)) as Hin.
    { apply elem_of_List_filter. split; [exact Hm|]. now apply Hcond. }
    rewrite Hh in Hin. inversion Hin.
Qed.

Lemma delete_first_NoDup mid ms :
  NoDup (map Message._id ms) ->
  delete_first mid ms = List.filter (fun m => negb (bool_decide (Message._id m = mid))) ms.
Proof.
  induction ms as [|m ms IH]; [reflexivity|]. cbn [map delete_first List.filter].
  intros [Hm Hms]%NoDup_cons. destruct (bool_decide (Message._id m = mid)) eqn:Hd; cbn [negb].
  - apply bool_decide_eq_true in Hd. subst mid.
    symmetry. apply forallb_filter_id, forallb_forall. intros m' Hin.
    apply negb_true_iff, bool_decide_eq_false. intros Heq.
    apply Hm. rewrite <- Heq. apply list_elem_of_In. now apply in_map.
  - f_equal. auto.
Qed.

Lemma populate_elem chat st participant :
  participant ∈ populate chat st ->
  findUserById (ChatUser._id participant) st = Some participant.
Proof.
  unfold populate. intros (p & _ & Hp)%list_elem_of_omap.
  pose proof Hp as [_ Hid%bool_decide_eq_true]%find_elem_of. now rewrite Hid.
Qed.

Lemma findByIdAndDelete_removed mid st :
  NoDup (map Message._id (messages st)) ->
  Forall (fun m => Message._id m <> mid) (messages (findByIdAndDelete mid st)).
Proof.
  intros Hnd. cbn [findByIdAndDelete messages]. rewrite delete_first_NoDup by assumption.
  apply Forall_forall. intros m [_ Hm]%elem_of_List_filter.
  now apply negb_true_iff, bool_decide_eq_false in Hm.
Qed.

Lemma findLastVisible_tagged c t x u st :
  Forall (fun m => Message.tenantId m = t) (messages st) ->
  findLastVisible c (Some t) x u st = findLastVisible c None x u st.
Proof.
  intros Ht. unfold findLastVisible. do 2 f_equal.
  apply filter_ext_in. intros m Hm%list_elem_of_In.
  rewrite Forall_forall in Ht. now rewrite (bool_decide_eq_true_2 _ (Ht m Hm)), andb_true_r.
Qed.

Section Delete.
Context {bson : Bson}.

(** When every [await] is answered, the loop of the controller notifies
    each participant, and the variable ends with what was found for the
    last of them. *)
Lemma notifyParticipants_answered rejects t c mid cObj midObj st ps last0 :
  (forall a, rejects a = false) ->
  notifyParticipants rejects t c mid cObj midObj st ps last0 =
    (to_participants ps st (fun participant =>
       messageDeleted c mid
         (preview <$> findLastVisible cObj (Some t) (Some midObj) (ChatUser._id participant) st)
         forEveryone),
     Some (match last ps with
           | Some participant =>
               findLastVisible cObj (Some t) (Some midObj) (ChatUser._id participant) st
           | None => last0
           end)).
Proof.
  intros Hr. revert last0. induction ps as [|p ps IH]; intros last0; [reflexivity|].
  cbn [notifyParticipants]. rewrite !Hr, IH. cbn [to_participants flat_map].
  f_equal. f_equal. destruct ps as [|q ps]; [reflexivity|].
  change (last (p :: q :: ps)) with (last (q :: ps)).
  destruct (last (q :: ps)) eqn:Hl; [reflexivity|].
  now apply last_None in Hl.
Qed.

Lemma upsertDeleted_is_Some u uObj now ds :
  Types_ObjectId u = Some uObj -> is_Some (upsertDeleted u now ds).
Proof.
  intros Hu. induction ds as [|d ds [rest IH]]; cbn [upsertDeleted].
  - rewrite Hu. eauto.
  - destruct (bool_decide _); [eauto|]. rewrite IH. eauto.
Qed.

Lemma upsertDeleted_others u uObj now ds entries :
  Types_ObjectId u = Some uObj ->
  entries_name_ids ds ->
  upsertDeleted u now ds = Some entries ->
  List.filter (fun d => negb (bool_decide (DeletedFor.userId d = uObj))) entries
  = List.filter (fun d => negb (bool_decide (DeletedFor.userId d = uObj))) ds.
Proof.
  intros Hu Hds. revert entries.
  induction Hds as [|d ds Hd Hds IH]; intros entries; cbn [upsertDeleted].
  - rewrite Hu. intros [= <-]. cbn [List.filter DeletedFor.userId].
    now rewrite bool_decide_eq_true_2.
  - destruct (bool_decide (DeletedFor.userId d = u)) eqn:Hdu.
    + apply bool_decide_eq_true in Hdu. intros [= <-].
      assert (DeletedFor.userId d = uObj) as Heq by congruence.
      cbn [List.filter DeletedFor.userId]. now rewrite !bool_decide_eq_true_2 by exact Heq.
    + destruct (upsertDeleted u now ds) as [rest|]; [|discriminate].
      intros [= <-]. cbn [List.filter]. now rewrite (IH rest eq_refl).
Qed.

Lemma upsertDeleted_entry u uObj now ds entries :
  Types_ObjectId u = Some uObj ->
  entries_name_ids ds ->
  upsertDeleted u now ds = Some entries ->
  exists d, d ∈ entries /\ DeletedFor.userId d = uObj /\ DeletedFor.deletedAt d = now.
Proof.
  intros Hu Hds. revert entries.
  induction Hds as [|d ds Hd Hds IH]; intros entries; cbn [upsertDeleted].
  - rewrite Hu. intros [= <-]. eexists. split; [left|]. now cbn.
  - destruct (bool_decide (DeletedFor.userId d = u)) eqn:Hdu.
    + apply bool_decide_eq_true in Hdu. intros [= <-].
      eexists. split; [left|]. cbn. split; [congruence|reflexivity].
    + destruct (upsertDeleted u now ds) as [rest|]; [|discriminate].
      intros [= <-]. destruct (IH rest eq_refl) as (d' & Hin & Hd').
      exists d'. split; [now right|exact Hd'].
Qed.

(** The for-me branch, when the ids of the request are ids and the message
    is found. *)
Lemma deleteMessage_forMe_found socket now mid c u midObj cObj uObj st message entries :
  Types_ObjectId mid = Some midObj ->
  Types_ObjectId c = Some cObj ->
  Types_ObjectId u = Some uObj ->
  findMessageInChat midObj cObj (Socket.tenantId socket) st = Some message ->
  upsertDeleted u now (default [] (Message.deletedFor message)) = Some entries ->
  let st1 := saveMessage (withDeletedFor message entries) st in
  let lastVisibleMessage := findLastVisible cObj None None uObj st1 in
  let st2 :=
    match lastVisibleMessage with
    | Some lv =>
        if bool_decide (Message.senderId message = u)
        then setLastMessage cObj (Message._id lv) st1 else st1
    | None => st1
    end in
  deleteMessage socket now mid c u forMe st =
    (st2,
     match findUserById uObj st with
     | Some user =>
         to_sockets (ChatUser.socketIds user)
           (messageDeleted c mid (preview <$> lastVisibleMessage) forMe)
     | None => []
     end).
Proof.
  intros Hmid Hc Hu Hm Hup st1 lv st2. unfold deleteMessage.
  rewrite Hmid, Hc, Hm, Hup, Hu. fold st1. fold lv. fold st2.
  f_equal. assert (users st2 = users st) as Hus.
  { subst st2. destruct lv; [|reflexivity]. now destruct (bool_decide _). }
  unfold findUserById. now rewrite Hus.
Qed.

End Delete.

(** C7. For-everyone deletion of a message found in the chat is judged by
    the [userId] that the request carries, and the user of the socket is
    never asked about. A request carrying another id than the sender's is
    refused: the socket handler leaves the database as it is and emits
    nothing, the controller answers 403. A request carrying the sender's
    id, from whatever socket, removes the message, the other messages
    staying, and sends every socket of every participant of the chat a
    [messageDeleted] event showing the id, body and creation time of the
    most recent remaining message of the chat that is not hidden from that
    participant; the controller does the same and answers 200 with what it
    showed the last participant. *)
Theorem delete_for_everyone {bson : Bson} socket now mid c u midObj cObj st message :
  tagged (Socket.tenantId socket) st ->
  NoDup (map Message._id (messages st)) ->
  Types_ObjectId mid = Some midObj ->
  Types_ObjectId c = Some cObj ->
  findMessageInChat midObj cObj (Socket.tenantId socket) st = Some message ->
  let st' := findByIdAndDelete midObj st in
  let lastVisible participant :=
    findLastVisible cObj None (Some midObj) (ChatUser._id participant) st' in
  let shown (lv : Message.t) :=
    {| preview_id := Message._id lv;
       preview_body := Message.body lv;
       preview_createdAt := Message.createdAt lv |} in
  let events :=
    match findChatById cObj st with
    | Some chat =>
        to_participants (populate chat st) st (fun participant =>
          messageDeleted c mid (shown <$> lastVisible participant) forEveryone)
    | None => []
    end in
  (Message.senderId message <> u ->
     deleteMessage socket now mid c u forEveryone st = (st, []) /\
     forall rejects,
       rejects AwaitGetTenantModels = false -> rejects AwaitFindMessage = false ->
       deleteMessageController rejects (Socket.tenantId socket) now mid c u forEveryone st
         = (st, [], status403)) /\
  (Message.senderId message = u ->
     deleteMessage socket now mid c u forEveryone st = (st', events) /\
     forall rejects,
       (forall a, rejects a = false) ->
       deleteMessageController rejects (Socket.tenantId socket) now mid c u forEveryone st
         = (st', events,
            match findChatById cObj st with
            | Some chat => status200 (shown <$> (last (populate chat st) ≫= lastVisible))
            | None => noResponse
            end)) /\
  messages st' = List.filter (fun m => negb (bool_decide (Message._id m = midObj))) (messages st) /\
  (message ∉ messages st') /\
  (forall participant,
     last_visible_for cObj (ChatUser._id participant) st' (lastVisible participant)) /\
  (forall chat participant sid,
     findChatById cObj st = Some chat ->
     participant ∈ populate chat st ->
     sid ∈ ChatUser.socketIds participant ->
     Emit sid (messageDeleted c mid (shown <$> lastVisible participant) forEveryone) ∈ events) /\
  (forall who mode,
     deleteMessage
       (Socket.mk (Socket.id socket) who (Socket.tenantId socket) (Socket.token socket)
          (Socket.rooms socket)) now mid c u mode st
     = deleteMessage socket now mid c u mode st).
Proof.
  intros Ht Hnd Hmid Hc Hm st' lastVisible shown events.
  pose proof (findByIdAndDelete_tagged _ midObj st Ht) as [Ht' _]. fold st' in Ht'.
  split; [|split; [|split; [|split; [|split; [|split]]]]].
  - intros Hne. split.
    + unfold deleteMessage. rewrite Hmid, Hc, Hm.
      now rewrite bool_decide_eq_false_2 by assumption.
    + intros rejects H1 H2. unfold deleteMessageController. rewrite H1, Hmid, Hc, H2, Hm.
      now rewrite bool_decide_eq_false_2 by assumption.
  - intros Heq. split.
    + unfold deleteMessage. rewrite Hmid, Hc, Hm.
      rewrite bool_decide_eq_true_2 by assumption. cbn [negb]. fold st'.
      change (findChatById cObj st') with (findChatById cObj st).
      subst events. now destruct (findChatById cObj st).
    + intros rejects Hr. unfold deleteMessageController. rewrite !Hr, Hmid, Hc, Hm.
      rewrite bool_decide_eq_true_2 by assumption. cbn [negb]. fold st'.
      change (findChatById cObj st') with (findChatById cObj st).
      subst events. destruct (findChatById cObj st) as [chat|]; [|reflexivity].
      rewrite (notifyParticipants_answered rejects _ c mid cObj midObj st' _ None Hr).
      change (populate chat st') with (populate chat st).
      assert (Hlv : forall participant,
                findLastVisible cObj (Some (Socket.tenantId socket)) (Some midObj)
                  (ChatUser._id participant) st' = lastVisible participant).
      { intros participant. now apply findLastVisible_tagged. }
      f_equal; [f_equal|].
      * unfold to_participants. apply flat_map_ext. intros participant.
        now rewrite Hlv.
      * destruct (last (populate chat st)) as [participant|]; [|reflexivity].
        cbn. now rewrite Hlv.
  - subst st'. cbn [findByIdAndDelete messages]. now apply delete_first_NoDup.
  - subst st'. cbn [findByIdAndDelete messages]. rewrite delete_first_NoDup by assumption.
    rewrite elem_of_List_filter, negb_true_iff, bool_decide_eq_false.
    apply findMessageInChat_elem in Hm. tauto.
  - intros participant. apply findLastVisible_spec; [discriminate|].
    intros x' [= <-]. now apply findByIdAndDelete_removed.
  - intros chat participant sid Hchat Hp Hs. subst events. rewrite Hchat.
    apply elem_of_to_participants.
    exists participant, participant, sid. repeat split; auto.
    now apply (populate_elem chat st).
  - reflexivity.
Qed.

(** C8 (as amended). For-me deletion of a message found in the chat
    replaces that message by itself with the deleter's [deletedFor] entry
    upserted: no other message changes, the entries of the other
    participants stay as they were, and so do the users. The chats are
    untouched when the deleter is not the sender, or when nothing of the
    chat remains visible to the deleter. When the deleter is the sender,
    the message was the chat's [lastMessage] and [lv] is the most recent
    message of the chat still visible to the deleter, the chat's
    [lastMessage] becomes [lv], which is another message. (The handler does
    not read [lastMessage]: the last conjunct records that it sets the
    pointer whenever the deleter is the sender.) *)
Theorem delete_for_me {bson : Bson} socket now mid c u midObj cObj uObj st message :
  Types_ObjectId mid = Some midObj ->
  Types_ObjectId c = Some cObj ->
  Types_ObjectId u = Some uObj ->
  findMessageInChat midObj cObj (Socket.tenantId socket) st = Some message ->
  entries_name_ids (default [] (Message.deletedFor message)) ->
  let r := deleteMessage socket now mid c u forMe st in
  let visible := findLastVisible cObj None None uObj r.1 in
  (exists entries,
     messages r.1
       = map (fun m => if bool_decide (Message._id m = midObj)
                       then withDeletedFor message entries else m) (messages st) /\
     List.filter (fun d => negb (bool_decide (DeletedFor.userId d = uObj))) entries
       = List.filter (fun d => negb (bool_decide (DeletedFor.userId d = uObj)))
           (default [] (Message.deletedFor message)) /\
     exists d, d ∈ entries /\ DeletedFor.userId d = uObj /\ DeletedFor.deletedAt d = now) /\
  users r.1 = users st /\
  last_visible_for cObj uObj r.1 visible /\
  (Message.senderId message <> u \/ visible = None -> chats r.1 = chats st) /\
  (forall chat lv,
     Message.senderId message = u ->
     findChatById cObj st = Some chat ->
     Chat.lastMessage chat = Some midObj ->
     visible = Some lv ->
     Chat.lastMessage <$> findChatById cObj r.1 = Some (Some (Message._id lv)) /\
     Message._id lv <> midObj) /\
  (forall lv,
     Message.senderId message = u -> visible = Some lv ->
     chats r.1 = update_first_chat cObj
                   (fun ch => Chat.mk (Chat._id ch) (Chat.tenantId ch) (Chat.participants ch)
                                (Some (Message._id lv))) (chats st)).
Proof.
  intros Hmid Hc Hu Hm Hids r visible.
  pose proof Hm as (_ & Hid & _)%findMessageInChat_elem.
  destruct (upsertDeleted_is_Some u uObj now (default [] (Message.deletedFor message)) Hu)
    as [entries Hup].
  set (st1 := saveMessage (withDeletedFor message entries) st).
  assert (Hr : r.1 = match findLastVisible cObj None None uObj st1 with
                     | Some lv =>
                         if bool_decide (Message.senderId message = u)
                         then setLastMessage cObj (Message._id lv) st1 else st1
                     | None => st1
                     end).
  { subst r.
    now rewrite (deleteMessage_forMe_found socket now mid c u midObj cObj uObj st message
                   entries Hmid Hc Hu Hm Hup). }
  assert (Hms : messages r.1 = messages st1).
  { rewrite Hr. destruct (findLastVisible _ _ _ _ st1); [|reflexivity].
    now destruct (bool_decide _). }
  assert (Hvis : visible = findLastVisible cObj None None uObj st1).
  { subst visible. unfold findLastVisible. now rewrite Hms. }
  assert (Hmap : messages r.1
            = map (fun m => if bool_decide (Message._id m = midObj)
                            then withDeletedFor message entries else m) (messages st)).
  { rewrite Hms. subst st1. cbn [saveMessage messages withDeletedFor Message._id].
    now rewrite Hid. }
  assert (Hspec : last_visible_for cObj uObj r.1 visible)
    by (apply findLastVisible_spec; discriminate).
  assert (Hset : forall lv,
            Message.senderId message = u -> visible = Some lv ->
            chats r.1 = update_first_chat cObj
                          (fun ch => Chat.mk (Chat._id ch) (Chat.tenantId ch)
                                       (Chat.participants ch) (Some (Message._id lv)))
                          (chats st)).
  { intros lv Heq Hlv. rewrite Hr, <- Hvis, Hlv. now rewrite bool_decide_eq_true_2. }
  split; [|split; [|split; [|split; [|split]]]].
  - exists entries. split; [exact Hmap|]. split.
    + now apply (upsertDeleted_others u uObj now).
    + now apply (upsertDeleted_entry u uObj now (default [] (Message.deletedFor message))).
  - rewrite Hr. destruct (findLastVisible _ _ _ _ st1); [|reflexivity].
    now destruct (bool_decide _).
  - exact Hspec.
  - rewrite Hr, <- Hvis. intros [Hne | ->]; [|reflexivity].
    destruct visible; [|reflexivity]. now rewrite bool_decide_eq_false_2.
  - intros chat lv Heq Hchat Hlast Hlv. split.
    + unfold findChatById. rewrite (Hset lv Heq Hlv).
      unfold findChatById in Hchat. clear -Hchat.
      induction (chats st) as [|ch cs IH]; [discriminate|].
      cbn [find update_first_chat] in *.
      destruct (bool_decide (Chat._id ch = cObj)) eqn:Hd; cbn [find Chat._id].
      * now rewrite Hd.
      * rewrite Hd. auto.
    + rewrite Hlv in Hspec. destruct Hspec as (Hin & _ & Hv & _).
      intros Heq'. rewrite Hmap in Hin.
      apply list_elem_of_In, in_map_iff in Hin as (m0 & Hm0 & _).
      destruct (bool_decide (Message._id m0 = midObj)) eqn:Hd.
      * subst lv. unfold visible_to in Hv. cbn in Hv.
        destruct (upsertDeleted_entry u uObj now _ entries Hu Hids Hup) as (d & Hd1 & Hd2 & _).
        rewrite Forall_forall in Hv. now apply (Hv d Hd1).
      * apply bool_decide_eq_false in Hd. congruence.
  - exact Hset.
Qed.

End DeleteFacts.

Module Scenarios.
Import Engine EngineFacts MarkReadFacts HistoryFacts DeleteFacts Demo.
#[local] Existing Instance Demo.bson.

Lemma demo_tagged : tagged "t1" st.
Proof. split; repeat constructor. Qed.

Lemma demo_ids_NoDup : NoDup (map Message._id (messages st)).
Proof.
  cbn. apply NoDup_cons. split; [|apply NoDup_singleton].
  intros H%list_elem_of_singleton. discriminate.
Qed.

(** The handlers on the demo chat. *)
Example demo_unread_counts :
  getUnreadCount chat_id bob_id "t1" st = 1%nat /\ getUnreadCount chat_id alice_id "t1" st = 0%nat.
Proof. split; reflexivity. Qed.

Example demo_mark_all_read :
  markAllMessagesAsRead bob_socket chat_id bob_id st
  = ({| messages := [m1; withViewers m2 [bob_id]]; chats := [chat]; users := [alice; bob] |},
     [Emit "sa" (unreadCountUpdate chat_id 0)]).
Proof. vm_compute. reflexivity. Qed.

Example demo_delete_for_me :
  (deleteMessage bob_socket 300 m2_id chat_id bob_id forMe st).2
  = [Emit "sb" (messageDeleted chat_id m2_id (Some (preview m1)) forMe)].
Proof. vm_compute. reflexivity. Qed.

Example demo_history :
  (getMessageHistory iam bob_socket chat_id 1 st).2
  = [Emit "sb" (messageHistory [(m1, iam bob_id "t1" "token"); (m2, iam alice_id "t1" "token")]
                  false 2 1)].
Proof. vm_compute. reflexivity. Qed.




(** C5. Alice sends to the chat while Bob's socket is in its room. The
    message is stored with no viewer, [chat.save()] on the lean chat throws,
    and the handler ends there: nothing is emitted, the chat's
    [lastMessage] still points to [m2], and Bob's unread count is 2. With
    Bob not connected nothing is emitted either: he gets no
    [unreadCountUpdate]. *)
Lemma directMessage_leaves_present_recipient_unread :
  let o := directMessage iam alice_socket [bob_socket] 300 m3_id chat_id "see you" st in
  existsb (fun s => bool_decide (chat_id ∈ Socket.rooms s)) [bob_socket] = true /\
  thrown o = Some TypeError /\
  emitted o = [] /\
  findMessageById m3_id (store o)
    = Some (Message.mk m3_id "t1" chat_id alice_id "see you" 300 (Some []) []) /\
  Chat.lastMessage <$> findChatById chat_id (store o) = Some (Some m2_id) /\
  getUnreadCount chat_id bob_id "t1" (store o) = 2%nat /\
  emitted (directMessage iam alice_socket [] 300 m3_id chat_id "see you" st) = [].
Proof. vm_compute. repeat split; reflexivity. Qed.

(** Bob's socket asks to delete, for everyone, the message that Alice
    sent. Carrying Bob's id the request is refused; carrying Alice's id it
    removes the message, and every socket gets the event with [m1] as last
    message. *)
Lemma delete_for_everyone_witness :
  Socket.userId bob_socket = bob_id /\
  Message.senderId m2 = alice_id /\
  deleteMessage bob_socket 300 m2_id chat_id bob_id forEveryone st = (st, []) /\
  deleteMessageController answers "t1" 300 m2_id chat_id bob_id forEveryone st
    = (st, [], status403) /\
  deleteMessage bob_socket 300 m2_id chat_id alice_id forEveryone st
    = ({| messages := [m1]; chats := [chat]; users := [alice; bob] |},
       [Emit "sa" (messageDeleted chat_id m2_id
                     (Some {| preview_id := m1_id; preview_body := "hello";
                              preview_createdAt := 100 |}) forEveryone);
        Emit "sb" (messageDeleted chat_id m2_id
                     (Some {| preview_id := m1_id; preview_body := "hello";
                              preview_createdAt := 100 |}) forEveryone)]).
Proof.
  pose proof (delete_for_everyone bob_socket 300 m2_id chat_id bob_id m2_id chat_id st m2
                demo_tagged demo_ids_NoDup eq_refl eq_refl eq_refl) as [Hrefused _].
  pose proof (delete_for_everyone bob_socket 300 m2_id chat_id alice_id m2_id chat_id st m2
                demo_tagged demo_ids_NoDup eq_refl eq_refl eq_refl) as (_ & Hdone & _).
  destruct Hrefused as [H1 H2]; [discriminate|].
  destruct (Hdone eq_refl) as [H3 _].
  split; [reflexivity|]. split; [reflexivity|]. split; [exact H1|]. split.
  - now apply H2.
  - etransitivity; [exact H3|]. vm_compute. reflexivity.
Defined.

(** Bob hides [m2] from himself: the chats are untouched. Alice hides it
    from herself, who sent it and of whose chat it is the last message: the
    pointer goes to [m1]. *)
Lemma delete_for_me_witness :
  findMessageInChat m2_id chat_id "t1" st = Some m2 /\
  chats (deleteMessage bob_socket 300 m2_id chat_id bob_id forMe st).1 = chats st /\
  users (deleteMessage bob_socket 300 m2_id chat_id bob_id forMe st).1 = users st /\
  Chat.lastMessage <$> findChatById chat_id
      (deleteMessage alice_socket 300 m2_id chat_id alice_id forMe st).1 = Some (Some m1_id).
Proof.
  pose proof (delete_for_me bob_socket 300 m2_id chat_id bob_id m2_id chat_id bob_id st m2
                eq_refl eq_refl eq_refl eq_refl (Forall_nil_2 _))
    as (_ & Hu & _ & Hc & _).
  pose proof (delete_for_me alice_socket 300 m2_id chat_id alice_id m2_id chat_id alice_id st m2
                eq_refl eq_refl eq_refl eq_refl (Forall_nil_2 _))
    as (_ & _ & _ & _ & Hlast & _).
  split; [reflexivity|]. split; [|split; [exact Hu|]].
  - apply Hc. left. discriminate.
  - apply (Hlast chat m1); reflexivity.
Defined.

(** C8 (as stated) fails: Alice hides from herself the message she sent
    last, which is the chat's [lastMessage]; afterwards [lastMessage] is
    [m1]. *)
Lemma sender_delete_for_me_moves_lastMessage :
  Message.senderId m2 = alice_id /\
  Chat.lastMessage <$> findChatById chat_id st = Some (Some m2_id) /\
  Chat.lastMessage <$> findChatById chat_id
      (deleteMessage alice_socket 300 m2_id chat_id alice_id forMe st).1 = Some (Some m1_id).
Proof. vm_compute. repeat split; reflexivity. Qed.


End Scenarios.

Module RouterFacts.
Import Router.

Lemma advance_entered_fresh t s :
  t ∉ initializedTenants s ->
  advance (Entered t) s =
  (AwaitingConnect t,
   {| initializedTenants := initializedTenants s; connectCalls := connectCalls s ++ [t] |}).
Proof. intros H. cbn [advance]. now rewrite bool_decide_eq_false_2. Qed.

(** C9. Two calls for a tenant no call has initialized. When the second
    enters before the first has come back from its [await], each of them
    invokes [connectToTenantDB]: two attempts are made, whichever call
    resumes first. When the second enters after the first has returned,
    there is one. *)
Theorem concurrent_first_calls_connect_twice (t : TenantId) :
  connectCalls (run [0; 1; 0; 1]%nat [Entered t; Entered t] fresh).2 = [t; t] /\
  connectCalls (run [0; 1; 1; 0]%nat [Entered t; Entered t] fresh).2 = [t; t] /\
  (run [0; 1; 0; 1]%nat [Entered t; Entered t] fresh).1 = [Returned t; Returned t] /\
  connectCalls (run [0; 0; 1; 1]%nat [Entered t; Entered t] fresh).2 = [t].
Proof.
  assert (Hfresh : t ∉ initializedTenants fresh) by (cbn; set_solver).
  assert (Hstill : t ∉ initializedTenants
            {| initializedTenants := initializedTenants fresh;
               connectCalls := connectCalls fresh ++ [t] |}) by (cbn; set_solver).
  split; [|split; [|split]].
  - cbn [run lookup list_lookup insert list_insert].
    rewrite (advance_entered_fresh t fresh Hfresh).
    cbn [run lookup list_lookup insert list_insert].
    rewrite (advance_entered_fresh t _ Hstill). reflexivity.
  - cbn [run lookup list_lookup insert list_insert].
    rewrite (advance_entered_fresh t fresh Hfresh).
    cbn [run lookup list_lookup insert list_insert].
    rewrite (advance_entered_fresh t _ Hstill). reflexivity.
  - cbn [run lookup list_lookup insert list_insert].
    rewrite (advance_entered_fresh t fresh Hfresh).
    cbn [run lookup list_lookup insert list_insert].
    rewrite (advance_entered_fresh t _ Hstill). reflexivity.
  - cbn [run lookup list_lookup insert list_insert].
    rewrite (advance_entered_fresh t fresh Hfresh).
    cbn [run lookup list_lookup insert list_insert advance].
    rewrite bool_decide_eq_true_2 by (cbn; set_solver). reflexivity.
Qed.

End RouterFacts.

(** ** More of the socket handlers and of the [deleteMessage] controller *)
Module EngineMore.
Import Engine EngineFacts MarkReadFacts HistoryFacts DeleteFacts.

(** *** [markAllMessagesAsRead] *)





(** *** Viewers *)

Lemma saveMessage_elem new st m :
  m ∈ messages st ->
  (if bool_decide (Message._id m = Message._id new) then new else m)
    ∈ messages (saveMessage new st).
Proof.
  intros Hm. cbn [saveMessage messages]. apply list_elem_of_In, in_map_iff.
  exists m. split; [reflexivity|]. now apply list_elem_of_In.
Qed.

Lemma same_id_same_message (ms : list Message.t) m1 m2 :
  NoDup (map Message._id ms) -> m1 ∈ ms -> m2 ∈ ms ->
  Message._id m1 = Message._id m2 -> m1 = m2.
Proof.
  induction ms as [|m ms IH]; [inversion 2|].
  cbn [map]. intros [Hm Hms]%NoDup_cons [->|H1]%elem_of_cons [->|H2]%elem_of_cons Hid.
  - reflexivity.
  - destruct Hm. rewrite Hid. apply list_elem_of_In, in_map. now apply list_elem_of_In.
  - destruct Hm. rewrite <- Hid. apply list_elem_of_In, in_map. now apply list_elem_of_In.
  - auto.
Qed.

Lemma delete_first_other mid ms m :
  m ∈ ms -> Message._id m <> mid -> m ∈ delete_first mid ms.
Proof.
  induction ms as [|m0 ms IH]; [inversion 1|]. cbn [delete_first].
  intros [->|Hm]%elem_of_cons Hne.
  - rewrite bool_decide_eq_false_2 by assumption. left.
  - destruct (bool_decide _); [assumption|]. right. auto.
Qed.

(** What a for-me deletion leaves, whatever becomes of the request: the
    database as it was, or the message saved with its new entries, the
    users as they were and at most the [lastMessage] of the chat moved. *)
Lemma deleteMessage_forMe_store {bson : Bson} socket now mid c u st :
  (deleteMessage socket now mid c u forMe st).1 = st \/
  exists midObj cObj message entries,
    Types_ObjectId mid = Some midObj /\ Types_ObjectId c = Some cObj /\
    findMessageInChat midObj cObj (Socket.tenantId socket) st = Some message /\
    upsertDeleted u now (default [] (Message.deletedFor message)) = Some entries /\
    users (deleteMessage socket now mid c u forMe st).1 = users st /\
    messages (deleteMessage socket now mid c u forMe st).1
      = messages (saveMessage (withDeletedFor message entries) st) /\
    (chats (deleteMessage socket now mid c u forMe st).1 = chats st \/
     exists lv,
       chats (deleteMessage socket now mid c u forMe st).1
       = update_first_chat cObj
           (fun x => Chat.mk (Chat._id x) (Chat.tenantId x) (Chat.participants x) (Some lv))
           (chats st)).
Proof.
  unfold deleteMessage.
  destruct (Types_ObjectId mid) as [midObj|] eqn:Hmid; [|now left].
  destruct (Types_ObjectId c) as [cObj|] eqn:Hc; [|now left].
  destruct (findMessageInChat _ _ _ st) as [message|] eqn:Hm; [|now left].
  destruct (upsertDeleted _ _ _) as [entries|] eqn:Hup; [|now left].
  right. exists midObj, cObj, message, entries.
  do 4 (split; [first [reflexivity|assumption]|]).
  destruct (Types_ObjectId u) as [uObj|]; cbn [fst]; [|auto].
  destruct (findLastVisible _ _ _ _ _) as [lv|]; [|auto].
  destruct (bool_decide _); [|auto].
  split; [reflexivity|]. split; [reflexivity|]. right. now exists (Message._id lv).
Qed.

Lemma deleteMessage_forMe_messages {bson : Bson}
    socket now mid c u midObj cObj st message entries :
  Types_ObjectId mid = Some midObj ->
  Types_ObjectId c = Some cObj ->
  findMessageInChat midObj cObj (Socket.tenantId socket) st = Some message ->
  upsertDeleted u now (default [] (Message.deletedFor message)) = Some entries ->
  messages (deleteMessage socket now mid c u forMe st).1 =
  messages (saveMessage (withDeletedFor message entries) st).
Proof.
  intros Hmid Hc Hm Hup. unfold deleteMessage. rewrite Hmid, Hc, Hm, Hup.
  destruct (Types_ObjectId u) as [uObj|]; cbn [fst]; [|reflexivity].
  destruct (findLastVisible _ _ _ _ _); [|reflexivity].
  now destruct (bool_decide _).
Qed.

Section Viewers.
Context (iam : ObjectId -> TenantId -> string -> option IUser).
Context {bson : Bson}.

(** X2. No handler takes a viewer away: whatever the request, a viewer of
    a stored message is still a viewer of the message with that id
    afterwards, unless the request is the deletion for everyone of that
    very message, named by a string that stands for its id. *)
Theorem viewers_are_kept socket others now newId r st m v :
  NoDup (map Message._id (messages st)) ->
  m ∈ messages st ->
  v ∈ Message.viewers m ->
  (exists m', m' ∈ messages (handle iam socket others now newId r st).1 /\
              Message._id m' = Message._id m /\ v ∈ Message.viewers m') \/
  (exists mid c u, r = DeleteMessage mid c u forEveryone /\
                   Types_ObjectId mid = Some (Message._id m)).
Proof.
  intros Hnd Hm Hv.
  assert (Hsame : (exists m', m' ∈ messages st /\
                     Message._id m' = Message._id m /\ v ∈ Message.viewers m')) by eauto.
  destruct r; cbn [handle].
  - left. unfold markMessageAsRead.
    destruct (findMessageById messageId st) as [message|] eqn:Hf; [|exact Hsame].
    destruct (bool_decide _); [exact Hsame|]. cbn [fst].
    apply findMessageById_elem in Hf as [Hin _].
    pose proof (saveMessage_elem
                  (withViewers message (uniq (Message.viewers message) ++ [userId])) st m Hm)
      as Hm'.
    cbn [withViewers Message._id] in Hm'.
    destruct (bool_decide (Message._id m = Message._id message)) eqn:Hd.
    + apply bool_decide_eq_true in Hd.
      assert (m = message) as -> by (now apply (same_id_same_message (messages st))).
      eexists. split; [exact Hm'|]. split; [reflexivity|]. cbn.
      apply elem_of_app. left. now apply elem_of_uniq.
    + eauto.
  - left. unfold markAllMessagesAsRead.
    match goal with |- context [findChatById chatId ?s] => set (st' := s) end.
    assert (exists m', m' ∈ messages st' /\
              Message._id m' = Message._id m /\ v ∈ Message.viewers m') as H.
    { subst st'. cbn [messages]. eexists. split.
      - apply list_elem_of_In, in_map_iff. exists m. split; [reflexivity|].
        now apply list_elem_of_In.
      - destruct (_ && _); cbn; split; auto. apply elem_of_app. now left. }
    now destruct (findChatById chatId st').
  - left. exact Hsame.
  - left. exact Hsame.
  - destruct mode.
    + left.
      destruct (deleteMessage_forMe_store socket now messageId chatId userId st)
        as [-> | (midObj & cObj & message & entries & _ & _ & Hf & _ & _ & -> & _)];
        [exact Hsame|].
      apply findMessageInChat_elem in Hf as (Hin & _).
      pose proof (saveMessage_elem (withDeletedFor message entries) st m Hm) as Hm'.
      cbn [withDeletedFor Message._id] in Hm'.
      destruct (bool_decide (Message._id m = Message._id message)) eqn:Hd.
      * apply bool_decide_eq_true in Hd.
        assert (m = message) as -> by (now apply (same_id_same_message (messages st))).
        eexists. split; [exact Hm'|]. split; [reflexivity|]. exact Hv.
      * eauto.
    + unfold deleteMessage.
      destruct (Types_ObjectId messageId) as [midObj|] eqn:Hmid; [|left; exact Hsame].
      destruct (Types_ObjectId chatId) as [cObj|]; [|left; exact Hsame].
      destruct (findMessageInChat _ _ _ st) as [message|] eqn:Hf; [|left; exact Hsame].
      destruct (negb _); [left; exact Hsame|].
      destruct (decide (Message._id m = midObj)) as [<-|Hne].
      * right. eauto.
      * left. exists m.
        assert (m ∈ messages (findByIdAndDelete midObj st)) as Hin
          by (now apply delete_first_other).
        destruct (findChatById _ _); cbn [fst]; auto.
  - left. cbn [fst].
    destruct (findUserBySocket (Socket.id socket) st) as [user|] eqn:Hu;
      [destruct (findChatById chatId st) as [chat|] eqn:Hc|].
    + rewrite (directMessage_outcome iam _ _ _ _ _ _ _ user chat Hu Hc). cbn [store].
      exists m. cbn [createMessage messages]. split; [|auto].
      apply elem_of_app. now left.
    + unfold directMessage. rewrite Hu, Hc. exact Hsame.
    + unfold directMessage. rewrite Hu. exact Hsame.
Qed.

End Viewers.

(** *** For-me deletion and the counts *)

Section ForMe.
Context {bson : Bson}.

Lemma upsertDeleted_nonempty u now ds entries :
  upsertDeleted u now ds = Some entries -> entries <> [].
Proof.
  destruct ds as [|d ds]; cbn [upsertDeleted].
  - destruct (Types_ObjectId u); [|discriminate]. now intros [= <-].
  - destruct (bool_decide _); [now intros [= <-]|].
    destruct (upsertDeleted u now ds); [|discriminate]. now intros [= <-].
Qed.

(** An entry is written at the time of the call, for the string of the
    request when an entry was found under it, else for the id that the
    string stands for. *)
Lemma upsertDeleted_written u now ds entries :
  upsertDeleted u now ds = Some entries ->
  exists d, d ∈ entries /\ DeletedFor.deletedAt d = now /\
            (DeletedFor.userId d = u \/ Types_ObjectId u = Some (DeletedFor.userId d)).
Proof.
  revert entries. induction ds as [|d ds IH]; intros entries; cbn [upsertDeleted].
  - destruct (Types_ObjectId u) as [uObj|]; [|discriminate]. intros [= <-].
    eexists. split; [left|]. cbn. auto.
  - destruct (bool_decide (DeletedFor.userId d = u)) eqn:Hd.
    + apply bool_decide_eq_true in Hd. intros [= <-].
      eexists. split; [left|]. cbn. auto.
    + destruct (upsertDeleted u now ds) as [rest|]; [|discriminate]. intros [= <-].
      destruct (IH rest eq_refl) as (d' & Hin & Hd'). exists d'. split; [now right|exact Hd'].
Qed.

Lemma upsertDeleted_time u t1 t2 ds :
  is_Some (upsertDeleted u t1 ds) -> is_Some (upsertDeleted u t2 ds).
Proof.
  induction ds as [|d ds IH]; cbn [upsertDeleted].
  - now destruct (Types_ObjectId u).
  - destruct (bool_decide _); [eauto|].
    destruct (upsertDeleted u t1 ds); [|now intros [? [=]]].
    intros _. destruct IH as [rest ->]; eauto.
Qed.

Lemma existsb_userId v (entries : list DeletedFor.t) d :
  d ∈ entries -> DeletedFor.userId d = v ->
  existsb (fun d => bool_decide (DeletedFor.userId d = v)) entries = true.
Proof.
  intros Hin Hd. apply existsb_exists. exists d. split; [now apply list_elem_of_In|].
  now apply bool_decide_eq_true.
Qed.

Lemma existsb_upsertDeleted_other v u uObj now ds entries :
  Types_ObjectId u = Some uObj -> v <> uObj ->
  upsertDeleted u now ds = Some entries ->
  existsb (fun d => bool_decide (DeletedFor.userId d = v)) entries
  = existsb (fun d => bool_decide (DeletedFor.userId d = v)) ds.
Proof.
  intros Hu Hne. revert entries.
  induction ds as [|d ds IH]; intros entries; cbn [upsertDeleted].
  - rewrite Hu. intros [= <-]. cbn [existsb DeletedFor.userId].
    rewrite bool_decide_eq_false_2; [reflexivity|congruence].
  - destruct (bool_decide (DeletedFor.userId d = u)) eqn:Hd.
    + now intros [= <-].
    + destruct (upsertDeleted u now ds) as [rest|]; [|discriminate]. intros [= <-].
      cbn [existsb]. now rewrite (IH rest eq_refl).
Qed.

Lemma not_deleted_for_hidden v m entries d :
  d ∈ entries -> DeletedFor.userId d = v ->
  not_deleted_for v (withDeletedFor m entries) = false.
Proof.
  intros Hin Hd. unfold not_deleted_for. cbn [withDeletedFor Message.deletedFor].
  rewrite (existsb_userId v entries d Hin Hd). cbn [negb]. rewrite orb_false_r.
  apply bool_decide_eq_false. intros H%length_zero_iff_nil. subst entries. inversion Hin.
Qed.

Lemma not_deleted_for_upsert_self u uObj now m ds entries :
  Types_ObjectId u = Some uObj ->
  entries_name_ids ds ->
  upsertDeleted u now ds = Some entries ->
  not_deleted_for uObj (withDeletedFor m entries) = false.
Proof.
  intros Hu Hds Hup.
  destruct (upsertDeleted_entry u uObj now ds entries Hu Hds Hup) as (d & Hin & Hd & _).
  now apply (not_deleted_for_hidden uObj m entries d).
Qed.

Lemma not_deleted_for_upsert_other v u uObj now m entries :
  Types_ObjectId u = Some uObj -> v <> uObj ->
  upsertDeleted u now (default [] (Message.deletedFor m)) = Some entries ->
  not_deleted_for v (withDeletedFor m entries) = not_deleted_for v m.
Proof.
  intros Hu Hne Hup. unfold not_deleted_for. cbn [withDeletedFor Message.deletedFor].
  rewrite (existsb_upsertDeleted_other v u uObj now _ entries Hu Hne Hup).
  rewrite (bool_decide_eq_false_2 (length entries = 0%nat)).
  2: { intros H%length_zero_iff_nil. now apply (upsertDeleted_nonempty u now _ entries Hup). }
  destruct (Message.deletedFor m) as [[|d ds]|]; reflexivity.
Qed.

Lemma unread_upsert_self c u uObj t now m ds entries :
  Types_ObjectId u = Some uObj ->
  entries_name_ids ds ->
  upsertDeleted u now ds = Some entries ->
  unread c uObj t (withDeletedFor m entries) = false.
Proof.
  intros Hu Hds Hup. unfold unread.
  rewrite (not_deleted_for_upsert_self u uObj now m ds entries Hu Hds Hup).
  apply andb_false_r.
Qed.

Lemma unread_upsert_other c v u uObj t now m entries :
  Types_ObjectId u = Some uObj -> v <> uObj ->
  upsertDeleted u now (default [] (Message.deletedFor m)) = Some entries ->
  unread c v t (withDeletedFor m entries) = unread c v t m.
Proof.
  intros Hu Hne Hup. unfold unread.
  now rewrite (not_deleted_for_upsert_other v u uObj now m entries Hu Hne Hup).
Qed.

End ForMe.

Lemma map_replace_absent (i : ObjectId) (m' : Message.t) ms :
  (forall x, x ∈ ms -> Message._id x <> i) ->
  map (fun x => if bool_decide (Message._id x = i) then m' else x) ms = ms.
Proof.
  intros H. rewrite <- (map_id ms) at 2. apply map_ext_in. intros x Hx%list_elem_of_In.
  now rewrite bool_decide_eq_false_2 by auto.
Qed.

(** Replacing the one message with a given id changes a count by what the
    old and the new message contribute. *)
Lemma count_replace (f : Message.t -> bool) ms m m' :
  NoDup (map Message._id ms) -> m ∈ ms -> Message._id m' = Message._id m ->
  (length (List.filter f
             (map (fun x => if bool_decide (Message._id x = Message._id m') then m' else x) ms))
   + (if f m then 1 else 0)
   = length (List.filter f ms) + (if f m' then 1 else 0))%nat.
Proof.
  intros Hnd Hin Hid. rewrite Hid.
  induction ms as [|x ms IH]; [inversion Hin|].
  cbn [map] in Hnd. apply NoDup_cons in Hnd as [Hx Hms].
  cbn [map List.filter].
  apply elem_of_cons in Hin as [->|Hin].
  - rewrite bool_decide_eq_true_2 by reflexivity.
    rewrite map_replace_absent.
    + destruct (f x), (f m'); cbn [length]; lia.
    + intros y Hy Heq. apply Hx. rewrite <- Heq.
      apply list_elem_of_In, in_map. now apply list_elem_of_In.
  - rewrite bool_decide_eq_false_2.
    + specialize (IH Hms Hin). destruct (f x); cbn [length]; lia.
    + intros Heq. apply Hx. rewrite Heq.
      apply list_elem_of_In, in_map. now apply list_elem_of_In.
Qed.

(** X3. Deleting a message for oneself hides it from the deleter and from
    nobody else. The request names the message, the chat and the deleter
    by strings that stand for ids, and the entries stored with the message
    name ids. Afterwards every stored message with that id is hidden from
    the deleter, no last-visible query for the deleter returns it, the
    unread count of the deleter drops by one exactly when the message
    counted as unread for them, and the unread counts of all other users
    are what they were. *)
Theorem deleteMessage_forMe_counts {bson : Bson}
    socket now mid c u midObj cObj uObj st message :
  Types_ObjectId mid = Some midObj ->
  Types_ObjectId c = Some cObj ->
  Types_ObjectId u = Some uObj ->
  findMessageInChat midObj cObj (Socket.tenantId socket) st = Some message ->
  entries_name_ids (default [] (Message.deletedFor message)) ->
  NoDup (map Message._id (messages st)) ->
  let st' := (deleteMessage socket now mid c u forMe st).1 in
  (forall m', m' ∈ messages st' -> Message._id m' = midObj -> not_deleted_for uObj m' = false) /\
  (forall c' t x lv, findLastVisible c' t x uObj st' = Some lv -> Message._id lv <> midObj) /\
  (forall c' t,
     getUnreadCount c' uObj t st'
     = (getUnreadCount c' uObj t st - (if unread c' uObj t message then 1 else 0))%nat) /\
  (forall c' v t, v <> uObj -> getUnreadCount c' v t st' = getUnreadCount c' v t st).
Proof.
  intros Hmid Hc Hu Hm Hids Hnd st'.
  destruct (upsertDeleted_is_Some u uObj now (default [] (Message.deletedFor message)) Hu)
    as [entries Hup].
  pose proof (deleteMessage_forMe_messages socket now mid c u midObj cObj st message entries
                Hmid Hc Hm Hup) as Hms.
  fold st' in Hms. cbn [saveMessage messages withDeletedFor Message._id] in Hms.
  pose proof (findMessageInChat_elem _ _ _ _ _ Hm) as (Hin & Hid & _).
  set (message' := withDeletedFor message entries) in *.
  assert (Hself : forall c' t, unread c' uObj t message' = false).
  { intros c' t.
    apply (unread_upsert_self c' u uObj t now message _ entries Hu Hids Hup). }
  assert (Hhidden : forall m', m' ∈ messages st' -> Message._id m' = midObj ->
                               not_deleted_for uObj m' = false).
  { intros m' Hm' Hid'. rewrite Hms in Hm'.
    apply list_elem_of_In, in_map_iff in Hm' as (m & <- & _).
    destruct (bool_decide (Message._id m = Message._id message)) eqn:Hd.
    - apply (not_deleted_for_upsert_self u uObj now message _ entries Hu Hids Hup).
    - apply bool_decide_eq_false in Hd. congruence. }
  split; [exact Hhidden|]. split; [|split].
  - intros c' t x lv (Hlv & _ & Hvis & _)%findLastVisible_elem Heq.
    rewrite (Hhidden lv Hlv Heq) in Hvis. discriminate.
  - intros c' t. unfold getUnreadCount. rewrite Hms.
    pose proof (count_replace (unread c' uObj t) (messages st) message message' Hnd Hin eq_refl)
      as Hcount.
    cbn [message' withDeletedFor Message._id] in Hcount.
    fold message' in Hcount. rewrite Hself in Hcount. lia.
  - intros c' v t Hne. unfold getUnreadCount. rewrite Hms.
    pose proof (count_replace (unread c' v t) (messages st) message message' Hnd Hin eq_refl)
      as Hcount.
    cbn [message' withDeletedFor Message._id] in Hcount.
    fold message' in Hcount.
    unfold message' in Hcount at 2.
    rewrite (unread_upsert_other c' v u uObj t now message entries Hu Hne Hup) in Hcount.
    lia.
Qed.

Section Twice.
Context {bson : Bson}.

Lemma upsertDeleted_again u t1 t2 ds e1 :
  (forall uObj, Types_ObjectId u = Some uObj -> uObj = u) ->
  upsertDeleted u t1 ds = Some e1 ->
  upsertDeleted u t2 e1 = upsertDeleted u t2 ds.
Proof.
  intros Hcanon. revert e1. induction ds as [|d ds IH]; intros e1; cbn [upsertDeleted].
  - destruct (Types_ObjectId u) as [uObj|] eqn:Hu; [|discriminate].
    intros [= <-]. pose proof (Hcanon uObj eq_refl) as ->.
    cbn [upsertDeleted DeletedFor.userId]. now rewrite bool_decide_eq_true_2.
  - destruct (bool_decide (DeletedFor.userId d = u)) eqn:Hd.
    + intros [= <-]. cbn [upsertDeleted DeletedFor.userId]. now rewrite Hd.
    + destruct (upsertDeleted u t1 ds) as [rest|]; [|discriminate]. intros [= <-].
      cbn [upsertDeleted]. now rewrite Hd, (IH rest eq_refl).
Qed.

(** With no entry under the string of the request, the entry is appended. *)
Lemma upsertDeleted_appends u uObj now ds :
  Types_ObjectId u = Some uObj ->
  Forall (fun d => DeletedFor.userId d <> u) ds ->
  upsertDeleted u now ds = Some (ds ++ [DeletedFor.mk uObj now]).
Proof.
  intros Hu. induction 1 as [|d ds Hd _ IH]; cbn [upsertDeleted].
  - now rewrite Hu.
  - now rewrite bool_decide_eq_false_2, IH by assumption.
Qed.

End Twice.

Lemma findLastVisible_messages c t x u st st' :
  messages st = messages st' -> findLastVisible c t x u st = findLastVisible c t x u st'.
Proof. unfold findLastVisible. now intros ->. Qed.

Lemma findMessageInChat_messages mid c t st st' :
  messages st = messages st' -> findMessageInChat mid c t st = findMessageInChat mid c t st'.
Proof. unfold findMessageInChat. now intros ->. Qed.

Lemma filter_map_replace (p : Message.t -> bool) (i : ObjectId) m1 m2 ms :
  p m1 = false -> p m2 = false ->
  List.filter p (map (fun x => if bool_decide (Message._id x = i) then m1 else x) ms)
  = List.filter p (map (fun x => if bool_decide (Message._id x = i) then m2 else x) ms).
Proof.
  intros H1 H2. induction ms as [|x ms IH]; [reflexivity|]. cbn [map List.filter].
  destruct (bool_decide (Message._id x = i)).
  - now rewrite H1, H2.
  - now rewrite IH.
Qed.

Lemma map_replace_twice (i : ObjectId) (m1 m2 : Message.t) ms :
  Message._id m1 = i ->
  map (fun x => if bool_decide (Message._id x = i) then m2 else x)
    (map (fun x => if bool_decide (Message._id x = i) then m1 else x) ms)
  = map (fun x => if bool_decide (Message._id x = i) then m2 else x) ms.
Proof.
  intros H1. rewrite map_map. apply map_ext. intros x.
  destruct (bool_decide (Message._id x = i)) eqn:Hd; [|now rewrite Hd].
  now rewrite bool_decide_eq_true_2.
Qed.

Lemma find_map_replace (p : Message.t -> bool) (i : ObjectId) m m1 ms :
  find p ms = Some m -> Message._id m = i -> p m1 = true ->
  find p (map (fun x => if bool_decide (Message._id x = i) then m1 else x) ms) = Some m1.
Proof.
  intros Hf Hid H1. induction ms as [|x ms IH]; [discriminate|]. cbn [find map] in *.
  destruct (bool_decide (Message._id x = i)) eqn:Hd.
  - now rewrite H1.
  - destruct (p x) eqn:Hp.
    + injection Hf as ->. apply bool_decide_eq_false in Hd. contradiction.
    + auto.
Qed.

Lemma update_first_chat_twice c (f g : Chat.t -> Chat.t) cs :
  (forall x, Chat._id (g x) = Chat._id x) -> (forall x, f (g x) = f x) ->
  update_first_chat c f (update_first_chat c g cs) = update_first_chat c f cs.
Proof.
  intros Hid Hfg. induction cs as [|x cs IH]; [reflexivity|]. cbn [update_first_chat].
  destruct (bool_decide (Chat._id x = c)) eqn:Hd; cbn [update_first_chat].
  - rewrite Hid, Hd. now rewrite Hfg.
  - rewrite Hd. now rewrite IH.
Qed.

(** The message saved by a for-me deletion is found again where the
    message was. *)
Lemma findMessageInChat_saved midObj cObj t st message entries :
  findMessageInChat midObj cObj t st = Some message ->
  findMessageInChat midObj cObj t (saveMessage (withDeletedFor message entries) st)
  = Some (withDeletedFor message entries).
Proof.
  intros Hm. pose proof (findMessageInChat_elem _ _ _ _ _ Hm) as (_ & Hid & Hc & Ht).
  unfold findMessageInChat, saveMessage. cbn [messages withDeletedFor Message._id].
  rewrite Hid. apply (find_map_replace _ midObj message); [exact Hm|exact Hid|].
  cbn [withDeletedFor Message._id Message.chatId Message.tenantId].
  now rewrite !bool_decide_eq_true_2.
Qed.

(** X4. Deleting the same message for oneself a second time. When the
    request names the deleter the way the database prints the id (or by a
    string that stands for no id), the second deletion is the same as one
    deletion at the later time: the database that results and the events
    emitted are those of a single call, so the deleter has one [deletedFor]
    entry, with the later date. When it names the deleter by another string
    that stands for the id, and no entry is stored under that string, each
    call appends an entry for the id: after two calls the message has two
    entries for the deleter. *)
Theorem deleteMessage_forMe_twice {bson : Bson} socket now1 now2 mid c u st :
  ((forall uObj, Types_ObjectId u = Some uObj -> uObj = u) ->
   deleteMessage socket now2 mid c u forMe (deleteMessage socket now1 mid c u forMe st).1
   = deleteMessage socket now2 mid c u forMe st) /\
  (forall midObj cObj uObj message,
     Types_ObjectId mid = Some midObj ->
     Types_ObjectId c = Some cObj ->
     Types_ObjectId u = Some uObj ->
     u <> uObj ->
     findMessageInChat midObj cObj (Socket.tenantId socket) st = Some message ->
     Forall (fun d => DeletedFor.userId d <> u) (default [] (Message.deletedFor message)) ->
     findMessageInChat midObj cObj (Socket.tenantId socket)
       (deleteMessage socket now2 mid c u forMe (deleteMessage socket now1 mid c u forMe st).1).1
     = Some (withDeletedFor message
               (default [] (Message.deletedFor message)
                  ++ [DeletedFor.mk uObj now1; DeletedFor.mk uObj now2]))).
Proof.
  split.
  - intros Hcanon.
    destruct (Types_ObjectId mid) as [midObj|] eqn:Hmid.
    2: { unfold deleteMessage at 2. now rewrite Hmid. }
    destruct (Types_ObjectId c) as [cObj|] eqn:Hc.
    2: { unfold deleteMessage at 2. now rewrite Hmid, Hc. }
    destruct (findMessageInChat midObj cObj (Socket.tenantId socket) st) as [message|] eqn:Hm.
    2: { unfold deleteMessage at 2. now rewrite Hmid, Hc, Hm. }
    set (ds := default [] (Message.deletedFor message)).
    destruct (upsertDeleted u now1 ds) as [e1|] eqn:Hup1.
    2: { unfold deleteMessage at 2. rewrite Hmid, Hc, Hm. fold ds. now rewrite Hup1. }
    destruct (upsertDeleted_time u now1 now2 ds) as [e2 Hup2]; [rewrite Hup1; eauto|].
    pose proof (upsertDeleted_again u now1 now2 ds e1 Hcanon Hup1) as Hagain.
    rewrite Hup2 in Hagain.
    pose proof (findMessageInChat_elem _ _ _ _ _ Hm) as (Hin & Hid & _).
    set (message1 := withDeletedFor message e1).
    set (message2 := withDeletedFor message e2).
    assert (Hmsg2 : withDeletedFor message1 e2 = message2) by reflexivity.
    assert (Hsave : forall st1,
              messages st1 = messages (saveMessage message1 st) ->
              messages (saveMessage message2 st1) = messages (saveMessage message2 st)).
    { intros st1 Hms1. cbn [saveMessage messages]. rewrite Hms1. cbn [saveMessage messages].
      cbn [message1 message2 withDeletedFor Message._id]. rewrite Hid.
      now apply map_replace_twice. }
    assert (Hfound : forall st1,
              messages st1 = messages (saveMessage message1 st) ->
              findMessageInChat midObj cObj (Socket.tenantId socket) st1 = Some message1).
    { intros st1 Hms1. rewrite (findMessageInChat_messages _ _ _ _ _ Hms1).
      now apply findMessageInChat_saved. }
    destruct (Types_ObjectId u) as [uObj|] eqn:Hu.
    + pose proof (Hcanon uObj eq_refl) as ->.
      destruct (upsertDeleted_written u now1 ds e1 Hup1) as (d1 & Hd1 & _ & Hd1').
      destruct (upsertDeleted_written u now2 ds e2 Hup2) as (d2 & Hd2 & _ & Hd2').
      assert (DeletedFor.userId d1 = u) as Hd1u by (destruct Hd1'; congruence).
      assert (DeletedFor.userId d2 = u) as Hd2u by (destruct Hd2'; congruence).
      set (lv := findLastVisible cObj None None u (saveMessage message2 st)).
      assert (Hlv1 : findLastVisible cObj None None u (saveMessage message1 st) = lv).
      { unfold lv, findLastVisible, saveMessage. cbn [messages]. do 2 f_equal.
        cbn [message1 message2 withDeletedFor Message._id].
        apply filter_map_replace.
        - unfold message1. rewrite (not_deleted_for_hidden u message e1 d1 Hd1 Hd1u).
          apply andb_false_r.
        - unfold message2. rewrite (not_deleted_for_hidden u message e2 d2 Hd2 Hd2u).
          apply andb_false_r. }
      set (st1 := (deleteMessage socket now1 mid c u forMe st).1).
      assert (Hst1 : st1 = match lv with
                           | Some l =>
                               if bool_decide (Message.senderId message = u)
                               then setLastMessage cObj (Message._id l) (saveMessage message1 st)
                               else saveMessage message1 st
                           | None => saveMessage message1 st
                           end).
      { unfold st1, deleteMessage. rewrite Hmid, Hc, Hm. fold ds. rewrite Hup1, Hu.
        cbn [fst]. fold message1. now rewrite Hlv1. }
      assert (Hms1 : messages st1 = messages (saveMessage message1 st)).
      { rewrite Hst1. destruct lv; [destruct (bool_decide _)|]; reflexivity. }
      assert (Hus1 : users st1 = users st).
      { rewrite Hst1. destruct lv; [destruct (bool_decide _)|]; reflexivity. }
      assert (Hlv2 : findLastVisible cObj None None u (saveMessage message2 st1) = lv).
      { unfold lv. apply findLastVisible_messages. now apply Hsave. }
      unfold deleteMessage at 1. fold st1. rewrite Hmid, Hc, (Hfound st1 Hms1).
      cbn [message1 withDeletedFor Message.deletedFor default from_option Datatypes.id].
      rewrite Hagain, Hu. fold message1. rewrite Hmsg2, Hlv2.
      unfold deleteMessage. rewrite Hmid, Hc, Hm. fold ds. rewrite Hup2, Hu.
      fold message2. fold lv.
      cbn [message1 withDeletedFor Message.senderId].
      assert (Hstore :
        match lv with
        | Some l => if bool_decide (Message.senderId message = u)
                    then setLastMessage cObj (Message._id l) (saveMessage message2 st1)
                    else saveMessage message2 st1
        | None => saveMessage message2 st1
        end
        = match lv with
          | Some l => if bool_decide (Message.senderId message = u)
                      then setLastMessage cObj (Message._id l) (saveMessage message2 st)
                      else saveMessage message2 st
          | None => saveMessage message2 st
          end).
      { pose proof (Hsave st1 Hms1) as Hsave1.
        assert (Hplain : chats st1 = chats st ->
                  saveMessage message2 st1 = saveMessage message2 st).
        { intros Hch. unfold saveMessage in Hsave1 |- *. cbn [messages] in Hsave1.
          now rewrite Hsave1, Hch, Hus1. }
        destruct lv as [l|].
        - destruct (bool_decide (Message.senderId message = u)).
          + unfold setLastMessage. cbn [messages chats users saveMessage] in Hsave1 |- *.
            rewrite Hsave1, Hus1. f_equal.
            rewrite Hst1. cbn [setLastMessage chats saveMessage].
            now apply update_first_chat_twice.
          + apply Hplain. now rewrite Hst1.
        - apply Hplain. now rewrite Hst1. }
      now rewrite Hstore.
    + set (st1 := (deleteMessage socket now1 mid c u forMe st).1).
      assert (Hst1 : st1 = saveMessage message1 st).
      { unfold st1, deleteMessage. rewrite Hmid, Hc, Hm. fold ds. now rewrite Hup1, Hu. }
      unfold deleteMessage at 1. fold st1. rewrite Hmid, Hc, (Hfound st1 ltac:(now rewrite Hst1)).
      cbn [message1 withDeletedFor Message.deletedFor default from_option Datatypes.id].
      rewrite Hagain, Hu. fold message1. rewrite Hmsg2.
      unfold deleteMessage. rewrite Hmid, Hc, Hm. fold ds. rewrite Hup2, Hu.
      fold message2. f_equal.
      pose proof (Hsave st1 ltac:(now rewrite Hst1)) as Hsave1.
      unfold saveMessage in Hsave1 |- *. cbn [messages] in Hsave1.
      rewrite Hsave1, Hst1. reflexivity.
  - intros midObj cObj uObj message Hmid Hc Hu Hne Hm Hnone.
    set (ds := default [] (Message.deletedFor message)) in *.
    pose proof (upsertDeleted_appends u uObj now1 ds Hu Hnone) as Hup1.
    assert (Hnone1 : Forall (fun d => DeletedFor.userId d <> u) (ds ++ [DeletedFor.mk uObj now1])).
    { apply Forall_app. split; [exact Hnone|]. constructor; [|constructor].
      cbn. congruence. }
    pose proof (upsertDeleted_appends u uObj now2 _ Hu Hnone1) as Hup2.
    set (message1 := withDeletedFor message (ds ++ [DeletedFor.mk uObj now1])).
    set (st1 := (deleteMessage socket now1 mid c u forMe st).1).
    assert (Hms1 : messages st1 = messages (saveMessage message1 st)).
    { apply (deleteMessage_forMe_messages socket now1 mid c u midObj cObj st message _
               Hmid Hc Hm Hup1). }
    assert (Hm1 : findMessageInChat midObj cObj (Socket.tenantId socket) st1 = Some message1).
    { rewrite (findMessageInChat_messages _ _ _ _ _ Hms1). now apply findMessageInChat_saved. }
    assert (Hup2' : upsertDeleted u now2 (default [] (Message.deletedFor message1))
                    = Some (ds ++ [DeletedFor.mk uObj now1; DeletedFor.mk uObj now2])).
    { cbn [message1 withDeletedFor Message.deletedFor default from_option Datatypes.id].
      rewrite Hup2. now rewrite <- app_assoc. }
    rewrite (findMessageInChat_messages _ _ _ _ _
               (deleteMessage_forMe_messages socket now2 mid c u midObj cObj st1 message1 _
                  Hmid Hc Hm1 Hup2')).
    now rewrite (findMessageInChat_saved midObj cObj _ st1 message1 _ Hm1).
Qed.

Lemma length_filter_weaken {A} (f g : A -> bool) l :
  (forall x, f x = true -> g x = true) ->
  (length (List.filter f l) <= length (List.filter g l))%nat.
Proof.
  intros H. induction l as [|x l IH]; [reflexivity|]. cbn [List.filter].
  destruct (f x) eqn:Hf.
  - rewrite (H x Hf). cbn [length]. lia.
  - destruct (g x); cbn [length]; lia.
Qed.

(** X5. The history handler does not look at [deletedFor]: after a
    for-me deletion (the request naming the message, the chat and the
    deleter by strings that stand for ids, the entries stored with the
    message naming ids) the message is still handed out, to the deleter as
    to anyone, on every page that is long enough to hold the whole chat. *)
Theorem getMessageHistory_shows_hidden {bson : Bson}
    iam socket now mid c u midObj cObj uObj st message p :
  Types_ObjectId mid = Some midObj ->
  Types_ObjectId c = Some cObj ->
  Types_ObjectId u = Some uObj ->
  findMessageInChat midObj cObj (Socket.tenantId socket) st = Some message ->
  entries_name_ids (default [] (Message.deletedFor message)) ->
  (1 <= p)%Z ->
  let st' := (deleteMessage socket now mid c u forMe st).1 in
  (Z.of_nat (length (List.filter (fun m => bool_decide (Message.chatId m = cObj)) (messages st')))
   <= 10 * p)%Z ->
  exists ms hasMore total m',
    (getMessageHistory iam socket cObj p st').2
      = [Emit (Socket.id socket) (messageHistory ms hasMore total p)] /\
    m' ∈ map fst ms /\ Message._id m' = midObj /\ not_deleted_for uObj m' = false.
Proof.
  intros Hmid Hc Hu Hm Hids Hp st' Hlen.
  pose proof (findMessageInChat_elem _ _ _ _ _ Hm) as (Hin & Hid & Hchat & Ht).
  destruct (upsertDeleted_is_Some u uObj now (default [] (Message.deletedFor message)) Hu)
    as [entries Hup].
  set (message' := withDeletedFor message entries).
  assert (Hin' : message' ∈ messages st').
  { unfold st'.
    rewrite (deleteMessage_forMe_messages _ _ _ _ _ _ _ _ _ _ Hmid Hc Hm Hup). fold message'.
    pose proof (saveMessage_elem message' st message Hin) as H.
    cbn [message' withDeletedFor Message._id] in H.
    now rewrite bool_decide_eq_true_2 in H by reflexivity. }
  unfold getMessageHistory. cbn [snd].
  eexists _, _, _, message'. split; [reflexivity|].
  split; [|split; [exact Hid|]].
  2: { apply (not_deleted_for_upsert_self u uObj now message _ entries Hu Hids Hup). }
  rewrite map_rev, map_fst_pair. apply elem_of_rev.
  rewrite limit_positive by lia.
  rewrite take_ge.
  - apply elem_of_sort_newest_first, elem_of_List_filter. split; [exact Hin'|].
    cbn [message' withDeletedFor Message.chatId Message.tenantId].
    now rewrite !bool_decide_eq_true_2.
  - unfold sort_newest_first. rewrite merge_sort_Permutation.
    pose proof (length_filter_weaken
                  (fun m => bool_decide (Message.chatId m = cObj)
                            && bool_decide (Message.tenantId m = Socket.tenantId socket))
                  (fun m => bool_decide (Message.chatId m = cObj)) (messages st')) as Hw.
    cbv beta in Hw. specialize (Hw ltac:(intros x [H _]%andb_true_iff; exact H)). lia.
Qed.

(** X6. The HTTP [deleteMessage] controller in mode for-me, on a database
    that holds only the tenant's documents. When every [await] is answered
    it leaves the same database and emits the same events as the socket
    handler. It answers 500 when the models cannot be had or when the
    message or the chat is named by a string that stands for no id, and
    then nothing is written; it answers 500 only when an [await] rejects
    or one of the three ids is none. It answers 404 exactly when the ids
    are ids and the message is not found in the chat; 200 with the
    [lastMessage] that the events carry when the deleter has a user record;
    and when there is no such record it answers "No User Found" although
    the deletion has been written. *)
Theorem deleteMessageController_forMe {bson : Bson} socket rejects now mid c u st :
  tagged (Socket.tenantId socket) st ->
  let r := deleteMessageController rejects (Socket.tenantId socket) now mid c u forMe st in
  ((forall a, rejects a = false) -> r.1 = deleteMessage socket now mid c u forMe st) /\
  (rejects AwaitGetTenantModels = true \/ Types_ObjectId mid = None \/ Types_ObjectId c = None ->
   r = (st, [], status500)) /\
  match r.2 with
  | status404 =>
      r.1 = (st, []) /\
      exists midObj cObj,
        Types_ObjectId mid = Some midObj /\ Types_ObjectId c = Some cObj /\
        findMessageInChat midObj cObj (Socket.tenantId socket) st = None
  | status200 lm =>
      exists uObj user,
        Types_ObjectId u = Some uObj /\ findUserById uObj st = Some user /\
        r.1.2 = to_sockets (ChatUser.socketIds user) (messageDeleted c mid lm forMe)
  | status200NoUser =>
      r.1.2 = [] /\
      (exists uObj, Types_ObjectId u = Some uObj /\ findUserById uObj st = None) /\
      exists m' d,
        m' ∈ messages r.1.1 /\ Types_ObjectId mid = Some (Message._id m') /\
        d ∈ default [] (Message.deletedFor m') /\ DeletedFor.deletedAt d = now
  | status500 =>
      r.1.2 = [] /\
      ((exists a, rejects a = true) \/ Types_ObjectId mid = None \/ Types_ObjectId c = None \/
       Types_ObjectId u = None)
  | status403 | noResponse => False
  end.
Proof.
  intros Htag r. split; [|split].
  - intros Hr. subst r. unfold deleteMessageController, deleteMessage. rewrite !Hr.
    destruct (Types_ObjectId mid) as [midObj|]; [|reflexivity].
    destruct (Types_ObjectId c) as [cObj|]; [|reflexivity].
    destruct (findMessageInChat _ _ _ st) as [message|] eqn:Hm; [|reflexivity].
    pose proof (findMessageInChat_elem _ _ _ _ _ Hm) as (_ & _ & _ & Ht).
    destruct (upsertDeleted _ _ _) as [entries|]; [|reflexivity].
    destruct (Types_ObjectId u) as [uObj|]; [|reflexivity]. rewrite !Hr.
    assert (Htag' : tagged (Socket.tenantId socket)
                      (saveMessage (withDeletedFor message entries) st))
      by (now apply saveMessage_tagged).
    destruct Htag' as [Htm _].
    rewrite (findLastVisible_tagged cObj _ None uObj _ Htm).
    destruct (findLastVisible _ _ _ _ _) as [lv|]; [destruct (bool_decide _)|];
      rewrite ?Hr; cbn [fst snd];
      match goal with |- context [findUserById uObj ?s] => destruct (findUserById uObj s) end;
      reflexivity.
  - subst r. unfold deleteMessageController.
    intros [H|[H|H]].
    + now rewrite H.
    + destruct (rejects AwaitGetTenantModels); [reflexivity|]. now rewrite H.
    + destruct (rejects AwaitGetTenantModels); [reflexivity|].
      destruct (Types_ObjectId mid); [|reflexivity]. now rewrite H.
  - subst r. unfold deleteMessageController.
    destruct (rejects AwaitGetTenantModels) eqn:R0; [cbn; eauto 10|].
    destruct (Types_ObjectId mid) as [midObj|] eqn:Hmid; [|cbn; eauto 10].
    destruct (Types_ObjectId c) as [cObj|] eqn:Hc; [|cbn; eauto 10].
    destruct (rejects AwaitFindMessage) eqn:R1; [cbn; eauto 10|].
    destruct (findMessageInChat _ _ _ st) as [message|] eqn:Hm; [|cbn; eauto 10].
    pose proof (findMessageInChat_elem _ _ _ _ _ Hm) as (Hin & Hid & _).
    destruct (upsertDeleted _ _ _) as [entries|] eqn:Hup.
    2: { cbn. split; [reflexivity|]. do 3 right.
         destruct (Types_ObjectId u) as [uObj|] eqn:Hu; [|reflexivity].
         destruct (upsertDeleted_is_Some u uObj now (default [] (Message.deletedFor message)) Hu)
           as [? Hup']. congruence. }
    destruct (rejects AwaitSave) eqn:R2; [cbn; eauto 10|].
    destruct (Types_ObjectId u) as [uObj|] eqn:Hu; [|cbn; eauto 10].
    destruct (rejects (AwaitFindLastVisible uObj)) eqn:R3; [cbn; eauto 10|].
    set (st1 := saveMessage (withDeletedFor message entries) st).
    assert (Hin1 : withDeletedFor message entries ∈ messages st1).
    { pose proof (saveMessage_elem (withDeletedFor message entries) st message Hin) as H.
      cbn [withDeletedFor Message._id] in H.
      now rewrite bool_decide_eq_true_2 in H by reflexivity. }
    assert (Hfu2 : forall st2,
              users st2 = users st -> findUserById uObj st2 = findUserById uObj st).
    { intros st2 Hus. unfold findUserById. now rewrite Hus. }
    assert (Hwritten : forall st2,
              messages st2 = messages st1 ->
              exists m' d,
                m' ∈ messages st2 /\ Some midObj = Some (Message._id m') /\
                d ∈ default [] (Message.deletedFor m') /\ DeletedFor.deletedAt d = now).
    { intros st2 Hms.
      destruct (upsertDeleted_written u now _ entries Hup) as (d & Hd & Hat & _).
      exists (withDeletedFor message entries), d. rewrite Hms.
      split; [exact Hin1|]. split; [cbn; now rewrite Hid|]. split; [exact Hd|exact Hat]. }
    destruct (findLastVisible cObj (Some (Socket.tenantId socket)) None uObj st1) as [l|];
      [destruct (bool_decide (Message.senderId message = u));
         [destruct (rejects AwaitFindByIdAndUpdate) eqn:R4; [cbn; eauto 10|]|]|];
      (destruct (rejects AwaitFindUser) eqn:R5; [cbn; eauto 10|]);
      match goal with
      | |- context [findUserById uObj ?s] => rewrite (Hfu2 s eq_refl)
      end;
      (destruct (findUserById uObj st) as [user|] eqn:Hfu; cbn [fst snd]; [eauto 10|]);
      (split; [reflexivity|]; split; [eauto|]; now apply Hwritten).
Qed.

Section Sending.
Context (iam : ObjectId -> TenantId -> string -> option IUser).

(** X7. [directMessage] on a socket whose user and chat are found: the
    message is stored and nothing else happens. [chat.save()] throws, no
    event is emitted, the chats and the users are untouched, the socket has
    joined the room; in the store the unread count of every user other than
    the sender has gone up by one for this chat and tenant, and no other
    count has moved. *)
Theorem directMessage_counts socket others now newId c content_body st user chat :
  findUserBySocket (Socket.id socket) st = Some user ->
  findChatById c st = Some chat ->
  let o := directMessage iam socket others now newId c content_body st in
  thrown o = Some TypeError /\ emitted o = [] /\
  chats (store o) = chats st /\ users (store o) = users st /\
  c ∈ Socket.rooms (socket_after o) /\
  (forall v, v <> ChatUser._id user ->
     getUnreadCount c v (Socket.tenantId socket) (store o)
     = S (getUnreadCount c v (Socket.tenantId socket) st)) /\
  (forall c' v t, c' <> c \/ v = ChatUser._id user \/ t <> Socket.tenantId socket ->
     getUnreadCount c' v t (store o) = getUnreadCount c' v t st).
Proof.
  intros Hu Hc o. subst o. rewrite (directMessage_outcome iam _ _ _ _ _ _ _ user chat Hu Hc).
  cbn [thrown emitted store socket_after createMessage chats users].
  split; [reflexivity|]. split; [reflexivity|]. split; [reflexivity|]. split; [reflexivity|].
  split; [|split].
  - unfold joinRoom. destruct (bool_decide (c ∈ Socket.rooms socket)) eqn:Hd.
    + now apply bool_decide_eq_true in Hd.
    + cbn. apply elem_of_app. right. left.
  - intros v Hne. unfold getUnreadCount. cbn [createMessage messages].
    rewrite List.filter_app, length_app. cbn [List.filter].
    unfold unread at 2. unfold not_deleted_for.
    cbn [Message.chatId Message.senderId Message.viewers Message.tenantId Message.deletedFor].
    rewrite !bool_decide_eq_true_2 by reflexivity.
    rewrite (bool_decide_eq_false_2 (ChatUser._id user = v)) by congruence.
    rewrite (bool_decide_eq_false_2 (v ∈ [])) by (apply not_elem_of_nil).
    rewrite (bool_decide_eq_true_2 (Socket.tenantId socket = Socket.tenantId socket))
      by reflexivity.
    cbn. rewrite orb_true_r. cbn. lia.
  - intros c' v t H. unfold getUnreadCount. cbn [createMessage messages].
    rewrite List.filter_app, length_app. cbn [List.filter].
    assert (unread c' v t
              (Message.mk newId (Socket.tenantId socket) c (ChatUser._id user) content_body
                 now (Some []) []) = false) as ->; [|cbn; lia].
    unfold unread.
    cbn [Message.chatId Message.senderId Message.viewers Message.tenantId Message.deletedFor].
    destruct H as [H|[H|H]].
    + now rewrite (bool_decide_eq_false_2 (c = c')) by congruence.
    + rewrite (bool_decide_eq_true_2 (ChatUser._id user = v)) by congruence.
      cbn. now rewrite andb_false_r.
    + rewrite (bool_decide_eq_false_2 (Socket.tenantId socket = t)) by congruence.
      now rewrite andb_false_r.
Qed.


End Sending.

Lemma update_first_chat_lastMessage_only c mid cs :
  map (fun x => (Chat._id x, Chat.tenantId x, Chat.participants x))
    (update_first_chat c
       (fun x => Chat.mk (Chat._id x) (Chat.tenantId x) (Chat.participants x) (Some mid)) cs)
  = map (fun x => (Chat._id x, Chat.tenantId x, Chat.participants x)) cs.
Proof.
  induction cs as [|x cs IH]; [reflexivity|]. cbn [update_first_chat].
  destruct (bool_decide _); cbn [map]; [reflexivity|now rewrite IH].
Qed.

Section Frame.
Context (iam : ObjectId -> TenantId -> string -> option IUser).
Context {bson : Bson}.

(** X9. What no socket handler touches. Whatever the request, the users
    are as before, every chat keeps its id, tenant and participants (only
    [lastMessage] can move), and every stored message is either the message
    just sent or has the id, tenant, chat, sender, body and creation time of
    a message stored before: handlers edit [viewers] and [deletedFor] and
    nothing else. *)
Theorem handle_keeps_content socket others now newId r st :
  let st' := (handle iam socket others now newId r st).1 in
  users st' = users st /\
  map (fun x => (Chat._id x, Chat.tenantId x, Chat.participants x)) (chats st')
  = map (fun x => (Chat._id x, Chat.tenantId x, Chat.participants x)) (chats st) /\
  (forall m', m' ∈ messages st' ->
     (exists m, m ∈ messages st /\
        Message._id m' = Message._id m /\ Message.tenantId m' = Message.tenantId m /\
        Message.chatId m' = Message.chatId m /\ Message.senderId m' = Message.senderId m /\
        Message.body m' = Message.body m /\ Message.createdAt m' = Message.createdAt m) \/
     (exists c content_body,
        r = DirectMessage c content_body /\
        Message._id m' = newId /\ Message.tenantId m' = Socket.tenantId socket /\
        Message.chatId m' = c /\ Message.body m' = content_body /\
        Message.createdAt m' = now /\ Message.viewers m' = [])).
Proof.
  assert (Hsame : forall m', m' ∈ messages st ->
            exists m, m ∈ messages st /\
              Message._id m' = Message._id m /\ Message.tenantId m' = Message.tenantId m /\
              Message.chatId m' = Message.chatId m /\ Message.senderId m' = Message.senderId m /\
              Message.body m' = Message.body m /\ Message.createdAt m' = Message.createdAt m).
  { intros m' Hm'. exists m'. auto 10. }
  assert (Hsave : forall new old m',
            old ∈ messages st ->
            Message._id new = Message._id old -> Message.tenantId new = Message.tenantId old ->
            Message.chatId new = Message.chatId old ->
            Message.senderId new = Message.senderId old ->
            Message.body new = Message.body old ->
            Message.createdAt new = Message.createdAt old ->
            m' ∈ messages (saveMessage new st) ->
            exists m, m ∈ messages st /\
              Message._id m' = Message._id m /\ Message.tenantId m' = Message.tenantId m /\
              Message.chatId m' = Message.chatId m /\ Message.senderId m' = Message.senderId m /\
              Message.body m' = Message.body m /\ Message.createdAt m' = Message.createdAt m).
  { intros new old m' Hold ? ? ? ? ? ? Hm'. cbn [saveMessage messages] in Hm'.
    apply list_elem_of_In, in_map_iff in Hm' as (m & <- & Hm%list_elem_of_In).
    destruct (bool_decide _); [exists old|exists m]; auto 10. }
  intros st'. subst st'. destruct r; cbn [handle].
  - unfold markMessageAsRead.
    destruct (findMessageById messageId st) as [message|] eqn:Hf; [|auto].
    destruct (bool_decide _); [auto|]. cbn [fst].
    split; [reflexivity|]. split; [reflexivity|]. intros m' Hm'. left.
    apply findMessageById_elem in Hf as [Hin _].
    now apply (Hsave _ message m' Hin) in Hm'.
  - unfold markAllMessagesAsRead.
    match goal with |- context [findChatById chatId ?s] => set (st' := s) end.
    assert (Hst : (match findChatById chatId st' with
                   | Some c => (st', to_participants
                        (List.filter (fun participant =>
                           negb (bool_decide (ChatUser._id participant = userId)))
                           (populate c st')) st'
                        (fun participant => unreadCountUpdate chatId
                           (getUnreadCount chatId (ChatUser._id participant)
                              (Socket.tenantId socket) st')))
                   | None => (st', [])
                   end).1 = st') by (now destruct (findChatById chatId st')).
    rewrite Hst. split; [reflexivity|]. split; [reflexivity|]. intros m' Hm'. left.
    subst st'. cbn [messages] in Hm'.
    apply list_elem_of_In, in_map_iff in Hm' as (m & <- & Hm%list_elem_of_In).
    exists m. destruct (_ && _); auto 10.
  - auto.
  - auto.
  - destruct mode.
    + destruct (deleteMessage_forMe_store socket now messageId chatId userId st)
        as [-> | (midObj & cObj & message & entries & _ & _ & Hf & _ & Hus & Hms & Hch)];
        [auto|].
      pose proof (findMessageInChat_elem _ _ _ _ _ Hf) as (Hin & _).
      split; [exact Hus|]. split.
      * destruct Hch as [-> | [lv ->]]; [reflexivity|].
        apply update_first_chat_lastMessage_only.
      * intros m' Hm'. left. rewrite Hms in Hm'.
        now apply (Hsave _ message m' Hin) in Hm'.
    + unfold deleteMessage.
      destruct (Types_ObjectId messageId) as [midObj|]; [|auto].
      destruct (Types_ObjectId chatId) as [cObj|]; [|auto].
      destruct (findMessageInChat _ _ _ st) as [message|] eqn:Hf; [|auto].
      destruct (negb _); [auto|].
      cbv zeta. destruct (findChatById cObj (findByIdAndDelete midObj st)); cbn [fst];
        (split; [reflexivity|]; split; [reflexivity|]; intros m' Hm'; left;
         apply Hsame; now apply (delete_first_subseteq midObj)).
  - cbn [fst].
    destruct (findUserBySocket (Socket.id socket) st) as [user|] eqn:Hu;
      [destruct (findChatById chatId st) as [chat|] eqn:Hc|].
    + rewrite (directMessage_outcome iam _ _ _ _ _ _ _ user chat Hu Hc).
      cbn [store createMessage messages chats users].
      split; [reflexivity|]. split; [reflexivity|].
      intros m' [Hm'|Hm'%list_elem_of_singleton]%elem_of_app; [left; auto|].
      right. exists chatId, content_body. subst m'. cbn. auto 10.
    + unfold directMessage. rewrite Hu, Hc. cbn. auto.
    + unfold directMessage. rewrite Hu. cbn. auto.
Qed.

End Frame.

End EngineMore.

Module MoreScenarios.
Import Engine EngineFacts MarkReadFacts HistoryFacts DeleteFacts Demo.
Import EngineMore.
#[local] Existing Instance Demo.bson.

(** Alice is a viewer of [m1]; Bob marks the whole chat read and she
    still is. *)
Lemma viewers_are_kept_witness :
  NoDup (map Message._id (messages st)) /\ m1 ∈ messages st /\ alice_id ∈ Message.viewers m1 /\
  exists m', m' ∈ messages (handle iam bob_socket [alice_socket] 300 m3_id
                              (MarkAllMessagesAsRead chat_id bob_id) st).1 /\
             Message._id m' = m1_id /\ alice_id ∈ Message.viewers m'.
Proof.
  split; [exact Scenarios.demo_ids_NoDup|]. split; [left|]. split; [left|].
  destruct (viewers_are_kept iam bob_socket [alice_socket] 300 m3_id
              (MarkAllMessagesAsRead chat_id bob_id) st m1 alice_id Scenarios.demo_ids_NoDup)
    as [H|(mid & c & u & H & _)]; [left|left|exact H|discriminate].
Defined.

(** Bob hides [m2], which he had not read: his count goes from 1 to 0 and
    Alice's stays 0. *)
Lemma deleteMessage_forMe_counts_witness :
  findMessageInChat m2_id chat_id "t1" st = Some m2 /\
  NoDup (map Message._id (messages st)) /\
  getUnreadCount chat_id bob_id "t1" (deleteMessage bob_socket 300 m2_id chat_id bob_id forMe st).1
    = 0%nat /\
  getUnreadCount chat_id alice_id "t1"
      (deleteMessage bob_socket 300 m2_id chat_id bob_id forMe st).1
    = getUnreadCount chat_id alice_id "t1" st.
Proof.
  pose proof (deleteMessage_forMe_counts bob_socket 300 m2_id chat_id bob_id m2_id chat_id
                bob_id st m2 eq_refl eq_refl eq_refl eq_refl (Forall_nil_2 _)
                Scenarios.demo_ids_NoDup) as (_ & _ & Hown & Hothers).
  split; [reflexivity|]. split; [exact Scenarios.demo_ids_NoDup|]. split.
  - etransitivity; [exact (Hown chat_id "t1")|]. reflexivity.
  - apply (Hothers chat_id alice_id "t1"). discriminate.
Defined.

(** Bob hides [m2] twice. Naming himself as the database prints his id he
    has one entry, with the later date; naming himself in upper case he has
    two. *)
Lemma deleteMessage_forMe_twice_witness :
  Message.deletedFor <$>
    findMessageById m2_id
      (deleteMessage bob_socket 400 m2_id chat_id bob_id forMe
         (deleteMessage bob_socket 300 m2_id chat_id bob_id forMe st).1).1
  = Some (Some [DeletedFor.mk bob_id 400]) /\
  hexObjectId bob_id_upper = Some bob_id /\
  findMessageInChat m2_id chat_id "t1"
    (deleteMessage bob_socket 400 m2_id chat_id bob_id_upper forMe
       (deleteMessage bob_socket 300 m2_id chat_id bob_id_upper forMe st).1).1
  = Some (withDeletedFor m2 [DeletedFor.mk bob_id 300; DeletedFor.mk bob_id 400]).
Proof.
  pose proof (deleteMessage_forMe_twice bob_socket 300 400 m2_id chat_id bob_id st) as [Hsame _].
  pose proof (deleteMessage_forMe_twice bob_socket 300 400 m2_id chat_id bob_id_upper st)
    as [_ Htwo].
  split; [|split; [reflexivity|]].
  - rewrite Hsame; [reflexivity|]. intros uObj. now intros [= <-].
  - apply (Htwo m2_id chat_id bob_id m2); try reflexivity; [discriminate|constructor].
Defined.

(** Bob hides [m2] and asks for the first page: [m2] is on it. *)
Lemma getMessageHistory_shows_hidden_witness :
  findMessageInChat m2_id chat_id "t1" st = Some m2 /\
  exists ms hasMore total m',
    (getMessageHistory iam bob_socket chat_id 1
       (deleteMessage bob_socket 300 m2_id chat_id bob_id forMe st).1).2
      = [Emit "sb" (messageHistory ms hasMore total 1)] /\
    m' ∈ map fst ms /\ Message._id m' = m2_id /\ not_deleted_for bob_id m' = false.
Proof.
  split; [reflexivity|].
  apply (getMessageHistory_shows_hidden (bson := Demo.bson) iam bob_socket 300 m2_id chat_id bob_id
           m2_id chat_id bob_id st m2 1 eq_refl eq_refl eq_refl eq_refl (Forall_nil_2 _)).
  - lia.
  - vm_compute. discriminate.
Defined.

(** Bob hides [m2] over HTTP: same database and events as over the socket,
    and the answer carries [m1]. Named by a string that is no id, the
    message is answered 500. *)
Lemma deleteMessageController_forMe_witness :
  tagged "t1" st /\
  (deleteMessageController answers "t1" 300 m2_id chat_id bob_id forMe st).1
    = deleteMessage bob_socket 300 m2_id chat_id bob_id forMe st /\
  (deleteMessageController answers "t1" 300 m2_id chat_id bob_id forMe st).2
    = status200 (Some (preview m1)) /\
  deleteMessageController answers "t1" 300 "m2" chat_id bob_id forMe st = (st, [], status500).
Proof.
  pose proof (deleteMessageController_forMe bob_socket answers 300 m2_id chat_id bob_id st
              Scenarios.demo_tagged) as (Hsame & _ & _).
  pose proof (deleteMessageController_forMe bob_socket answers 300 "m2" chat_id bob_id st
              Scenarios.demo_tagged) as (_ & H500 & _).
  split; [exact Scenarios.demo_tagged|]. split; [now apply Hsame|]. split; [reflexivity|].
  apply H500. right. left. reflexivity.
Defined.

(** Alice sends a third message: Bob's count in the database goes from 1
    to 2, and nothing is emitted. *)
Lemma directMessage_counts_witness :
  findUserBySocket "sa" st = Some alice /\ findChatById chat_id st = Some chat /\
  emitted (directMessage iam alice_socket [bob_socket] 300 m3_id chat_id "see you" st) = [] /\
  getUnreadCount chat_id bob_id "t1"
    (store (directMessage iam alice_socket [bob_socket] 300 m3_id chat_id "see you" st))
    = S (getUnreadCount chat_id bob_id "t1" st).
Proof.
  destruct (directMessage_counts iam alice_socket [bob_socket] 300 m3_id chat_id "see you" st
              alice chat eq_refl eq_refl) as (_ & Hem & _ & _ & _ & Hup & _).
  split; [reflexivity|]. split; [reflexivity|]. split; [exact Hem|].
  apply (Hup bob_id). discriminate.
Defined.


End MoreScenarios.

Module HttpFacts.
Import Engine EngineFacts Http.



Lemma find_app_fresh {A} (f : A -> bool) l x :
  Forall (fun y => f y = false) l -> f x = true -> find f (l ++ [x]) = Some x.
Proof.
  induction 1 as [|y l Hy _ IH]; intros Hx; cbn [app find].
  - now rewrite Hx.
  - rewrite Hy. auto.
Qed.



End HttpFacts.

Module PresenceFacts.
Import Engine EngineFacts Presence.

Lemma findUser_elem userId st u :
  findUser userId st = Some u -> u ∈ users st /\ User._id u = userId.
Proof. intros [H1 H2]%find_elem_of. now apply bool_decide_eq_true in H2. Qed.

Lemma findUser_saveUser userId st u u' :
  findUser userId st = Some u -> User._id u' = userId ->
  findUser userId (saveUser u' st) = Some u'.
Proof.
  unfold findUser, saveUser. cbn [users]. intros H <-.
  induction (users st) as [|x us IH]; [discriminate|]. cbn [find map] in *.
  destruct (bool_decide (User._id x = User._id u')) eqn:Hd.
  - now rewrite bool_decide_eq_true_2.
  - rewrite Hd. auto.
Qed.

Lemma saveUser_saved u st :
  saveUser u (saveUser u st) = saveUser u st.
Proof.
  unfold saveUser. cbn [users chats]. f_equal. rewrite map_map. apply map_ext. intros x.
  destruct (bool_decide (User._id x = User._id u)) eqn:Hd; [|now rewrite Hd].
  now rewrite bool_decide_eq_true_2.
Qed.

Lemma saveUser_twice u1 u2 st :
  User._id u1 = User._id u2 ->
  saveUser u2 (saveUser u1 st) = saveUser u2 st.
Proof.
  intros Hid. unfold saveUser. cbn [users chats]. f_equal. rewrite map_map.
  apply map_ext. intros x. rewrite <- Hid.
  destruct (bool_decide (User._id x = User._id u1)) eqn:Hd; [|now rewrite Hd].
  now rewrite bool_decide_eq_true_2.
Qed.

Lemma joinRoom_rooms room socket r :
  r ∈ Socket.rooms (joinRoom room socket) <-> r = room \/ r ∈ Socket.rooms socket.
Proof.
  unfold joinRoom. destruct (bool_decide (room ∈ Socket.rooms socket)) eqn:Hd.
  - apply bool_decide_eq_true in Hd. split; [auto|]. now intros [->|H].
  - cbn [Socket.rooms]. rewrite elem_of_app, list_elem_of_singleton. tauto.
Qed.

Lemma joinRoom_joined room socket :
  room ∈ Socket.rooms socket -> joinRoom room socket = socket.
Proof. intros H. unfold joinRoom. now rewrite bool_decide_eq_true_2. Qed.

Lemma joinRoom_data room socket :
  Socket.id (joinRoom room socket) = Socket.id socket /\
  Socket.userId (joinRoom room socket) = Socket.userId socket /\
  Socket.tenantId (joinRoom room socket) = Socket.tenantId socket /\
  Socket.token (joinRoom room socket) = Socket.token socket.
Proof. unfold joinRoom. now destruct (bool_decide _). Qed.

Lemma join_all_rooms (cs : list Chat.t) socket r :
  r ∈ Socket.rooms (fold_left (fun s chat => joinRoom (Chat._id chat) s) cs socket)
  <-> (exists chat, chat ∈ cs /\ r = Chat._id chat) \/ r ∈ Socket.rooms socket.
Proof.
  revert socket. induction cs as [|c cs IH]; intros socket; cbn [fold_left].
  - split; [auto|]. intros [(chat & H & _)|H]; [inversion H|exact H].
  - rewrite IH, joinRoom_rooms. split.
    + intros [(chat & H & ->)|[->|H]]; [left; exists chat; split; [now right|reflexivity]
                                        |left; exists c; split; [left|reflexivity]|auto].
    + intros [(chat & [->|H]%elem_of_cons & ->)|H]; eauto.
Qed.

Lemma join_all_data (cs : list Chat.t) socket :
  let s' := fold_left (fun s chat => joinRoom (Chat._id chat) s) cs socket in
  Socket.id s' = Socket.id socket /\ Socket.userId s' = Socket.userId socket /\
  Socket.tenantId s' = Socket.tenantId socket /\ Socket.token s' = Socket.token socket.
Proof.
  revert socket. induction cs as [|c cs IH]; intros socket; cbn [fold_left]; [auto|].
  destruct (IH (joinRoom (Chat._id c) socket)) as (H1 & H2 & H3 & H4).
  destruct (joinRoom_data (Chat._id c) socket) as (G1 & G2 & G3 & G4).
  cbv zeta. rewrite H1, H2, H3, H4. auto.
Qed.

Lemma join_all_joined (cs : list Chat.t) socket :
  (forall chat, chat ∈ cs -> Chat._id chat ∈ Socket.rooms socket) ->
  fold_left (fun s chat => joinRoom (Chat._id chat) s) cs socket = socket.
Proof.
  induction cs as [|c cs IH]; intros H; cbn [fold_left]; [reflexivity|].
  rewrite joinRoom_joined by (apply H; left). apply IH. intros chat Hc. apply H. now right.
Qed.

(** X11. [join] for a user who has a record: afterwards the record holds
    the socket, once more than before only if it was not there, and is
    active with its status unchanged; the socket is in the room of every
    chat of the tenant the user takes part in and has left no room; one
    [participantStatusUpdate] with [active: true] is broadcast; and joining
    again changes nothing more. *)
Theorem join_registers socket d1 d2 st userId tenantId user :
  given (or_else (Some (Socket.userId socket)) d1) = Some userId ->
  given (or_else (Some (Socket.tenantId socket)) d2) = Some tenantId ->
  findUser userId st = Some user ->
  let r := join socket d1 d2 st in
  (exists user',
     findUser userId r.1.1 = Some user' /\
     Socket.id socket ∈ User.socketIds user' /\
     User.active user' = true /\ User.status user' = User.status user /\
     (forall s, s ∈ User.socketIds user' <-> s ∈ User.socketIds user \/ s = Socket.id socket) /\
     (NoDup (User.socketIds user) -> NoDup (User.socketIds user'))) /\
  (forall room, room ∈ Socket.rooms r.1.2 <->
     (exists chat, chat ∈ chats st /\ userId ∈ Chat.participants chat /\
                   Chat.tenantId chat = tenantId /\ room = Chat._id chat)
     \/ room ∈ Socket.rooms socket) /\
  r.2 = [participantStatusUpdate userId (User.status user) true] /\
  join r.1.2 d1 d2 r.1.1 = r.
Proof.
  intros Hu Ht Hf r.
  pose proof (findUser_elem _ _ _ Hf) as [Hin Hid]. subst userId.
  set (sockets := if bool_decide (Socket.id socket ∈ User.socketIds user)
                  then User.socketIds user
                  else User.socketIds user ++ [Socket.id socket]).
  set (user' := User.mk (User._id user) sockets true (User.status user)).
  set (st' := saveUser user' st).
  set (socket' := fold_left (fun s chat => joinRoom (Chat._id chat) s)
                    (chatsOf (User._id user) tenantId st') socket).
  assert (Hr : r = (st', socket', [participantStatusUpdate (User._id user) (User.status user) true])).
  { unfold r, join. rewrite Hu, Ht, Hf. reflexivity. }
  assert (Hsock : forall s, s ∈ sockets <-> s ∈ User.socketIds user \/ s = Socket.id socket).
  { intros s. unfold sockets. destruct (bool_decide _) eqn:Hd.
    - apply bool_decide_eq_true in Hd. split; [auto|]. now intros [H| ->].
    - rewrite elem_of_app, list_elem_of_singleton. tauto. }
  assert (Hf' : findUser (User._id user) st' = Some user').
  { apply (findUser_saveUser _ _ user); [exact Hf|reflexivity]. }
  assert (Hrooms : forall room, room ∈ Socket.rooms socket' <->
            (exists chat, chat ∈ chats st /\ (User._id user) ∈ Chat.participants chat /\
                          Chat.tenantId chat = tenantId /\ room = Chat._id chat)
            \/ room ∈ Socket.rooms socket).
  { intros room. unfold socket'. rewrite join_all_rooms. unfold chatsOf.
    cbn [st' saveUser chats].
    split.
    - intros [(chat & Hc & ->)|H]; [left; exists chat|now right].
      apply elem_of_List_filter in Hc as [Hc Hp].
      apply andb_true_iff in Hp as [H1%bool_decide_eq_true H2%bool_decide_eq_true]. auto.
    - intros [(chat & Hc & H1 & H2 & ->)|H]; [left; exists chat|now right].
      split; [|reflexivity].
      apply elem_of_List_filter. split; [exact Hc|].
      now rewrite !bool_decide_eq_true_2. }
  rewrite Hr. cbn [fst snd]. split; [|split; [exact Hrooms|split; [reflexivity|]]].
  - exists user'. split; [exact Hf'|]. split; [apply Hsock; now right|].
    split; [reflexivity|]. split; [reflexivity|]. split; [exact Hsock|].
    intros Hnd. cbn [user' User.socketIds]. unfold sockets.
    destruct (bool_decide _) eqn:Hd; [exact Hnd|].
    apply bool_decide_eq_false in Hd. apply NoDup_app. split; [exact Hnd|].
    split; [|apply NoDup_singleton].
    intros x Hx ->%list_elem_of_singleton. contradiction.
  - destruct (join_all_data (chatsOf (User._id user) tenantId st') socket)
      as (Hsid & Hsu & Hst & _).
    fold socket' in Hsid, Hsu, Hst.
    unfold join. rewrite Hsu, Hst, Hu, Ht, Hf'. cbn [user' User._id User.socketIds User.status].
    rewrite Hsid.
    rewrite (bool_decide_eq_true_2 (Socket.id socket ∈ sockets)) by (apply Hsock; now right).
    fold user'. unfold st' at 1 2. rewrite saveUser_saved. fold st'.
    rewrite join_all_joined; [reflexivity|].
    intros chat Hc. unfold socket'. apply join_all_rooms. left. eauto.
Qed.

Lemma find_app_l {A} (f : A -> bool) l l' x :
  find f l = Some x -> find f (l ++ l') = Some x.
Proof.
  induction l as [|y l IH]; [discriminate|]. cbn [app find]. destruct (f y); auto.
Qed.

Lemma find_snoc_none {A} (f : A -> bool) l x :
  find f l = None -> f x = true -> find f (l ++ [x]) = Some x.
Proof.
  intros Hn Hx. apply HttpFacts.find_app_fresh; [|exact Hx].
  apply Forall_forall. intros y Hy. apply (find_none _ _ Hn). now apply list_elem_of_In.
Qed.

(** X12. [join] for a user who has no record creates one that holds the
    socket and is not active; the socket joins no room and nothing is
    broadcast. It takes a second [join] to mark the user active and
    announce them. *)
Theorem join_unknown_user socket d1 d2 st userId tenantId :
  given (or_else (Some (Socket.userId socket)) d1) = Some userId ->
  given (or_else (Some (Socket.tenantId socket)) d2) = Some tenantId ->
  findUser userId st = None ->
  let r := join socket d1 d2 st in
  findUser userId r.1.1 = Some (User.mk userId [Socket.id socket] false "Online") /\
  users r.1.1 = users st ++ [User.mk userId [Socket.id socket] false "Online"] /\
  r.1.2 = socket /\ r.2 = [] /\
  (join socket d1 d2 r.1.1).2 = [participantStatusUpdate userId "Online" true] /\
  findUser userId (join socket d1 d2 r.1.1).1.1
    = Some (User.mk userId [Socket.id socket] true "Online").
Proof.
  intros Hu Ht Hf r.
  set (new := User.mk userId [Socket.id socket] false "Online").
  assert (Hr : r = (createUser userId [Socket.id socket] st, socket, [])).
  { unfold r, join. now rewrite Hu, Ht, Hf. }
  assert (Hf' : findUser userId (createUser userId [Socket.id socket] st) = Some new).
  { unfold findUser, createUser. cbn [users]. apply find_snoc_none; [exact Hf|].
    now apply bool_decide_eq_true. }
  rewrite Hr. cbn [fst snd]. split; [exact Hf'|]. split; [reflexivity|].
  split; [reflexivity|]. split; [reflexivity|].
  unfold join at 1 2. rewrite Hu, Ht, Hf'. cbn [new User._id User.socketIds User.status fst snd].
  rewrite bool_decide_eq_true_2 by left. split; [reflexivity|].
  apply (findUser_saveUser _ _ new); [exact Hf'|reflexivity].
Qed.

Lemma find_map_replace_user (p : User.t -> bool) (i : ObjectId) u u1 us :
  find (fun x => bool_decide (User._id x = i)) us = Some u ->
  (forall x, x ∈ us -> p x = false) -> p u1 = true ->
  find p (map (fun x => if bool_decide (User._id x = i) then u1 else x) us) = Some u1.
Proof.
  intros Hf Hp H1. induction us as [|x us IH]; [discriminate|]. cbn [find map] in *.
  destruct (bool_decide (User._id x = i)) eqn:Hd.
  - now rewrite H1.
  - rewrite (Hp x) by left. apply IH; [exact Hf|]. intros y Hy. apply Hp. now right.
Qed.

(** X13. [disconnect] undoes [join] but for the [active] flag. When a
    user with a record joins on a socket that no record holds and that
    socket then disconnects, every record has the sockets it had before
    the [join]; the user is left active exactly when they have another
    socket, and that is what is broadcast. *)
Theorem disconnect_after_join socket d1 d2 st userId tenantId user :
  given (or_else (Some (Socket.userId socket)) d1) = Some userId ->
  given (or_else (Some (Socket.tenantId socket)) d2) = Some tenantId ->
  findUser userId st = Some user ->
  (forall u, u ∈ users st -> Socket.id socket ∉ User.socketIds u) ->
  let joined := join socket d1 d2 st in
  let r := disconnect joined.1.2 joined.1.1 in
  let remaining := (0 <? length (User.socketIds user))%nat in
  r.1 = saveUser (User.mk userId (User.socketIds user) remaining (User.status user)) st /\
  r.2 = [participantStatusUpdate userId (User.status user) remaining].
Proof.
  intros Hu Ht Hf Hfresh joined r remaining.
  pose proof (findUser_elem _ _ _ Hf) as [Hin Hid]. subst userId.
  assert (Hno : Socket.id socket ∉ User.socketIds user) by auto.
  set (user1 := User.mk (User._id user) (User.socketIds user ++ [Socket.id socket]) true
                  (User.status user)).
  destruct (join_all_data (chatsOf (User._id user) tenantId (saveUser user1 st)) socket)
    as (Hsid & _).
  assert (Hj : joined = (saveUser user1 st,
                         fold_left (fun s chat => joinRoom (Chat._id chat) s)
                           (chatsOf (User._id user) tenantId (saveUser user1 st)) socket,
                         [participantStatusUpdate (User._id user) (User.status user) true])).
  { unfold joined, join. rewrite Hu, Ht, Hf.
    now rewrite (bool_decide_eq_false_2 (Socket.id socket ∈ User.socketIds user)). }
  unfold r. rewrite Hj. cbn [fst snd]. unfold disconnect. rewrite Hsid.
  assert (Hfound : find (fun u => bool_decide (Socket.id socket ∈ User.socketIds u))
                     (users (saveUser user1 st)) = Some user1).
  { cbn [saveUser users user1 User._id].
    apply (find_map_replace_user _ _ user); [exact Hf| |].
    - intros x Hx. apply bool_decide_eq_false. auto.
    - apply bool_decide_eq_true. cbn. apply elem_of_app. right. left. }
  rewrite Hfound. cbn [user1 User._id User.socketIds User.status].
  assert (Hfilter : List.filter (fun id => negb (bool_decide (id = Socket.id socket)))
                      (User.socketIds user ++ [Socket.id socket]) = User.socketIds user).
  { rewrite List.filter_app. cbn [List.filter].
    rewrite bool_decide_eq_true_2 by reflexivity. cbn [negb]. rewrite app_nil_r.
    apply forallb_filter_id, forallb_forall. intros x Hx%list_elem_of_In.
    apply negb_true_iff, bool_decide_eq_false. congruence. }
  rewrite Hfilter. fold remaining. split; [|reflexivity].
  now apply saveUser_twice.
Qed.

Lemma update_first_user_elem userId f us u :
  u ∈ update_first_user userId f us -> u ∈ us \/ exists u0, u0 ∈ us /\ u = f u0.
Proof.
  induction us as [|x us IH]; [inversion 1|]. cbn [update_first_user].
  destruct (bool_decide _).
  - intros [->|H]%elem_of_cons; [right; exists x; split; [left|reflexivity]|left; now right].
  - intros [->|H]%elem_of_cons; [left; left|].
    destruct (IH H) as [H'|(u0 & H' & ->)]; [left; now right|right; exists u0; split; [now right|reflexivity]].
Qed.

(** X14. A user marked active has a socket: whatever [join], [disconnect],
    [updateStatus] and [startChat] are asked to do, if every active record
    held a socket before, every active record holds one afterwards. *)
Theorem active_with_socket_kept socket d1 d2 status userId newId st :
  active_with_socket st ->
  active_with_socket (join socket d1 d2 st).1.1 /\
  active_with_socket (disconnect socket st).1 /\
  active_with_socket (updateStatus status userId st).1 /\
  active_with_socket (startChat socket d1 d2 newId st).
Proof.
  unfold active_with_socket. intros Hst.
  assert (Hsave : forall u, (User.active u = true -> User.socketIds u <> []) ->
            Forall (fun u => User.active u = true -> User.socketIds u <> [])
              (users (saveUser u st))).
  { intros u Hu. cbn [saveUser users]. apply Forall_forall. intros x Hx.
    apply list_elem_of_In, in_map_iff in Hx as (x0 & <- & Hx0%list_elem_of_In).
    destruct (bool_decide _); [exact Hu|]. rewrite Forall_forall in Hst. auto. }
  assert (Hcreate : forall u sockets,
            Forall (fun u => User.active u = true -> User.socketIds u <> [])
              (users (createUser u sockets st))).
  { intros u sockets. cbn [createUser users]. apply Forall_app. split; [exact Hst|].
    apply Forall_singleton. discriminate. }
  split; [|split; [|split]].
  - unfold join.
    destruct (given (or_else (Some (Socket.userId socket)) d1)) as [uid|]; [|exact Hst].
    destruct (given (or_else (Some (Socket.tenantId socket)) d2)) as [tid|]; [|exact Hst].
    destruct (findUser uid st) as [user|]; cbn [fst]; [|apply Hcreate].
    apply Hsave. cbn [User.socketIds]. intros _.
    destruct (bool_decide _) eqn:Hd.
    + apply bool_decide_eq_true in Hd. intros Hnil. rewrite Hnil in Hd. inversion Hd.
    + intros Hnil. now apply app_eq_nil in Hnil as [_ ?].
  - unfold disconnect. destruct (find _ (users st)) as [user|]; cbn [fst]; [|exact Hst].
    apply Hsave. cbn [User.socketIds User.active]. intros Hlen%Nat.ltb_lt Hnil.
    rewrite Hnil in Hlen. cbn in Hlen. lia.
  - unfold updateStatus. destruct (findUser userId st) as [user|]; cbn [fst users]; [|exact Hst].
    apply Forall_forall. intros u [Hu|(u0 & Hu0 & ->)]%update_first_user_elem;
      rewrite Forall_forall in Hst; [auto|]. cbn. auto.
  - unfold startChat.
    destruct (given (or_else (Some (Socket.userId socket)) d1)) as [uid|]; [|exact Hst].
    destruct (findUser uid st) as [currentUser|]; [|exact Hst].
    destruct (d2 ≫= (fun c => findUser c st)) as [other|].
    + destruct (find _ _); [exact Hst|]. exact Hst.
    + destruct (given d2) as [c|]; [|exact Hst].
      destruct (find _ (chats (createUser c [] st))); cbn [users]; apply Hcreate.
Qed.

(** X15. [startChat] finds or creates. Whoever asks and whatever the
    contact, asking a second time changes nothing: no second chat and no
    second contact record is created, whatever id a new chat would have
    been given. *)
Theorem startChat_twice socket userId contact_id newId newId' st :
  startChat socket userId contact_id newId' (startChat socket userId contact_id newId st)
  = startChat socket userId contact_id newId st.
Proof.
  unfold startChat at 2 3.
  destruct (given (or_else (Some (Socket.userId socket)) userId)) as [uid|] eqn:Hu.
  2: { unfold startChat. now rewrite Hu. }
  destruct (findUser uid st) as [cur|] eqn:Hcur.
  2: { unfold startChat. now rewrite Hu, Hcur. }
  pose proof (findUser_elem _ _ _ Hcur) as [_ Hcid].
  destruct (contact_id ≫= (fun c => findUser c st)) as [other|] eqn:Hother.
  - destruct contact_id as [c|]; [|discriminate]. cbn [mbind option_bind] in Hother.
    cbv beta iota zeta.
    destruct (find _ (chats st)) as [chat|] eqn:Hchat.
    + unfold startChat. rewrite Hu, Hcur. cbn [mbind option_bind]. rewrite Hother.
      cbv beta iota zeta. now rewrite Hchat.
    + unfold startChat. rewrite Hu.
      change (findUser uid {| users := users st; chats := _ |}) with (findUser uid st).
      rewrite Hcur. cbn [mbind option_bind].
      change (findUser c {| users := users st; chats := _ |}) with (findUser c st).
      rewrite Hother. cbv beta iota zeta. cbn [chats].
      rewrite (find_snoc_none _ _ _ Hchat); [reflexivity|].
      cbn [Chat.participants Chat.tenantId].
      rewrite !bool_decide_eq_true_2; [reflexivity|reflexivity| |].
      * right. left.
      * left.
  - destruct (given contact_id) as [c|] eqn:Hgiven.
    2: { unfold startChat. rewrite Hu, Hcur, Hother, Hgiven. reflexivity. }
    assert (contact_id = Some c) as ->.
    { destruct contact_id as [c'|]; [|discriminate]. cbn in Hgiven.
      destruct (bool_decide (c' = "")); [discriminate|]. now injection Hgiven as ->. }
    cbn [mbind option_bind] in Hother.
    set (new := User.mk c [] false "Online").
    assert (Hcur' : findUser uid (createUser c [] st) = Some cur).
    { unfold findUser. cbn [createUser users]. now apply find_app_l. }
    assert (Hnew : findUser c (createUser c [] st) = Some new).
    { unfold findUser. cbn [createUser users]. apply find_snoc_none; [exact Hother|].
      now apply bool_decide_eq_true. }
    cbv beta iota zeta.
    change (chats (createUser c [] st)) with (chats st). fold new.
    destruct (find _ (chats st)) as [chat|] eqn:Hchat.
    + unfold startChat. rewrite Hu, Hcur'. cbn [mbind option_bind]. rewrite Hnew.
      cbv beta iota zeta. change (chats (createUser c [] st)) with (chats st).
      now rewrite Hchat.
    + unfold startChat. rewrite Hu.
      change (findUser uid {| users := users (createUser c [] st); chats := _ |})
        with (findUser uid (createUser c [] st)).
      rewrite Hcur'. cbn [mbind option_bind].
      change (findUser c {| users := users (createUser c [] st); chats := _ |})
        with (findUser c (createUser c [] st)).
      rewrite Hnew. cbv beta iota zeta. cbn [chats].
      rewrite (find_snoc_none _ _ _ Hchat); [reflexivity|].
      cbn [Chat.participants Chat.tenantId].
      rewrite !bool_decide_eq_true_2; [reflexivity|reflexivity| |].
      * right. left.
      * left.
Qed.

End PresenceFacts.

Module ReactionsFacts.
Import Engine EngineFacts Reactions.

Section Handler.
Context (iam : ObjectId -> TenantId -> string -> option IUser).

Lemma filter_filter_neg {A} (f : A -> bool) l :
  List.filter f (List.filter (fun x => negb (f x)) l) = [].
Proof.
  induction l as [|x l IH]; [reflexivity|]. cbn [List.filter].
  destruct (f x) eqn:Hf; cbn [negb List.filter]; [exact IH|]. now rewrite Hf.
Qed.

Lemma filter_idem {A} (f : A -> bool) l :
  List.filter f (List.filter f l) = List.filter f l.
Proof.
  induction l as [|x l IH]; [reflexivity|]. cbn [List.filter].
  destruct (f x) eqn:Hf; cbn [List.filter]; [rewrite Hf; now f_equal|exact IH].
Qed.

(** What [addReaction] leaves, when the socket's user and the message are
    found. *)
Lemma addReaction_store socket messageId chatId emoji st user message :
  findUserBySocket (Socket.id socket) (store st) = Some user ->
  findMessageById messageId (store st) = Some message ->
  (addReaction iam socket messageId chatId emoji st).1
  = {| store := store st;
       reactions :=
         <[messageId :=
             let kept := List.filter (fun r => negb (bool_decide (userId r = ChatUser._id user)))
                           (reactionsOf messageId st) in
             if bool_decide (emoji = "") then kept
             else kept ++ [{| userId := ChatUser._id user; emoji := emoji |}]]>
           (reactions st) |}.
Proof.
  intros Hu Hm. pose proof (findMessageById_elem _ _ _ Hm) as [_ Hid].
  unfold addReaction. rewrite Hu, Hm, Hid. cbn [store].
  destruct (findChatById chatId (store st)); [|reflexivity].
  now destruct (getUserDetailsByToken _ _ _ _).
Qed.

(** X16. A user has at most one reaction on a message. After
    [addReaction] the reactions of the other users on that message are the
    ones they had, in the same order; the reacting user has exactly the new
    reaction, or none when the emoji is empty, whatever they had before; no
    other message's reactions and nothing of the store change; and a later
    reaction by the same user overwrites: the outcome is that of the later
    call alone. *)
Theorem addReaction_replaces socket messageId chatId emoji emoji' chatId' st user message :
  findUserBySocket (Socket.id socket) (store st) = Some user ->
  findMessageById messageId (store st) = Some message ->
  let st' := (addReaction iam socket messageId chatId emoji st).1 in
  let mine := fun r => bool_decide (userId r = ChatUser._id user) in
  store st' = store st /\
  List.filter (fun r => negb (mine r)) (reactionsOf messageId st')
    = List.filter (fun r => negb (mine r)) (reactionsOf messageId st) /\
  List.filter mine (reactionsOf messageId st')
    = (if bool_decide (emoji = "") then []
       else [{| userId := ChatUser._id user; emoji := emoji |}]) /\
  (forall other, other <> messageId -> reactionsOf other st' = reactionsOf other st) /\
  (addReaction iam socket messageId chatId' emoji' st').1
    = (addReaction iam socket messageId chatId' emoji' st).1.
Proof.
  intros Hu Hm st' mine. subst mine. cbv beta.
  pose proof (addReaction_store socket messageId chatId emoji st user message Hu Hm) as Hst.
  fold st' in Hst. cbv zeta in Hst.
  set (kept := List.filter (fun r => negb (bool_decide (userId r = ChatUser._id user)))
                 (reactionsOf messageId st)) in *.
  assert (Hmine : List.filter (fun r => bool_decide (userId r = ChatUser._id user)) kept = [])
    by apply (filter_filter_neg (fun r => bool_decide (userId r = ChatUser._id user))).
  assert (Hkept : List.filter (fun r => negb (bool_decide (userId r = ChatUser._id user))) kept
                  = kept) by apply filter_idem.
  assert (Hr : reactionsOf messageId st'
               = if bool_decide (emoji = "") then kept
                 else kept ++ [{| userId := ChatUser._id user; emoji := emoji |}]).
  { unfold reactionsOf at 1. rewrite Hst. cbn [reactions]. now rewrite lookup_insert_eq. }
  split; [now rewrite Hst|]. split; [|split; [|split]].
  - rewrite Hr. destruct (bool_decide (emoji = "")); [exact Hkept|].
    rewrite List.filter_app, Hkept. cbn [List.filter userId].
    rewrite bool_decide_eq_true_2 by reflexivity. cbn [negb]. apply app_nil_r.
  - rewrite Hr. destruct (bool_decide (emoji = "")); [exact Hmine|].
    rewrite List.filter_app, Hmine. cbn [List.filter userId].
    now rewrite bool_decide_eq_true_2.
  - intros other Hne. unfold reactionsOf. rewrite Hst. cbn [reactions].
    now rewrite lookup_insert_ne.
  - assert (Hu' : findUserBySocket (Socket.id socket) (store st') = Some user)
      by (now rewrite Hst).
    assert (Hm' : findMessageById messageId (store st') = Some message)
      by (now rewrite Hst).
    rewrite (addReaction_store socket messageId chatId' emoji' st' user message Hu' Hm').
    rewrite (addReaction_store socket messageId chatId' emoji' st user message Hu Hm).
    cbv zeta. fold kept.
    assert (Hk : List.filter (fun r => negb (bool_decide (userId r = ChatUser._id user)))
                   (reactionsOf messageId st') = kept).
    { rewrite Hr. destruct (bool_decide (emoji = "")); [exact Hkept|].
      rewrite List.filter_app. rewrite Hkept.
      cbn [List.filter userId].
      rewrite bool_decide_eq_true_2 by reflexivity. cbn [negb]. apply app_nil_r. }
    rewrite Hk. rewrite Hst at 1 2. cbn [store reactions]. f_equal.
    apply insert_insert_eq.
Qed.

End Handler.

End ReactionsFacts.

Module CacheFacts.
Import Crypto CryptoFacts.

Lemma usable_Some v s : usable v = Some s -> v = Some s /\ truthy s = true.
Proof.
  destruct v as [x|]; [|discriminate]. cbn. destruct (truthy x) eqn:Hx; [|discriminate].
  now intros [= <-].
Qed.

Lemma usable_truthy s : truthy s = true -> usable (Some s) = Some s.
Proof. intros H. cbn. now rewrite H. Qed.

(** What [deriveKey] returns and leaves. *)
Lemma deriveKey_cases P password salt c key c' :
  deriveKey P password salt c = (Ok key, c') ->
  (exists v, usable (c !! kdf_cache_key password salt) = Some v /\
             key = base64_decode P v /\ c' = c) \/
  (usable (c !! kdf_cache_key password salt) = None /\
   argon2id P password (Hex.decode salt) = Some key /\
   c' = <[kdf_cache_key password salt := base64_encode P key]> c).
Proof.
  unfold deriveKey, mbind, io_bind, cache_get.
  destruct (usable (c !! _)) as [v|] eqn:Hv.
  - intros [= <- <-]. left. eauto.
  - destruct (argon2id P password (Hex.decode salt)) as [k|]; [|discriminate].
    cbn. intros [= <- <-]. right. auto.
Qed.

Lemma deriveKey_again P password salt c key c' :
  PlatformLaws P ->
  deriveKey P password salt c = (Ok key, c') ->
  deriveKey P password salt c' = (Ok key, c').
Proof.
  intros L H. pose proof H as [(v & Hv & -> & ->)|(Hv & Hk & ->)]%deriveKey_cases;
    [exact H|].
  unfold deriveKey, mbind, io_bind, cache_get. rewrite lookup_insert_eq.
  cbn [usable]. destruct (truthy (base64_encode P key)).
  - now rewrite (base64_inverse P L).
  - rewrite Hk. cbn. now rewrite insert_insert_eq.
Qed.

(** X17. The key derivation is memoized. After a call that returned a
    key, a further call with the same password and salt on the cache it
    left returns the same key and leaves the cache as it is; and whenever
    the key's encoding is a non-empty string (or the first call was itself
    answered from the cache) the further call does not run Argon2: it gives
    the same answer on a platform whose Argon2 is any other function. *)
Theorem deriveKey_memoized P password salt c key c' :
  PlatformLaws P ->
  deriveKey P password salt c = (Ok key, c') ->
  deriveKey P password salt c' = (Ok key, c') /\
  (truthy (base64_encode P key) = true \/
   is_Some (usable (c !! kdf_cache_key password salt)) ->
   forall argon2id',
     deriveKey {| argon2id := argon2id';
                  aead_encrypt := aead_encrypt P; aead_decrypt := aead_decrypt P;
                  base64_encode := base64_encode P; base64_decode := base64_decode P |}
       password salt c' = (Ok key, c')).
Proof.
  intros L H. split; [now apply (deriveKey_again P password salt c)|].
  intros Hor argon2id'.
  pose proof H as [(v & Hv & -> & ->)|(Hv & Hk & ->)]%deriveKey_cases.
  - unfold deriveKey, mbind, io_bind, cache_get. now rewrite Hv.
  - destruct Hor as [Ht|[v Hv']]; [|congruence].
    unfold deriveKey, mbind, io_bind, cache_get. rewrite lookup_insert_eq.
    cbn [usable base64_decode]. rewrite Ht. now rewrite (base64_inverse P L).
Qed.

(** X18. A decrypted value is served from the cache. After a decryption
    under a cache key has returned a non-empty plaintext, every later
    decryption under that cache key returns that plaintext and leaves the
    cache alone, whatever the ciphertext, nonce, salt and password it is
    given and whatever the platform: neither the key derivation nor the
    cipher is consulted. *)
Theorem decrypt_served_from_cache P ct n s pw k c p c' :
  decryptDataWithNonce P ct n s pw (Some k) c = (Ok p, c') ->
  truthy k = true -> truthy p = true ->
  forall P' ct' n' s' pw',
    decryptDataWithNonce P' ct' n' s' pw' (Some k) c' = (Ok p, c').
Proof.
  intros H Hk Hp P' ct' n' s' pw'.
  assert (Hhit : usable (c' !! k) = Some p).
  { revert H. unfold decryptDataWithNonce, mbind, io_bind.
    rewrite (usable_truthy k Hk). unfold cache_get at 1.
    destruct (usable (c !! k)) as [v|] eqn:Hv.
    - cbn. intros [= <- <-]. exact Hv.
    - destruct (deriveKey P pw s c) as [[key|e] c1]; [|discriminate].
      destruct (length (Hex.decode ct) <? ABYTES)%nat; [discriminate|].
      destruct (aead_decrypt P (Hex.decode ct) (Hex.decode n) key) as [m|]; [|discriminate].
      cbn. intros [= <- <-]. rewrite lookup_insert_eq. now apply usable_truthy. }
  unfold decryptDataWithNonce, mbind, io_bind. rewrite (usable_truthy k Hk).
  unfold cache_get at 1. now rewrite Hhit.
Qed.

Lemma length_hex_decode s : (2 * length (Hex.decode s) <= length s)%nat.
Proof.
  assert (H : forall n s, (length s <= n)%nat ->
                          (2 * length (Hex.decode s) <= length s)%nat).
  { induction n as [|n IH]; intros s' Hn.
    - destruct s'; [cbn; lia|cbn in Hn; lia].
    - destruct s' as [|c1 [|c2 rest]]; [cbn; lia|cbn; lia|]. cbn [Hex.decode].
      destruct (Hex.value c1), (Hex.value c2); cbn [length]; try lia.
      cbn [length] in Hn. specialize (IH rest ltac:(lia)). lia. }
  now apply (H (length s)).
Qed.

(** X19. A stored value of fewer than 32 characters cannot be a
    ciphertext: on a cache miss, once the key is derived, decrypting it
    fails with a [RangeError] from the buffer allocation, before the cipher
    is called. A field that was stored unencrypted and is short fails so. *)
Theorem short_ciphertext_RangeError P ct n s pw cacheKey c key c1 :
  (length ct < 32)%nat ->
  cache_miss cacheKey c ->
  deriveKey P pw s c = (Ok key, c1) ->
  decryptDataWithNonce P ct n s pw cacheKey c = (Err RangeError, c1).
Proof.
  intros Hlen Hmiss Hd.
  assert (Hshort : (length (Hex.decode ct) <? ABYTES)%nat = true).
  { apply Nat.ltb_lt. pose proof (length_hex_decode ct). unfold ABYTES. lia. }
  unfold decryptDataWithNonce, mbind, io_bind.
  destruct (usable cacheKey) as [k|] eqn:Hk.
  - unfold cache_get at 1. rewrite (Hmiss k Hk), Hd. now rewrite Hshort.
  - cbn [mret io_ret usable]. rewrite Hd. now rewrite Hshort.
Qed.

(** Encryption then decryption on the cache that encryption left. *)
Lemma decrypt_after_encrypt P p salt nonce password cacheKey c c1 ct :
  PlatformLaws P ->
  encryptDataWithNonce P p salt nonce password c = (Ok ct, c1) ->
  cache_miss cacheKey c1 ->
  exists c2, decryptDataWithNonce P ct nonce salt password cacheKey c1
             = (Ok (Utf8.decode (Utf8.encode p)), c2).
Proof.
  intros L He Hmiss. revert He. unfold encryptDataWithNonce, mbind, io_bind.
  destruct (deriveKey P password salt c) as [[key|e] c0] eqn:Hd; [|discriminate].
  destruct (aead_encrypt P (Utf8.encode p) (Hex.decode nonce) key) as [ct0|] eqn:Hct;
    [|discriminate].
  intros [= <- <-].
  pose proof (deriveKey_again P password salt c key c0 L Hd) as Hd2.
  assert (Hlen : (length ct0 <? ABYTES)%nat = false).
  { apply Nat.ltb_ge. rewrite (aead_length P L _ _ _ _ Hct). lia. }
  unfold decryptDataWithNonce, mbind, io_bind.
  destruct (usable cacheKey) as [k|] eqn:Hkey.
  - unfold cache_get at 1. rewrite (Hmiss k Hkey), Hd2.
    rewrite HexFacts.hex_decode_encode, Hlen, (aead_inverse P L _ _ _ _ Hct).
    eexists. reflexivity.
  - cbn [mret io_ret usable]. rewrite Hd2.
    rewrite HexFacts.hex_decode_encode, Hlen, (aead_inverse P L _ _ _ _ Hct).
    eexists. reflexivity.
Qed.

(** X20. Encryption under a tenant's secrets is deterministic, and it
    round-trips on the cache it leaves. When encrypting a plaintext
    returned a ciphertext: encrypting the same plaintext again, on the
    cache left behind, returns the same ciphertext (the nonce is fixed, so
    equal plaintexts are stored as equal ciphertexts); and decrypting on
    that cache gives the plaintext back when it is well-formed UTF-16, with
    no assumption on what the cache held when encryption started. *)
Theorem encrypt_deterministic P p salt nonce password c c1 ct :
  PlatformLaws P ->
  encryptDataWithNonce P p salt nonce password c = (Ok ct, c1) ->
  encryptDataWithNonce P p salt nonce password c1 = (Ok ct, c1) /\
  (forall cacheKey, cache_miss cacheKey c1 -> Utf8.well_formed p = true ->
     exists c2, decryptDataWithNonce P ct nonce salt password cacheKey c1 = (Ok p, c2)).
Proof.
  intros L He. split.
  - revert He. unfold encryptDataWithNonce, mbind, io_bind.
    destruct (deriveKey P password salt c) as [[key|e] c0] eqn:Hd; [|discriminate].
    destruct (aead_encrypt P (Utf8.encode p) (Hex.decode nonce) key) as [ct0|] eqn:Hct;
      [|discriminate].
    intros [= <- <-]. rewrite (deriveKey_again P password salt c key c0 L Hd).
    now rewrite Hct.
  - intros cacheKey Hmiss Hwf.
    destruct (decrypt_after_encrypt P p salt nonce password cacheKey c c1 ct L He Hmiss)
      as [c2 Hd].
    rewrite (Utf8Facts.utf8_decode_encode p Hwf) in Hd. eauto.
Qed.

End CacheFacts.

Module PiiFacts.
Import Crypto CryptoFacts CacheFacts Pii.

(** X21. What [storePII] returns can be decrypted. For a well-formed
    social security number and whatever the random salt and nonce were:
    the record holds them in hex; [decryptData] with the key derived from
    the password and the record's salt returns the number; and so does
    [decryptDataWithNonce] given the record's fields and the password, on
    the cache [storePII] left. It does return a record when the nonce has
    24 bytes, Argon2 accepts the salt and the cache holds nothing under
    the key derivation's entry. *)
Theorem storePII_roundtrip P random16 random24 ssn password c :
  PlatformLaws P ->
  Utf8.well_formed ssn = true ->
  (forall r c',
     storePII P random16 random24 ssn password c = (Ok r, c') ->
     stored_salt r = Hex.encode random16 /\ stored_nonce r = Hex.encode random24 /\
     (exists key,
        deriveKey P password (stored_salt r) c' = (Ok key, c') /\
        decryptData P (stored_ciphertext r) (stored_nonce r) key = Ok ssn) /\
     (forall cacheKey, cache_miss cacheKey c' ->
        exists c'', decryptDataWithNonce P (stored_ciphertext r) (stored_nonce r)
                      (stored_salt r) password cacheKey c' = (Ok ssn, c''))) /\
  (length random24 = 24%nat ->
   is_Some (argon2id P password random16) ->
   usable (c !! kdf_cache_key password (Hex.encode random16)) = None ->
   exists r c', storePII P random16 random24 ssn password c = (Ok r, c')).
Proof.
  intros L Hwf. split.
  - intros r c'. unfold storePII, generateSalt, mbind, io_bind.
    destruct (deriveKey P password (Hex.encode random16) c) as [[key|e] c0] eqn:Hd;
      [|discriminate].
    unfold encryptData.
    destruct (aead_encrypt P (Utf8.encode ssn) random24 key) as [ct0|] eqn:Hct;
      [|discriminate].
    cbn. intros [= <- <-]. cbn [stored_salt stored_nonce stored_ciphertext].
    pose proof (deriveKey_again P password _ c key c0 L Hd) as Hd2.
    assert (Hlen : (length ct0 <? ABYTES)%nat = false).
    { apply Nat.ltb_ge. rewrite (aead_length P L _ _ _ _ Hct). lia. }
    split; [reflexivity|]. split; [reflexivity|]. split.
    + exists key. split; [exact Hd2|]. unfold decryptData.
      rewrite !HexFacts.hex_decode_encode, Hlen, (aead_inverse P L _ _ _ _ Hct).
      now rewrite (Utf8Facts.utf8_decode_encode ssn Hwf).
    + intros cacheKey Hmiss.
      unfold decryptDataWithNonce, mbind, io_bind.
      destruct (usable cacheKey) as [k|] eqn:Hkey.
      * unfold cache_get at 1. rewrite (Hmiss k Hkey), Hd2.
        rewrite !HexFacts.hex_decode_encode, Hlen, (aead_inverse P L _ _ _ _ Hct).
        rewrite (Utf8Facts.utf8_decode_encode ssn Hwf). eexists. reflexivity.
      * cbn [mret io_ret usable]. rewrite Hd2.
        rewrite !HexFacts.hex_decode_encode, Hlen, (aead_inverse P L _ _ _ _ Hct).
        rewrite (Utf8Facts.utf8_decode_encode ssn Hwf). eexists. reflexivity.
  - intros Hn [key Hk] Hmiss. unfold storePII, generateSalt, mbind, io_bind.
    unfold deriveKey at 1, mbind, io_bind, cache_get. rewrite Hmiss.
    rewrite HexFacts.hex_decode_encode, Hk. cbn.
    unfold encryptData.
    destruct (aead_accepts P L (Utf8.encode ssn) random24 key Hn
                (argon2id_length P L _ _ _ Hk)) as [ct Hct].
    rewrite Hct. cbn. eauto.
Qed.

End PiiFacts.

Module VaultFacts.
Import Vault CacheFacts.

(** X22. The key vault is read through the cache. A secret that was
    read and is not empty, or that was written and is not empty, is
    answered from the cache afterwards: the same value comes back and the
    cache is untouched whatever the vault's client would now answer, also
    when it would throw. An empty secret is never cached: the read leaves
    the cache as it was. *)
Theorem vault_read_through getSecret setSecret name c v c' :
  (getValueFromKeyVault getSecret name c = (Ok v, c') ->
   if truthy v
   then forall getSecret', getValueFromKeyVault getSecret' name c' = (Ok v, c')
   else c' = c) /\
  (forall r,
     putValueInKeyVault setSecret name v c = (Ok r, c') -> truthy v = true ->
     forall getSecret', getValueFromKeyVault getSecret' name c' = (Ok v, c')).
Proof.
  assert (Hhit : forall getSecret' c0,
            usable (c0 !! name) = Some v ->
            getValueFromKeyVault getSecret' name c0 = (Ok v, c0)).
  { intros getSecret' c0 H. unfold getValueFromKeyVault, mbind, io_bind, cache_get.
    now rewrite H. }
  split.
  - unfold getValueFromKeyVault at 1, mbind, io_bind, cache_get.
    destruct (usable (c !! name)) as [v0|] eqn:Hv.
    + intros [= <- <-]. destruct (usable_Some _ _ Hv) as [_ Ht]. rewrite Ht. auto.
    + destruct (getSecret name) as [value|e]; [|discriminate].
      destruct (truthy (default [] value)) eqn:Ht.
      * cbn. intros [= <- <-]. rewrite Ht. intros getSecret'. apply Hhit.
        rewrite lookup_insert_eq. now apply usable_truthy.
      * intros [= <- <-]. now rewrite Ht.
  - intros r. unfold putValueInKeyVault, mbind, io_bind.
    destruct (setSecret name v) as [rname|e]; [|discriminate].
    cbn. intros [= <- <-] Ht getSecret'. apply Hhit.
    rewrite lookup_insert_eq. now apply usable_truthy.
Qed.

End VaultFacts.

Module SaveHookFacts.
Import Crypto Repo CryptoFacts CacheFacts SaveHook.

(** X23. What the save hook encrypts the read hook decrypts. With a
    tenant in the request context and its secrets at hand, a document whose
    field was modified and holds a non-empty, well-formed string is saved
    with the field encrypted; reading it back in the same context, on the
    cache the save left and with nothing cached for the document, returns
    the document as it was before the save. Outside a tenant context the
    save hook leaves the document as it is. *)
Theorem save_then_find P vault fieldName tenant s d v c d' c' :
  PlatformLaws P ->
  truthy tenant = true ->
  vault tenant = Some s ->
  field d = Some v -> truthy v = true -> Utf8.well_formed v = true ->
  pre_save P vault (Some tenant) true d c = (Ok d', c') ->
  usable (c' !! generateCacheKey fieldName (tenantId d) (_id d) (js "chats") (updatedAt d))
    = None ->
  (exists ct, field d' = Some ct /\
     encryptDataWithNonce P v (salt s) (nonce s) (encryptionPassword s) c = (Ok ct, c')) /\
  (exists c'', post_find P vault fieldName (Some tenant) (Single d') c' = (Ok (Single d), c'')) /\
  pre_save P vault None true d c = (Ok d, c).
Proof.
  intros L Ht Hs Hf Hv Hwf Hsave Hmiss.
  revert Hsave. unfold pre_save. rewrite (usable_truthy tenant Ht), Hs, Hf, (usable_truthy v Hv).
  unfold mbind at 1, io_bind at 1.
  destruct (encryptDataWithNonce P v (salt s) (nonce s) (encryptionPassword s) c)
    as [[ct|e] c0] eqn:He; [|discriminate].
  cbn. intros [= <- <-]. split; [eauto|]. split; [|reflexivity].
  assert (Hct : truthy ct = true).
  { revert He. unfold encryptDataWithNonce, mbind, io_bind.
    destruct (deriveKey P (encryptionPassword s) (salt s) c) as [[key|e] c1]; [|discriminate].
    destruct (aead_encrypt P (Utf8.encode v) (Hex.decode (nonce s)) key) as [ct0|] eqn:Hct;
      [|discriminate].
    intros [= <- <-].
    pose proof (aead_length P L _ _ _ _ Hct) as Hlen.
    destruct ct0 as [|b ct0]; [cbn in Hlen; unfold ABYTES in Hlen; lia|reflexivity]. }
  set (key := generateCacheKey fieldName (tenantId d) (_id d) (js "chats") (updatedAt d)) in *.
  destruct (decrypt_after_encrypt P v (salt s) (nonce s) (encryptionPassword s) (Some key)
              c c0 ct L He) as [c2 Hd].
  { intros k Hk. apply usable_Some in Hk as [[= <-] _]. exact Hmiss. }
  rewrite (Utf8Facts.utf8_decode_encode v Hwf) in Hd.
  exists c2. unfold post_find. cbn [usable]. rewrite Ht, Hs. unfold decryptFields.
  cbn [field _id tenantId updatedAt]. rewrite (usable_truthy ct Hct).
  fold key. unfold mbind, io_bind. rewrite Hd. cbn.
  destruct d as [i t u f]. cbn in Hf. now subst f.
Qed.

End SaveHookFacts.

Module DbFacts.
Import Db.

(** *** Plain objects *)

Lemma property_Own {A} (object : gmap string A) key a :
  property object key = Some (Own a) <-> object !! key = Some a.
Proof.
  unfold property. destruct (object !! key) as [a'|].
  - split; [now intros [= ->]|now intros [= ->]].
  - destruct (bool_decide _); split; discriminate.
Qed.

Lemma property_Inherited {A} (object : gmap string A) key member :
  property object key = Some (Inherited member) <->
  object !! key = None /\ key ∈ Object_prototype /\ member = key.
Proof.
  unfold property. destruct (object !! key) as [a'|].
  - split; [discriminate|now intros [? _]].
  - destruct (bool_decide (key ∈ Object_prototype)) eqn:Hd.
    + apply bool_decide_eq_true in Hd. split; [now intros [= <-]|now intros (_ & _ & ->)].
    + apply bool_decide_eq_false in Hd. split; [discriminate|now intros (_ & ? & _)].
Qed.

Lemma property_None {A} (object : gmap string A) key :
  property object key = None <-> object !! key = None /\ key ∉ Object_prototype.
Proof.
  unfold property. destruct (object !! key) as [a'|].
  - split; [discriminate|now intros [? _]].
  - destruct (bool_decide (key ∈ Object_prototype)) eqn:Hd.
    + apply bool_decide_eq_true in Hd. split; [discriminate|now intros [_ ?]].
    + apply bool_decide_eq_false in Hd. split; auto.
Qed.

Lemma property_insert_eq {A} (object : gmap string A) key a :
  property (<[key := a]> object) key = Some (Own a).
Proof. apply property_Own, lookup_insert_eq. Qed.

Lemma property_insert_ne {A} (object : gmap string A) key key' a :
  key' <> key -> property (<[key := a]> object) key' = property object key'.
Proof. intros Hne. unfold property. now rewrite lookup_insert_ne by congruence. Qed.

(** *** The pool *)

Lemma connectToTenantDB_spec creds t s :
  match connectToTenantDB creds t s with
  | (Ok held, s') =>
      property (connections s') t = Some held /\
      (forall t', t' <> t -> connections s' !! t' = connections s !! t') /\
      (property (connections s) t = Some held /\ s' = s \/
       exists c,
         held = Own c /\ property (connections s) t = None /\
         dbName c = ("tenant-" ++ t)%string /\
         created s' = created s ++ [c] /\ serial c = length (created s)) /\
      modelCache s' = modelCache s /\ initializedTenants s' = initializedTenants s
  | (Err _, s') => s' = s /\ property (connections s) t = None
  end.
Proof.
  unfold connectToTenantDB. destruct (property (connections s) t) as [held|] eqn:Hp.
  - repeat split; auto.
  - destruct creds as [[u p]|e]; [|auto].
    cbn [connections modelCache initializedTenants created dbName serial].
    rewrite property_insert_eq. repeat split; [|right; eauto 10].
    intros t' Hne. now rewrite lookup_insert_ne.
Qed.

Lemma connectToTenantDB_consistent creds t s :
  consistent s -> consistent (connectToTenantDB creds t s).2.
Proof.
  intros H. unfold connectToTenantDB.
  destruct (property (connections s) t) as [held|] eqn:Hl; [exact H|].
  destruct creds as [[u p]|e]; [|exact H].
  apply property_None in Hl as [Hl Hproto].
  destruct H as (Hc & Hm & Hi).
  cbn [snd]. split; [|split]; cbn [connections modelCache initializedTenants created].
  - intros t' c'. destruct (decide (t' = t)) as [->|Hne].
    + rewrite lookup_insert_eq. intros [= <-]. split; [reflexivity|]. split; [|exact Hproto].
      apply elem_of_app. right. left.
    + rewrite lookup_insert_ne by congruence. intros H.
      destruct (Hc t' c' H) as (H1 & H2 & H3).
      split; [exact H1|]. split; [|exact H3]. apply elem_of_app. now left.
  - intros t' m H. specialize (Hm t' m H). destruct (decide (t' = t)) as [->|Hne].
    + congruence.
    + now rewrite lookup_insert_ne by congruence.
  - intros t' H. destruct (decide (t' = t)) as [->|Hne].
    + rewrite property_insert_eq. eauto.
    + rewrite property_insert_ne by congruence. auto.
Qed.

Lemma connectToTenantDB_pooled creds t s held s' :
  connectToTenantDB creds t s = (Ok held, s') -> property (connections s') t = Some held.
Proof.
  intros H. pose proof (connectToTenantDB_spec creds t s) as Hs. rewrite H in Hs. tauto.
Qed.

Lemma getTenantModels_consistent creds t ctx s :
  consistent s -> consistent (getTenantModels creds t ctx s).2.
Proof.
  intros H. unfold getTenantModels.
  set (actual := match ctx with
                 | Some c => if bool_decide (c = "") then t else c
                 | None => t
                 end).
  destruct (property (modelCache s) actual) as [m|]; [exact H|].
  pose proof (connectToTenantDB_consistent creds actual s H) as H'.
  destruct (connectToTenantDB creds actual s) as [[[c|member]|e] s'] eqn:Hc;
    [|exact H'|exact H'].
  apply connectToTenantDB_pooled, property_Own in Hc.
  destruct H' as (Hc' & Hm' & Hi'). cbn [snd] in *.
  split; [|split]; cbn [connections modelCache initializedTenants created]; auto.
  intros t' m. destruct (decide (t' = actual)) as [->|Hne].
  - rewrite lookup_insert_eq. now intros [= <-].
  - rewrite lookup_insert_ne by congruence. auto.
Qed.

Lemma disconnected_consistent t s : consistent s -> consistent (disconnected t s).
Proof.
  intros (Hc & Hm & Hi). split; [|split]; cbn [disconnected connections modelCache
                                              initializedTenants created]; auto.
  intros t' m H. apply lookup_delete_Some in H as [_ H]. auto.
Qed.

Lemma initializeTenantDB_consistent creds t s :
  consistent s -> consistent (initializeTenantDB creds t s).2.
Proof.
  intros H. unfold initializeTenantDB.
  destruct (bool_decide (t ∈ initializedTenants s)); [exact H|].
  pose proof (connectToTenantDB_consistent creds t s H) as H'.
  destruct (connectToTenantDB creds t s) as [[held|e] s'] eqn:Hc; [|exact H'].
  pose proof (connectToTenantDB_pooled _ _ _ _ _ Hc) as Hp.
  destruct H' as (Hc' & Hm' & Hi'). cbn [snd] in *.
  split; [|split]; cbn [connections modelCache initializedTenants created]; auto.
  intros t' [->%elem_of_singleton|Hin]%elem_of_union; eauto.
Qed.

Lemma ensure_state creds t s :
  (ensureTenantDatabaseExists creds t s).2 = (initializeTenantDB creds t s).2.
Proof.
  unfold ensureTenantDatabaseExists. now destruct (initializeTenantDB creds t s) as [[c|e] s'].
Qed.

Lemma reset_consistent t s : consistent s -> consistent (resetTenantInitialization t s).
Proof.
  intros (Hc & Hm & Hi). split; [|split]; cbn [resetTenantInitialization connections
                                              modelCache initializedTenants created]; auto.
  intros t' [H _]%elem_of_difference. auto.
Qed.

Lemma socket_state creds t s :
  (socketGetTenantModels creds t s).2
  = (getTenantModels creds t None (ensureTenantDatabaseExists creds t s).2).2 \/
  (ensureTenantDatabaseExists creds t s).1 = false /\
  (socketGetTenantModels creds t s).2 = (ensureTenantDatabaseExists creds t s).2.
Proof.
  unfold socketGetTenantModels.
  destruct (ensureTenantDatabaseExists creds t s) as [[|] s1]; cbn [fst snd]; [left|now right].
  now destruct (getTenantModels creds t None s1) as [[[m|member]|e] s2].
Qed.

Lemma socketGetTenantModels_consistent creds t s :
  consistent s -> consistent (socketGetTenantModels creds t s).2.
Proof.
  intros H.
  pose proof (initializeTenantDB_consistent creds t s H) as H'.
  rewrite <- ensure_state in H'.
  destruct (socket_state creds t s) as [-> | [_ ->]]; [|exact H'].
  now apply getTenantModels_consistent.
Qed.

Lemma perform_consistent s op : consistent s -> consistent (perform s op).
Proof.
  intros H. destruct op; cbn [perform].
  - now apply connectToTenantDB_consistent.
  - now apply getTenantModels_consistent.
  - now apply disconnected_consistent.
  - now apply initializeTenantDB_consistent.
  - rewrite ensure_state. now apply initializeTenantDB_consistent.
  - now apply reset_consistent.
  - now apply socketGetTenantModels_consistent.
Qed.

Lemma initial_consistent : consistent initial.
Proof.
  split; [|split]; cbn [initial connections modelCache initializedTenants].
  - intros t c. now rewrite lookup_empty.
  - intros t m. now rewrite lookup_empty.
  - intros t H. now apply not_elem_of_empty in H.
Qed.

Lemma after_consistent ops : consistent (after ops).
Proof.
  unfold after. generalize initial_consistent. generalize initial.
  induction ops as [|op ops IH]; intros s H; cbn [fold_left]; [exact H|].
  apply IH. now apply perform_consistent.
Qed.

(** On a consistent pool, neither object holds anything under the name of
    a member of the prototype: both answer with the member. *)
Lemma prototype_names_inherited s t :
  consistent s -> t ∈ Object_prototype ->
  property (connections s) t = Some (Inherited t) /\
  property (modelCache s) t = Some (Inherited t).
Proof.
  intros (Hc & Hm & _) Ht.
  assert (connections s !! t = None) as Hnone.
  { destruct (connections s !! t) as [c|] eqn:E; [|reflexivity].
    now destruct (Hc t c E) as (_ & _ & ?). }
  split; apply property_Inherited; repeat split; auto.
  destruct (modelCache s !! t) as [m|] eqn:E; [|reflexivity].
  rewrite (Hm t m E) in Hnone. discriminate.
Qed.

Lemma getTenantModels_bound creds t ctx s held s' :
  consistent s ->
  getTenantModels creds t ctx s = (Ok held, s') ->
  let actual := match ctx with
                | Some c => if bool_decide (c = "") then t else c
                | None => t
                end in
  match held with
  | Own m =>
      dbName (connection m) = ("tenant-" ++ actual)%string /\ (actual ∉ Object_prototype) /\
      connections s' !! actual = Some (connection m)
  | Inherited member => member = actual /\ actual ∈ Object_prototype /\ s' = s
  end.
Proof.
  intros H Hg actual.
  pose proof (getTenantModels_consistent creds t ctx s H) as (Hc & Hm & _).
  rewrite Hg in Hc, Hm. cbn [snd] in *.
  revert Hg. unfold getTenantModels. fold actual.
  destruct (property (modelCache s) actual) as [held0|] eqn:Hl.
  - intros [= <- <-]. destruct held0 as [m|member].
    + apply property_Own in Hl. pose proof (Hm actual m Hl) as Hcm.
      destruct (Hc actual _ Hcm) as (H1 & _ & H3). auto.
    + apply property_Inherited in Hl as (_ & H2 & H3). auto.
  - destruct (connectToTenantDB creds actual s) as [[[c|member]|e] s0] eqn:Hcn;
      [|discriminate|discriminate].
    intros [= <- <-]. cbn [connection]. cbn [modelCache connections] in *.
    pose proof (Hm actual {| connection := c |} (lookup_insert_eq _ _ _)) as Hcm.
    destruct (Hc actual _ Hcm) as (H1 & _ & H3). auto.
Qed.

Lemma ensure_true creds t s s1 :
  ensureTenantDatabaseExists creds t s = (true, s1) ->
  t ∈ initializedTenants s1 /\ is_Some (property (connections s1) t) /\
  modelCache s1 = modelCache s.
Proof.
  unfold ensureTenantDatabaseExists, initializeTenantDB, getTenantConnection.
  destruct (bool_decide (t ∈ initializedTenants s)) eqn:Hd.
  - apply bool_decide_eq_true in Hd.
    destruct (property (connections s) t) as [held|] eqn:Hp; [|discriminate].
    intros [= <-]. rewrite Hp. eauto.
  - pose proof (connectToTenantDB_spec creds t s) as Hs.
    destruct (connectToTenantDB creds t s) as [[held|e] s0]; [|discriminate].
    intros [= <-]. cbn [initializedTenants connections modelCache].
    destruct Hs as (Hp & _ & _ & Hmc & _). rewrite Hp.
    split; [|eauto]. apply elem_of_union. left. now apply elem_of_singleton.
Qed.

Lemma getTenantModels_initialized creds t ctx s :
  initializedTenants (getTenantModels creds t ctx s).2 = initializedTenants s.
Proof.
  unfold getTenantModels.
  match goal with |- context [property (modelCache s) ?a] => set (actual := a) end.
  destruct (property (modelCache s) actual); [reflexivity|].
  pose proof (connectToTenantDB_spec creds actual s) as Hs.
  destruct (connectToTenantDB creds actual s) as [[[c|member]|e] s0]; cbn [snd].
  - cbn [initializedTenants]. tauto.
  - tauto.
  - now destruct Hs as [-> _].
Qed.

Lemma socketGetTenantModels_bound creds t s models s' :
  consistent s ->
  socketGetTenantModels creds t s = (Ok models, s') ->
  t ∈ initializedTenants s' /\
  match models with
  | Some m => dbName (connection m) = ("tenant-" ++ t)%string /\ t ∉ Object_prototype
  | None =>
      t ∈ Object_prototype /\ connections s' = connections s /\ created s' = created s
  end.
Proof.
  intros H. unfold socketGetTenantModels.
  pose proof (initializeTenantDB_consistent creds t s H) as H'.
  rewrite <- ensure_state in H'.
  destruct (ensureTenantDatabaseExists creds t s) as [[|] s1] eqn:He; [|discriminate].
  cbn [snd] in H'. destruct (ensure_true creds t _ s1 He) as (Hin & _ & _).
  pose proof (getTenantModels_initialized creds t None s1) as Hinit.
  pose proof (getTenantModels_bound creds t None s1) as Hb.
  destruct (getTenantModels creds t None s1) as [[[m|member]|e] s2]; [| |discriminate].
  - intros [= <- <-]. cbn [snd] in Hinit. rewrite Hinit. split; [exact Hin|].
    specialize (Hb (Own m) s2 H' eq_refl). cbn in Hb. tauto.
  - intros [= <- <-]. cbn [snd] in Hinit. rewrite Hinit. split; [exact Hin|].
    specialize (Hb (Inherited member) s2 H' eq_refl). cbn in Hb.
    destruct Hb as (_ & Hproto & ->). split; [exact Hproto|].
    destruct (prototype_names_inherited s t H Hproto) as [Hpc _].
    revert He. unfold ensureTenantDatabaseExists, initializeTenantDB, getTenantConnection,
      connectToTenantDB.
    rewrite Hpc. destruct (bool_decide _); intros [= <-]; auto.
Qed.

(** What an answer [true] of [ensureTenantDatabaseExists] stands for: the
    tenant is initialized, and either it has a pooled connection or it is
    named as a member of the prototype is, and then nothing was connected
    and the key vault was not asked. *)
Lemma ensure_true_cases creds t s s1 :
  ensureTenantDatabaseExists creds t s = (true, s1) ->
  t ∈ initializedTenants s1 /\
  (is_Some (connections s1 !! t) \/
   t ∈ Object_prototype /\ connections s1 !! t = None /\
   connections s1 = connections s /\ created s1 = created s /\
   forall creds', ensureTenantDatabaseExists creds' t s = (true, s1)).
Proof.
  intros He. destruct (ensure_true creds t s s1 He) as (Hin & [held Hheld] & _).
  split; [exact Hin|]. destruct held as [c|member].
  - left. apply property_Own in Hheld. eauto.
  - right. apply property_Inherited in Hheld as (Hnone & Hproto & _).
    split; [exact Hproto|]. split; [exact Hnone|].
    revert He Hnone. unfold ensureTenantDatabaseExists, initializeTenantDB,
      getTenantConnection, connectToTenantDB.
    destruct (bool_decide (t ∈ initializedTenants s)).
    + destruct (property (connections s) t); [|discriminate]. now intros [= <-].
    + destruct (property (connections s) t) as [held|] eqn:Hp.
      * now intros [= <-].
      * destruct creds as [[u p]|e]; [|discriminate].
        intros [= <-]. cbn [connections]. now rewrite lookup_insert_eq.
Qed.

(** X24. The models handed out for a tenant are built on a connection
    to that tenant's database, unless the tenant is named as a member of
    [Object.prototype] is. After any sequence of calls of the pool and of
    the tenant database service, started on a fresh process:
    [getTenantModels] returns models on the database [tenant-<id>] of the
    tenant asked for, or of the context tenant when the request carries
    one, that connection being the pooled one; for a name of the prototype
    it returns the member of that name, and nothing is connected. The
    socket manager's [getTenantModels] returns models on the database of
    the socket's tenant, or for a name of the prototype three models that
    are [undefined], and leaves that tenant initialized; for such a name it
    returns whatever the key vault answers. And for an initialized tenant
    [initializeTenantDB] returns at once, without the [No active
    connection] exception and without changing anything. *)
Theorem tenant_models_bound ops :
  consistent (after ops) /\
  (forall creds t ctx held s',
     getTenantModels creds t ctx (after ops) = (Ok held, s') ->
     let actual := match ctx with
                   | Some c => if bool_decide (c = "") then t else c
                   | None => t
                   end in
     match held with
     | Own m =>
         dbName (connection m) = ("tenant-" ++ actual)%string /\
         (actual ∉ Object_prototype) /\
         connections s' !! actual = Some (connection m)
     | Inherited member => member = actual /\ actual ∈ Object_prototype /\ s' = after ops
     end) /\
  (forall creds t models s',
     socketGetTenantModels creds t (after ops) = (Ok models, s') ->
     t ∈ initializedTenants s' /\
     match models with
     | Some m => dbName (connection m) = ("tenant-" ++ t)%string /\ t ∉ Object_prototype
     | None =>
         t ∈ Object_prototype /\ connections s' = connections (after ops) /\
         created s' = created (after ops)
     end) /\
  (forall creds t,
     t ∈ Object_prototype ->
     exists s', socketGetTenantModels creds t (after ops) = (Ok None, s')) /\
  (forall creds t,
     t ∈ initializedTenants (after ops) ->
     exists held, initializeTenantDB creds t (after ops) = (Ok held, after ops)).
Proof.
  pose proof (after_consistent ops) as H. split; [exact H|]. split; [|split; [|split]].
  - intros creds t ctx held s'. now apply getTenantModels_bound.
  - intros creds t models s'. now apply socketGetTenantModels_bound.
  - intros creds t Hproto.
    destruct (prototype_names_inherited (after ops) t H Hproto) as [Hpc Hpm].
    unfold socketGetTenantModels, ensureTenantDatabaseExists, initializeTenantDB,
      getTenantConnection, connectToTenantDB.
    rewrite Hpc.
    destruct (bool_decide _); unfold getTenantModels; cbn [modelCache]; rewrite Hpm; eauto.
  - intros creds t Hin. destruct H as (_ & _ & Hi). destruct (Hi t Hin) as [held Hheld].
    exists held. unfold initializeTenantDB, getTenantConnection.
    now rewrite bool_decide_eq_true_2, Hheld.
Qed.

Lemma ensure_initialized creds t s held :
  t ∈ initializedTenants s -> property (connections s) t = Some held ->
  ensureTenantDatabaseExists creds t s = (true, s).
Proof.
  intros Hi Hc. unfold ensureTenantDatabaseExists, initializeTenantDB, getTenantConnection.
  now rewrite bool_decide_eq_true_2, Hc.
Qed.

Lemma ensure_pooled creds t s held :
  t ∉ initializedTenants s -> property (connections s) t = Some held ->
  ensureTenantDatabaseExists creds t s
  = (true, {| connections := connections s; modelCache := modelCache s;
              initializedTenants := {[t]} ∪ initializedTenants s;
              created := created s |}).
Proof.
  intros Hi Hc. unfold ensureTenantDatabaseExists, initializeTenantDB, connectToTenantDB.
  now rewrite bool_decide_eq_false_2, Hc.
Qed.

Lemma ensure_after_reset creds t s held :
  t ∈ initializedTenants s -> property (connections s) t = Some held ->
  ensureTenantDatabaseExists creds t (resetTenantInitialization t s) = (true, s).
Proof.
  intros Hi Hc.
  rewrite (ensure_pooled creds t (resetTenantInitialization t s) held).
  - cbn [resetTenantInitialization connections modelCache initializedTenants created].
    destruct s as [cn mc it cr]. cbn in *. do 2 f_equal.
    apply set_eq. intros x.
    rewrite elem_of_union, elem_of_difference, elem_of_singleton.
    destruct (decide (x = t)) as [->|]; tauto.
  - cbn. intros [_ H]%elem_of_difference. apply H. now apply elem_of_singleton.
  - exact Hc.
Qed.

(** X25. One call after the other, the tenant database service connects
    once. When [ensureTenantDatabaseExists] answers [true], a later call for
    the same tenant answers [true] and changes nothing, whatever the key
    vault would now answer; and after [resetTenantInitialization] the next
    call answers [true] again with the pooled connection: no connection is
    created, the reset only makes the service ask the pool. When it answers
    [false] nothing has changed: a later call tries again. *)
Theorem ensure_once creds creds' t s :
  match ensureTenantDatabaseExists creds t s with
  | (true, s1) =>
      ensureTenantDatabaseExists creds' t s1 = (true, s1) /\
      ensureTenantDatabaseExists creds' t (resetTenantInitialization t s1) = (true, s1) /\
      (length (created s1) <= S (length (created s)))%nat
  | (false, s2) => s2 = s
  end.
Proof.
  destruct (decide (t ∈ initializedTenants s)) as [Hi|Hi].
  - destruct (property (connections s) t) as [held|] eqn:Hc.
    + rewrite (ensure_initialized creds t s held Hi Hc).
      split; [now apply (ensure_initialized creds' t s held)|].
      split; [now apply (ensure_after_reset creds' t s held)|lia].
    + unfold ensureTenantDatabaseExists, initializeTenantDB, getTenantConnection.
      now rewrite bool_decide_eq_true_2, Hc.
  - destruct (property (connections s) t) as [held|] eqn:Hc.
    + rewrite (ensure_pooled creds t s held Hi Hc).
      assert (t ∈ {[t]} ∪ initializedTenants s) as Hin
        by (apply elem_of_union; left; now apply elem_of_singleton).
      split; [now apply (ensure_initialized creds' t _ held)|].
      split; [now apply (ensure_after_reset creds' t _ held)|cbn; lia].
    + unfold ensureTenantDatabaseExists at 1. unfold initializeTenantDB, connectToTenantDB.
      rewrite bool_decide_eq_false_2, Hc by assumption.
      destruct creds as [[u p]|e]; [|reflexivity].
      set (c := {| serial := length (created s); dbName := ("tenant-" ++ t)%string;
                   username := u; password := p |}).
      assert (t ∈ {[t]} ∪ initializedTenants s) as Hin
        by (apply elem_of_union; left; now apply elem_of_singleton).
      split; [|split; [|cbn; rewrite length_app; cbn; lia]].
      * apply (ensure_initialized creds' t _ (Own c)); [exact Hin|]. cbn.
        apply property_insert_eq.
      * apply (ensure_after_reset creds' t _ (Own c)); [exact Hin|]. cbn.
        apply property_insert_eq.
Qed.

(** X26. Two calls of [connectToTenantDB] that overlap create two
    connections. On a pool where [connections[tenantId]] is [undefined],
    when the second call enters before the first has come back from the
    key vault, both pass the test of the pool and each creates a connection
    to the tenant's database; the pool keeps the second, and the first
    caller holds a connection the pool does not know. One call after the
    other, a single connection is created and both callers get it. *)
Theorem overlapping_connects_create_two u p t s :
  property (connections s) t = None ->
  let overlapped := interleave (Ok (u, p)) [0; 1; 0; 1]%nat [Entered t; Entered t] s in
  let in_turn := interleave (Ok (u, p)) [0; 0; 1; 1]%nat [Entered t; Entered t] s in
  (exists c1 c2,
     overlapped.1 = [Returned (Own c1); Returned (Own c2)] /\
     created overlapped.2 = created s ++ [c1; c2] /\
     dbName c1 = ("tenant-" ++ t)%string /\ dbName c2 = ("tenant-" ++ t)%string /\
     S (serial c1) = serial c2 /\
     connections overlapped.2 !! t = Some c2) /\
  (exists c, in_turn.1 = [Returned (Own c); Returned (Own c)] /\
             created in_turn.2 = created s ++ [c] /\
             connections in_turn.2 !! t = Some c).
Proof.
  intros Hc overlapped in_turn. split.
  - subst overlapped. cbn [interleave lookup list_lookup resume]. rewrite Hc.
    cbn [list_insert insert lookup list_lookup resume connections created].
    rewrite Hc. cbn [list_insert insert lookup list_lookup resume connections created fst snd].
    eexists _, _. split; [reflexivity|]. split; [now rewrite <- app_assoc|].
    split; [reflexivity|]. split; [reflexivity|]. split.
    + cbn [serial]. rewrite length_app. cbn. lia.
    + apply lookup_insert_eq.
  - subst in_turn. cbn [interleave lookup list_lookup resume]. rewrite Hc.
    cbn [list_insert insert lookup list_lookup resume connections created].
    rewrite property_insert_eq.
    cbn [list_insert insert lookup list_lookup resume connections created fst snd].
    eexists. split; [reflexivity|]. split; [reflexivity|]. apply lookup_insert_eq.
Qed.

End DbFacts.

Module TenancyFacts.
Import Engine EngineFacts Db Tenancy.

Lemma tenant_database_injective t1 t2 :
  ("tenant-" ++ t1)%string = ("tenant-" ++ t2)%string -> t1 = t2.
Proof. cbn. intros H. injection H as H. exact H. Qed.

Lemma no_documents_tagged t : tagged t no_documents.
Proof. split; constructor. Qed.

(** With no document anywhere, each tenant's database holds only its own. *)
Lemma no_documents_isolated s : isolated {| router := s; databases := ∅ |}.
Proof. intros t. unfold database. cbn. rewrite lookup_empty. apply no_documents_tagged. Qed.

Lemma after_snoc ops op : after (ops ++ [op]) = perform (after ops) op.
Proof. unfold after. now rewrite fold_left_app. Qed.

Section Events.
Context {bson : Bson}.
Context (iam : ObjectId -> TenantId -> string -> option IUser).

(** An event on a socket is handled on the database of the socket's
    tenant, or not at all. *)
Lemma onEvent_cases creds socket others now newId r s dbs :
  consistent s ->
  let w := {| router := s; databases := dbs |} in
  let name := ("tenant-" ++ Socket.tenantId socket)%string in
  router (onEvent iam creds socket others now newId r w).1
    = (socketGetTenantModels creds (Socket.tenantId socket) s).2 /\
  ((onEvent iam creds socket others now newId r w).2 = [] /\
   databases (onEvent iam creds socket others now newId r w).1 = dbs \/
   (onEvent iam creds socket others now newId r w).2
     = (handle iam socket others now newId r (database name w)).2 /\
   databases (onEvent iam creds socket others now newId r w).1
     = <[name := (handle iam socket others now newId r (database name w)).1]> dbs).
Proof.
  intros Hs w name. unfold onEvent. subst w. cbn [router databases].
  pose proof (DbFacts.socketGetTenantModels_bound creds (Socket.tenantId socket) s) as Hb.
  destruct (socketGetTenantModels creds (Socket.tenantId socket) s) as [[[m|]|e] s1];
    cbn [fst snd]; [|auto|auto].
  destruct (Hb (Some m) s1 Hs eq_refl) as (_ & -> & _). fold name.
  destruct (handle iam socket others now newId r _) as [st' events].
  cbn [fst snd router databases]. auto.
Qed.

End Events.

(** C1. The documents of a tenant are in the database [tenant-<id>] that
    the pool connects the tenant's models to. Take any sequence of calls of
    the pool and of the tenant database service, any documents in the
    databases, and a request handled on a socket of tenant [t1]. Every
    database but [t1]'s, and so that of every other tenant [t2], is left as
    it was; the documents handed to clients are documents of [t1]'s
    database; a database of [t1] that holds only documents tagged [t1]
    still does, so that when each tenant's database holds only that
    tenant's documents, which is the case when there are none, this stays
    so; and the pool is left as the socket manager's [getTenantModels]
    leaves it, with each pooled connection to its tenant's database.
    Besides, whatever a database holds, the unread count for [t1] is the
    same with or without the documents tagged [t2], and a message history
    for [t1] has only messages tagged [t1]. *)
Theorem tenant_isolation {bson : Bson} iam creds socket others now newId r ops dbs t2 :
  t2 <> Socket.tenantId socket ->
  let t1 := Socket.tenantId socket in
  let w := {| router := after ops; databases := dbs |} in
  let w' := (onEvent iam creds socket others now newId r w).1 in
  let events := (onEvent iam creds socket others now newId r w).2 in
  database ("tenant-" ++ t2) w' = database ("tenant-" ++ t2) w /\
  (forall name, name <> ("tenant-" ++ t1)%string -> database name w' = database name w) /\
  (forall e, e ∈ events -> from_store (database ("tenant-" ++ t1) w') (what e)) /\
  (tagged t1 (database ("tenant-" ++ t1) w) -> tagged t1 (database ("tenant-" ++ t1) w')) /\
  (isolated w -> isolated w') /\
  (forall s, isolated {| router := s; databases := ∅ |}) /\
  router w' = after (ops ++ [SocketGetTenantModels creds t1]) /\
  consistent (router w') /\
  (forall c u st,
     getUnreadCount c u t1 st =
     getUnreadCount c u t1
       {| messages := List.filter (fun m => negb (bool_decide (Message.tenantId m = t2)))
                        (messages st);
          chats := chats st; users := users st |}) /\
  (forall c page st e ms hasMore total currentPage m,
     e ∈ (getMessageHistory iam socket c page st).2 ->
     what e = messageHistory ms hasMore total currentPage ->
     m ∈ map fst ms ->
     Message.tenantId m <> t2).
Proof.
  intros Hne t1 w w' events.
  pose proof (DbFacts.after_consistent ops) as Hs.
  destruct (onEvent_cases iam creds socket others now newId r (after ops) dbs Hs)
    as [Hrouter Hcases].
  fold w in Hrouter, Hcases. fold w' in Hrouter, Hcases. fold events in Hcases.
  fold t1 in Hrouter, Hcases.
  set (name := ("tenant-" ++ t1)%string) in *.
  set (st := database name w) in *.
  assert (Hother : forall name', name' <> name -> database name' w' = database name' w).
  { intros name' Hn. unfold database.
    destruct Hcases as [[_ ->] | [_ ->]]; [reflexivity|].
    cbn [databases]. now rewrite lookup_insert_ne by congruence. }
  assert (Hown : database name w' = st \/
                 database name w' = (handle iam socket others now newId r st).1).
  { destruct Hcases as [[_ Hdb] | [_ Hdb]]; [left|right]; unfold database at 1; rewrite Hdb.
    - reflexivity.
    - now rewrite lookup_insert_eq. }
  assert (Htag : tagged t1 st -> tagged t1 (database name w')).
  { intros Ht. destruct Hown as [-> | ->]; [exact Ht|].
    now apply (handle_tagged iam socket others now newId r st). }
  split; [|split; [|split; [|split; [|split; [|split; [|split; [|split; [|split]]]]]]]].
  - apply Hother. intros Heq. apply Hne. now apply tenant_database_injective.
  - exact Hother.
  - intros e He. destruct Hcases as [[Hev _] | [Hev Hdb]].
    + rewrite Hev in He. inversion He.
    + rewrite Hev in He. unfold database. rewrite Hdb, lookup_insert_eq. cbn [default].
      now apply handle_from_store.
  - exact Htag.
  - intros Hw t. destruct (decide (t = t1)) as [->|Ht].
    + apply Htag, Hw.
    + rewrite Hother; [apply Hw|].
      intros Heq. apply Ht. now apply tenant_database_injective.
  - apply no_documents_isolated.
  - rewrite Hrouter. now rewrite after_snoc.
  - rewrite Hrouter. now apply DbFacts.socketGetTenantModels_consistent.
  - intros c u st0. unfold getUnreadCount. cbn [messages].
    now apply unread_count_ignores_other_tenants.
  - intros c page st0 e ms hasMore total currentPage m He Hw' Hm.
    rewrite (getMessageHistory_own_tenant iam socket c page st0 e ms hasMore total
               currentPage m He Hw' Hm).
    intros Heq. apply Hne. symmetry. exact Heq.
Qed.

End TenancyFacts.

Module UserCacheFacts.
Import Engine UserCache.

(** X27. The user cache is keyed by the user alone. Once [getUser] has
    returned a user, asked for under any tenant, the cache holds that user,
    and for as long as the entry is within its five minutes [getUser]
    returns it for whatever tenant it is asked, and [getUsers] likewise,
    without calling the identity service and without touching the cache. *)
Theorem user_cache_ignores_tenant getUserById now fetchedAt userId tenantId c user c' :
  getUser getUserById now fetchedAt userId tenantId c = (Ok (Some user), c') ->
  exists entry,
    c' !! cacheKey userId = Some entry /\ data entry = user /\
    forall getUserById' getUsersByIds' now' fetchedAt' tenantId',
      isCacheValid now' entry = true ->
      getUser getUserById' now' fetchedAt' userId tenantId' c' = (Ok (Some user), c') /\
      getUsers getUsersByIds' now' fetchedAt' [userId] tenantId' c' = (Ok [user], c').
Proof.
  intros H.
  assert (exists entry, c' !! cacheKey userId = Some entry /\ data entry = user)
    as (entry & Hl & Hd).
  { revert H. unfold getUser, cached.
    destruct (c !! cacheKey userId) as [e|] eqn:He.
    - destruct (isCacheValid now e).
      + intros [= <- <-]. eauto.
      + destruct (getUserById userId tenantId) as [[u|]|]; try discriminate.
        intros [= <- <-]. rewrite lookup_insert_eq. eauto.
    - destruct (getUserById userId tenantId) as [[u|]|]; try discriminate.
      intros [= <- <-]. rewrite lookup_insert_eq. eauto. }
  exists entry. split; [exact Hl|]. split; [exact Hd|].
  intros getUserById' getUsersByIds' now' fetchedAt' tenantId' Hv.
  assert (Hc : cached now' userId c' = Some user).
  { unfold cached. now rewrite Hl, Hv, Hd. }
  split.
  - unfold getUser. now rewrite Hc.
  - unfold getUsers. cbn [omap list_omap List.filter]. rewrite Hc.
    rewrite bool_decide_eq_true_2 by eauto. reflexivity.
Qed.

End UserCacheFacts.

Module SocketAuthFacts.
Import Engine Db SocketAuth.

Lemma given_Some o s : Presence.given o = Some s -> o = Some s /\ s <> "".
Proof.
  destruct o as [x|]; [|discriminate]. cbn.
  destruct (bool_decide (x = "")) eqn:Hd; [discriminate|].
  apply bool_decide_eq_false in Hd. now intros [= <-].
Qed.

(** X28. A socket is let in only with a verified token and a tenant that
    the tenant database service answers for. When the middleware calls
    [next()] without an error: some non-empty token was verified as valid
    and decoded; the socket's [userId] and [tenantId] are those decoded
    from it, not anything the client sent beside the token; the tenant id
    is not empty and the tenant is initialized. Either the tenant has a
    pooled connection, or its id is the name of a member of
    [Object.prototype]: then nothing is pooled for it, no connection was
    created, and the socket is let in whatever the key vault answers. And
    unless the token was already in [socket.data], it is what follows
    ["Bearer "] in the handshake's [auth.token] (or, that being empty, in
    the [authorization] header): a bare token is refused. *)
Theorem socket_accepted_only_verified verifyToken creds id h s socket s' :
  socketTenantMiddleware verifyToken creds id h s = (Accepted socket, s') ->
  exists token decoded,
    verifyToken token = Ok (true, Some decoded) /\ token <> "" /\
    socket = Socket.mk id (decoded_userId decoded) (Socket.tenantId socket) (Some token) [] /\
    decoded_tenantId decoded = Some (Socket.tenantId socket) /\
    Socket.tenantId socket <> "" /\
    Socket.tenantId socket ∈ initializedTenants s' /\
    (is_Some (connections s' !! Socket.tenantId socket) \/
     Socket.tenantId socket ∈ Object_prototype /\
     connections s' !! Socket.tenantId socket = None /\
     connections s' = connections s /\ created s' = created s /\
     forall creds', socketTenantMiddleware verifyToken creds' id h s = (Accepted socket, s')) /\
    (Presence.given (data_token h) = None ->
     exists authHeader,
       Presence.given (Presence.or_else (auth_token h) (authorization h)) = Some authHeader /\
       String.prefix "Bearer " authHeader = true /\
       split_1 authHeader = Some token).
Proof.
  unfold socketTenantMiddleware.
  destruct (validateSocketAuth verifyToken h) as [[token decoded]|] eqn:Hv; [|discriminate].
  destruct (Presence.given (decoded_tenantId decoded)) as [tenantId|] eqn:Ht; [|discriminate].
  destruct (ensureTenantDatabaseExists creds tenantId s) as [[|] s1] eqn:He; [|discriminate].
  intros [= <- <-]. cbn [Socket.tenantId].
  apply given_Some in Ht as [Ht Hne].
  exists token, decoded.
  assert (Htok : verifyToken token = Ok (true, Some decoded) /\ token <> "" /\
                 (Presence.given (data_token h) = None ->
                  exists authHeader,
                    Presence.given (Presence.or_else (auth_token h) (authorization h))
                      = Some authHeader /\
                    String.prefix "Bearer " authHeader = true /\
                    split_1 authHeader = Some token)).
  { revert Hv. unfold validateSocketAuth.
    destruct (Presence.given (data_token h)) as [t0|] eqn:Hd.
    - apply given_Some in Hd as [_ Hd].
      destruct (verifyToken t0) as [[[|] [d|]]|] eqn:Hvt; try discriminate.
      intros [= <- <-]. split; [exact Hvt|]. split; [exact Hd|discriminate].
    - destruct (Presence.given (Presence.or_else (auth_token h) (authorization h)))
        as [authHeader|] eqn:Ha; [|discriminate].
      destruct (String.prefix "Bearer " authHeader) eqn:Hp; [|discriminate].
      destruct (Presence.given (split_1 authHeader)) as [t0|] eqn:Hs; [|discriminate].
      apply given_Some in Hs as [Hs Hs'].
      destruct (verifyToken t0) as [[[|] [d|]]|] eqn:Hvt; try discriminate.
      intros [= <- <-]. split; [exact Hvt|]. split; [exact Hs'|]. eauto. }
  destruct Htok as (H1 & H2 & H3).
  split; [exact H1|]. split; [exact H2|]. split; [reflexivity|]. split; [exact Ht|].
  split; [exact Hne|].
  destruct (DbFacts.ensure_true_cases creds tenantId s s1 He)
    as (Hi & [Hc | (Hproto & Hnone & Hconn & Hcreated & Hany)]).
  - auto.
  - split; [exact Hi|]. split; [|exact H3]. right.
    split; [exact Hproto|]. split; [exact Hnone|]. split; [exact Hconn|].
    split; [exact Hcreated|]. intros creds'. now rewrite (Hany creds').
Qed.

End SocketAuthFacts.

Module PermissionsFacts.
Import Permissions.

Lemma PModule_ind (P : PModule -> Prop) :
  (forall k1 k2 a1 a2 subs, Forall P subs -> P (Mod k1 k2 a1 a2 subs)) ->
  forall m, P m.
Proof.
  intros H. fix IH 1. intros [k1 k2 a1 a2 subs]. apply H.
  induction subs as [|x subs IHs]; constructor; [apply IH|exact IHs].
Qed.

Lemma last_snoc_filter (f : PModule -> bool) l1 l2 :
  last (List.filter f (l1 ++ l2))
  = match last (List.filter f l2) with
    | Some y => Some y
    | None => last (List.filter f l1)
    end.
Proof. rewrite List.filter_app. apply last_app. Qed.

Lemma forest_lookup k (ms : list PModule) :
  Forall (fun m => forall map,
            visit m map !! k
            = match last (List.filter (has_key k) (preorder m)) with
              | Some x => Some x
              | None => map !! k
              end) ms ->
  forall map,
    fold_left (fun map m => visit m map) ms map !! k
    = match last (List.filter (has_key k) (flat_map preorder ms)) with
      | Some x => Some x
      | None => map !! k
      end.
Proof.
  induction 1 as [|m ms Hm _ IH]; intros map; cbn [fold_left flat_map]; [reflexivity|].
  rewrite IH, Hm, last_snoc_filter.
  now destruct (last (List.filter (has_key k) (flat_map preorder ms))).
Qed.

Lemma visit_lookup k m : forall map,
  visit m map !! k
  = match last (List.filter (has_key k) (preorder m)) with
    | Some x => Some x
    | None => map !! k
    end.
Proof.
  induction m as [k1 k2 a1 a2 subs IH] using PModule_ind. intros map.
  cbn [visit preorder]. rewrite (forest_lookup k subs IH).
  cbn [List.filter]. unfold has_key at 2.
  set (m := Mod k1 k2 a1 a2 subs).
  destruct (Presence.given (key_of m)) as [key|] eqn:Hk.
  - destruct (decide (key = k)) as [->|Hne].
    + rewrite bool_decide_eq_true_2 by reflexivity. rewrite lookup_insert_eq.
      change (m :: ?l) with ([m] ++ l). rewrite last_app.
      now destruct (last (List.filter (has_key k) (flat_map preorder subs))).
    + rewrite bool_decide_eq_false_2 by congruence.
      now rewrite lookup_insert_ne by congruence.
  - now rewrite bool_decide_eq_false_2 by discriminate.
Qed.

(** X29. [checkPermission] asks the last module that carries the key.
    With the permissions an array, the request goes on exactly when, of the
    modules of the forest that carry the key (as [module_key] or, failing
    that, [submodule_key]), the last one in the order parent first, then
    its submodules, has an enabled action named ["Full Access"] or named as
    the action asked for, its actions being [allowed_actions] when present
    and [actions] otherwise. Earlier modules with the same key do not
    count; without an array of permissions the answer is 403. *)
Theorem checkPermission_last_module key action permissions :
  checkPermission key action None = false /\
  (checkPermission key action (Some permissions) = true <->
   exists m a,
     last (List.filter (has_key key) (flat_map preorder permissions)) = Some m /\
     a ∈ actions_of m /\ status a = true /\
     (name a = "Full Access" \/ name a = action)).
Proof.
  split; [reflexivity|].
  unfold checkPermission, checkPermissionInMap, flattenPermissionsToMap.
  rewrite (forest_lookup key permissions).
  2: { apply Forall_forall. intros m _. apply visit_lookup. }
  rewrite lookup_empty.
  destruct (last (List.filter (has_key key) (flat_map preorder permissions))) as [m|].
  - rewrite orb_true_iff, !existsb_exists. split.
    + intros [(a & Ha & Hp)|(a & Ha & Hp)];
        apply andb_true_iff in Hp as [Hn%bool_decide_eq_true Hs];
        exists m, a; (split; [reflexivity|]); (split; [now apply list_elem_of_In|]); auto.
    + intros (m' & a & [= <-] & Ha%list_elem_of_In & Hs & [Hn|Hn]).
      * left. exists a. split; [exact Ha|]. rewrite Hs.
        now rewrite bool_decide_eq_true_2.
      * right. exists a. split; [exact Ha|]. rewrite Hs.
        now rewrite bool_decide_eq_true_2.
  - cbn. split; [discriminate|]. now intros (m & a & [=] & _).
Qed.

End PermissionsFacts.

Module HttpAuthFacts.
Import Engine HttpAuth.

(** X30. An HTTP request goes on only with a verified token, access to
    the tenant, an answer of the tenant database service and a known user.
    When the middleware calls [next()]: the [authorization] header is
    ["Bearer "] and a token that the identity service verified as valid,
    decoded, and as having access; the tenant database service answered
    for the effective tenant, which is what the client wrote in the
    [x-context-id] header when there is one and the token's tenant
    otherwise: that tenant is initialized, and either it has a pooled
    connection or its id is the name of a member of [Object.prototype],
    and then nothing is pooled for it, no connection was created, and the
    request goes on whatever the key vault answers; the user of the token
    is known to the user cache or the identity service; and the request's
    user and tenant are the token's, whatever the headers say. The
    [x-tenant-id] header decides nothing: with any other value the outcome
    differs in [tenantDomain] alone. *)
Theorem http_request_passes_only_verified verifyToken getUserById creds now fetchedAt
    headers s c req s' c' :
  authMiddleware verifyToken getUserById creds now fetchedAt headers s c = (Next req, s', c') ->
  (exists authHeader token response d user,
     Presence.given (authorization headers) = Some authHeader /\
     String.prefix "Bearer " authHeader = true /\
     SocketAuth.split_1 authHeader = Some token /\
     verifyToken token = Ok response /\
     valid response = true /\ decoded response = Some d /\
     userTenant_hasAccess response = Some true /\
     Db.ensureTenantDatabaseExists creds
       (default (decoded_tenantId d) (Presence.given (x_context_id headers))) s
       = (true, s') /\
     UserCache.getUser getUserById now fetchedAt (decoded_userId d)
       (decoded_tenantId d) c = (Ok (Some user), c') /\
     req_userId req = decoded_userId d /\
     req_tenantId req = decoded_tenantId d /\
     let effectiveTenantId :=
       default (decoded_tenantId d) (Presence.given (x_context_id headers)) in
     effectiveTenantId ∈ Db.initializedTenants s' /\
     (is_Some (Db.connections s' !! effectiveTenantId) \/
      effectiveTenantId ∈ Db.Object_prototype /\
      Db.connections s' !! effectiveTenantId = None /\
      Db.connections s' = Db.connections s /\ Db.created s' = Db.created s /\
      forall creds',
        authMiddleware verifyToken getUserById creds' now fetchedAt headers s c
        = (Next req, s', c'))) /\
  (forall other,
     authMiddleware verifyToken getUserById creds now fetchedAt
       {| authorization := authorization headers;
          x_tenant_id := other;
          x_context_id := x_context_id headers |} s c
     = (Next {| req_userId := req_userId req;
                req_tenantId := req_tenantId req;
                req_contextTenantId := req_contextTenantId req;
                req_tenantDomain := other |}, s', c')).
Proof.
  unfold authMiddleware. cbn [authorization x_context_id x_tenant_id].
  destruct (Presence.given (authorization headers)) as [authHeader|] eqn:Ha; [|discriminate].
  destruct (String.prefix "Bearer " authHeader) eqn:Hp; [|discriminate]. cbn [negb].
  destruct (SocketAuth.split_1 authHeader) as [token|] eqn:Hs; [|discriminate].
  destruct (verifyToken token) as [response|e] eqn:Hv; [|discriminate].
  destruct (valid response) eqn:Hvalid; [|discriminate].
  destruct (decoded response) as [d|] eqn:Hd; [|discriminate].
  destruct (userTenant_hasAccess response) as [[|]|] eqn:Hacc; try discriminate.
  assert (Heff : match Presence.given (x_context_id headers) with
                 | Some contextTenantHeader => contextTenantHeader
                 | None => decoded_tenantId d
                 end = default (decoded_tenantId d) (Presence.given (x_context_id headers))).
  { now destruct (Presence.given (x_context_id headers)). }
  rewrite Heff.
  destruct (Db.ensureTenantDatabaseExists creds _ s) as [db s1] eqn:He.
  destruct (UserCache.getUser getUserById now fetchedAt (decoded_userId d)
              (decoded_tenantId d) c) as [[[user|]|e] c1] eqn:Hu;
    destruct db; try discriminate.
  cbn [negb]. intros [= <- <- <-]. split.
  - exists authHeader, token, response, d, user.
    destruct (DbFacts.ensure_true_cases creds _ s s1 He)
      as (Hi & [Hc | (Hproto & Hnone & Hconn & Hcreated & Hany)]).
    + cbn. auto 15.
    + do 11 (split; [first [reflexivity|assumption]|]).
      cbv zeta. split; [exact Hi|]. right. split; [exact Hproto|]. split; [exact Hnone|]. split; [exact Hconn|].
      split; [exact Hcreated|]. intros creds'. now rewrite (Hany creds').
  - intros other. reflexivity.
Qed.

End HttpAuthFacts.

Module Runs.
Import Engine Demo Examples.


(** Alice joins: her socket enters the room of the chat. *)
Lemma join_registers_witness :
  Presence.given (Presence.or_else (Some (Socket.userId alice_connecting)) None) = Some Demo.alice_id /\
  Presence.given (Presence.or_else (Some (Socket.tenantId alice_connecting)) None) = Some "t1" /\
  Presence.findUser Demo.alice_id presence = Some alice_record /\
  Demo.chat_id ∈ Socket.rooms (Presence.join alice_connecting None None presence).1.2 /\
  (Presence.join alice_connecting None None presence).2
    = [Presence.participantStatusUpdate Demo.alice_id "Online" true].
Proof.
  destruct (PresenceFacts.join_registers alice_connecting None None presence Demo.alice_id "t1"
              alice_record
              eq_refl eq_refl eq_refl) as (_ & Hrooms & Hev & _).
  split; [reflexivity|]. split; [reflexivity|]. split; [reflexivity|].
  split; [|exact Hev].
  apply Hrooms. left. exists chat. split; [left|]. split; [left|]. split; reflexivity.
Defined.

(** Carol, who has no record, joins: she is recorded, inactive. *)
Lemma join_unknown_user_witness :
  Presence.findUser Demo.carol_id presence = None /\
  Presence.findUser Demo.carol_id (Presence.join carol_connecting None None presence).1.1
    = Some (Presence.User.mk Demo.carol_id ["sc"] false "Online") /\
  (Presence.join carol_connecting None None presence).2 = [].
Proof.
  destruct (PresenceFacts.join_unknown_user carol_connecting None None presence Demo.carol_id "t1"
              eq_refl eq_refl eq_refl) as (Hf & _ & _ & Hev & _).
  split; [reflexivity|]. split; [exact Hf|exact Hev].
Defined.

(** Alice joins and leaves: her record is as it was. *)
Lemma disconnect_after_join_witness :
  (forall u, u ∈ Presence.users presence -> "sa" ∉ Presence.User.socketIds u) /\
  (Presence.disconnect (Presence.join alice_connecting None None presence).1.2
     (Presence.join alice_connecting None None presence).1.1).1 = presence.
Proof.
  assert (Hfresh : forall u, u ∈ Presence.users presence ->
                             Socket.id alice_connecting ∉ Presence.User.socketIds u).
  { intros u [->|[->|H]%elem_of_cons]%elem_of_cons; [| |inversion H]; cbn.
    - apply not_elem_of_nil.
    - intros H%list_elem_of_singleton. discriminate. }
  destruct (PresenceFacts.disconnect_after_join alice_connecting None None presence Demo.alice_id "t1"
              alice_record eq_refl eq_refl eq_refl Hfresh) as [Hst _].
  split; [exact Hfresh|]. etransitivity; [exact Hst|]. reflexivity.
Defined.

Lemma active_with_socket_kept_witness :
  Presence.active_with_socket presence /\
  Presence.active_with_socket (Presence.disconnect bob_socket presence).1.
Proof.
  assert (H : Presence.active_with_socket presence).
  { repeat constructor; cbn; intros; discriminate. }
  split; [exact H|].
  apply (PresenceFacts.active_with_socket_kept bob_socket None None "Busy" Demo.bob_id "c2"
           presence H).
Defined.

(** Bob reacts to Alice's message and changes his mind: one reaction. *)
Lemma addReaction_replaces_witness :
  findUserBySocket "sb" (Reactions.store reactions) = Some Demo.bob /\
  findMessageById Demo.m2_id (Reactions.store reactions) = Some m2 /\
  Reactions.reactionsOf Demo.m2_id
    (Reactions.addReaction iam bob_socket Demo.m2_id Demo.chat_id ":-)"
       (Reactions.addReaction iam bob_socket Demo.m2_id Demo.chat_id ":-(" reactions).1).1
  = Reactions.reactionsOf Demo.m2_id
      (Reactions.addReaction iam bob_socket Demo.m2_id Demo.chat_id ":-)" reactions).1.
Proof.
  destruct (ReactionsFacts.addReaction_replaces iam bob_socket Demo.m2_id Demo.chat_id ":-(" ":-)" Demo.chat_id
              reactions Demo.bob m2 eq_refl eq_refl) as (_ & _ & _ & _ & Hlast).
  split; [reflexivity|]. split; [reflexivity|]. now rewrite Hlast.
Defined.

End Runs.

Module CryptoRuns.
Import Crypto CryptoFacts CacheFacts Examples.

(** A call returns what its first component computes to, and leaves what
    it leaves. *)
Lemma ran {A B} (call : A * B) (r : A) : call.1 = r -> call = (r, call.2).
Proof. intros <-. now destruct call. Qed.

Lemma deriveKey_memoized_witness :
  exists key c',
    deriveKey toy demo_password demo_salt ∅ = (Ok key, c') /\
    deriveKey toy demo_password demo_salt c' = (Ok key, c').
Proof.
  assert (H : deriveKey toy demo_password demo_salt ∅
              = (Ok (replicate 32 xa0), (deriveKey toy demo_password demo_salt ∅).2))
    by (apply ran; vm_compute; reflexivity).
  eexists _, _. split; [exact H|].
  exact (proj1 (deriveKey_memoized toy demo_password demo_salt ∅ _ _ toy_laws H)).
Defined.

(** "hello" is decrypted under a cache key; then anything at all is
    "decrypted" to "hello" under that key. *)
Lemma decrypt_served_from_cache_witness :
  exists c',
    decryptDataWithNonce toy hello_ciphertext demo_nonce demo_salt demo_password
      (Some (js "k")) ∅ = (Ok (js "hello"), c') /\
    decryptDataWithNonce toy (js "garbage") (js "") (js "") (js "wrong") (Some (js "k")) c'
      = (Ok (js "hello"), c').
Proof.
  assert (H : decryptDataWithNonce toy hello_ciphertext demo_nonce demo_salt demo_password
                (Some (js "k")) ∅
              = (Ok (js "hello"),
                 (decryptDataWithNonce toy hello_ciphertext demo_nonce demo_salt demo_password
                    (Some (js "k")) ∅).2))
    by (apply ran; vm_compute; reflexivity).
  eexists. split; [exact H|].
  now apply (decrypt_served_from_cache toy hello_ciphertext demo_nonce demo_salt
               demo_password (js "k") ∅).
Defined.

(** A body stored as the five characters "hello". *)
Lemma short_ciphertext_RangeError_witness :
  (length (js "hello") < 32)%nat /\
  (decryptDataWithNonce toy (js "hello") demo_nonce demo_salt demo_password None ∅).1
    = Err RangeError.
Proof.
  assert (H : deriveKey toy demo_password demo_salt ∅
              = (Ok (replicate 32 xa0), (deriveKey toy demo_password demo_salt ∅).2))
    by (apply ran; vm_compute; reflexivity).
  split; [cbn; lia|].
  now rewrite (short_ciphertext_RangeError toy (js "hello") demo_nonce demo_salt demo_password
                 None ∅ _ _ ltac:(cbn; lia) (cache_miss_empty None) H).
Defined.

Lemma encrypt_deterministic_witness :
  exists c1,
    encryptDataWithNonce toy (js "hello") demo_salt demo_nonce demo_password ∅
      = (Ok hello_ciphertext, c1) /\
    encryptDataWithNonce toy (js "hello") demo_salt demo_nonce demo_password c1
      = (Ok hello_ciphertext, c1).
Proof.
  assert (H : encryptDataWithNonce toy (js "hello") demo_salt demo_nonce demo_password ∅
              = (Ok hello_ciphertext,
                 (encryptDataWithNonce toy (js "hello") demo_salt demo_nonce demo_password ∅).2))
    by (apply ran; vm_compute; reflexivity).
  eexists. split; [exact H|].
  exact (proj1 (encrypt_deterministic toy (js "hello") demo_salt demo_nonce demo_password ∅
                  _ hello_ciphertext toy_laws H)).
Defined.

Lemma storePII_roundtrip_witness :
  Utf8.well_formed (js "078-05-1120") = true /\
  exists r c' c'',
    Pii.storePII toy (Hex.decode demo_salt) (Hex.decode demo_nonce) (js "078-05-1120")
      demo_password ∅ = (Ok r, c') /\
    decryptDataWithNonce toy (Pii.stored_ciphertext r) (Pii.stored_nonce r)
      (Pii.stored_salt r) demo_password None c' = (Ok (js "078-05-1120"), c'').
Proof.
  split; [reflexivity|].
  destruct (PiiFacts.storePII_roundtrip toy (Hex.decode demo_salt) (Hex.decode demo_nonce)
              (js "078-05-1120") demo_password ∅ toy_laws eq_refl) as [Hdec Hsome].
  destruct Hsome as (r & c' & Hr); [reflexivity|vm_compute; eauto|reflexivity|].
  destruct (Hdec r c' Hr) as (_ & _ & _ & Hd).
  destruct (Hd None) as [c'' Hd'].
  - intros k Hk. discriminate.
  - eauto.
Defined.

(** The message "hello" is saved for tenant [t1] and read back. *)
Lemma save_then_find_witness :
  exists d' c' c'',
    SaveHook.pre_save toy Repo.demo_vault (Some (js "t1")) true plain_doc ∅ = (Ok d', c') /\
    Repo.field d' = Some hello_ciphertext /\
    Repo.post_find toy Repo.demo_vault (js "body") (Some (js "t1")) (Repo.Single d') c'
      = (Ok (Repo.Single plain_doc), c'').
Proof.
  assert (Hsave : SaveHook.pre_save toy Repo.demo_vault (Some (js "t1")) true plain_doc ∅
                  = (Ok Repo.good_doc,
                     (SaveHook.pre_save toy Repo.demo_vault (Some (js "t1")) true plain_doc ∅).2))
    by (apply ran; vm_compute; reflexivity).
  destruct (SaveHookFacts.save_then_find toy Repo.demo_vault (js "body") (js "t1")
              Repo.demo_secrets plain_doc (js "hello") ∅ _ _ toy_laws eq_refl eq_refl eq_refl
              eq_refl eq_refl Hsave) as (_ & [c'' Hfind] & _).
  - vm_compute. reflexivity.
  - eexists _, _, c''. split; [exact Hsave|]. split; [reflexivity|exact Hfind].
Defined.

End CryptoRuns.

Module AccessRuns.
Import Engine Examples.
#[local] Existing Instance Demo.bson.

Lemma overlapping_connects_create_two_witness :
  Db.property (Db.connections Db.initial) "t1" = None /\
  length (Db.created (Db.interleave credentials [0; 1; 0; 1]%nat
                        [Db.Entered "t1"; Db.Entered "t1"] Db.initial).2) = 2%nat /\
  length (Db.created (Db.interleave credentials [0; 0; 1; 1]%nat
                        [Db.Entered "t1"; Db.Entered "t1"] Db.initial).2) = 1%nat.
Proof.
  destruct (DbFacts.overlapping_connects_create_two (js "chat") (js "secret") "t1" Db.initial
              eq_refl) as [(c1 & c2 & _ & H2 & _) (c & _ & H1 & _)].
  split; [reflexivity|]. split.
  - unfold credentials. now rewrite H2.
  - unfold credentials. now rewrite H1.
Defined.

(** Alice is fetched for tenant [t1] and then served for tenant [t2]. *)
Lemma user_cache_ignores_tenant_witness :
  exists user c',
    UserCache.getUser getUserById 1000 1000 Demo.alice_id "t1" ∅ = (Ok (Some user), c') /\
    UserCache.getUser (fun _ _ => Err TypeError) 2000 2000 Demo.alice_id "t2" c' = (Ok (Some user), c').
Proof.
  assert (H : UserCache.getUser getUserById 1000 1000 Demo.alice_id "t1" ∅
              = (Ok (Demo.iam Demo.alice_id "t1" ""),
                 <[UserCache.cacheKey Demo.alice_id :=
                     {| UserCache.data := {| iam_id := Demo.alice_id; firstname := "User";
                                             lastname := Demo.alice_id; profile_image := "" |};
                        UserCache.updatedAt := 1000 |}]> ∅)) by reflexivity.
  eexists _, _. split; [exact H|].
  destruct (UserCacheFacts.user_cache_ignores_tenant getUserById 1000 1000 Demo.alice_id "t1" ∅ _ _ H)
    as (entry & Hl & Hd & Hserve).
  apply (Hserve (fun _ _ => Err TypeError) (fun _ _ => Err TypeError) 2000 2000 "t2").
  rewrite lookup_insert_eq in Hl. injection Hl as <-. reflexivity.
Defined.

(** Alice connects with her token after "Bearer ". And with the key vault
    down, a token whose tenant is [constructor] lets its socket in, with
    nothing connected. *)
Lemma socket_accepted_only_verified_witness :
  (exists s',
     SocketAuth.socketTenantMiddleware verify_socket credentials "sa"
       {| SocketAuth.data_token := None;
          SocketAuth.auth_token := Some "Bearer good";
          SocketAuth.authorization := None |} Db.initial
     = (SocketAuth.Accepted (Socket.mk "sa" Demo.alice_id "t1" (Some "good") []), s') /\
     "t1" ∈ Db.initializedTenants s') /\
  (exists s',
     SocketAuth.socketTenantMiddleware verify_socket_constructor vault_down "sx"
       {| SocketAuth.data_token := None;
          SocketAuth.auth_token := Some "Bearer any";
          SocketAuth.authorization := None |} Db.initial
     = (SocketAuth.Accepted (Socket.mk "sx" Demo.alice_id "constructor" (Some "any") []), s') /\
     "constructor" ∈ Db.initializedTenants s' /\
     Db.connections s' = ∅ /\ Db.created s' = []).
Proof.
  assert (H : SocketAuth.socketTenantMiddleware verify_socket credentials "sa"
                {| SocketAuth.data_token := None;
                   SocketAuth.auth_token := Some "Bearer good";
                   SocketAuth.authorization := None |} Db.initial
              = (SocketAuth.Accepted (Socket.mk "sa" Demo.alice_id "t1" (Some "good") []),
                 (SocketAuth.socketTenantMiddleware verify_socket credentials "sa"
                    {| SocketAuth.data_token := None;
                       SocketAuth.auth_token := Some "Bearer good";
                       SocketAuth.authorization := None |} Db.initial).2))
    by (apply CryptoRuns.ran; vm_compute; reflexivity).
  assert (H' : SocketAuth.socketTenantMiddleware verify_socket_constructor vault_down "sx"
                 {| SocketAuth.data_token := None;
                    SocketAuth.auth_token := Some "Bearer any";
                    SocketAuth.authorization := None |} Db.initial
               = (SocketAuth.Accepted
                    (Socket.mk "sx" Demo.alice_id "constructor" (Some "any") []),
                  (SocketAuth.socketTenantMiddleware verify_socket_constructor vault_down "sx"
                     {| SocketAuth.data_token := None;
                        SocketAuth.auth_token := Some "Bearer any";
                        SocketAuth.authorization := None |} Db.initial).2))
    by (apply CryptoRuns.ran; vm_compute; reflexivity).
  split.
  - eexists. split; [exact H|].
    destruct (SocketAuthFacts.socket_accepted_only_verified _ _ _ _ _ _ _ H)
      as (token & decoded & _ & _ & _ & _ & _ & Hin & _).
    exact Hin.
  - eexists. split; [exact H'|].
    destruct (SocketAuthFacts.socket_accepted_only_verified _ _ _ _ _ _ _ H')
      as (token & decoded & _ & _ & _ & _ & _ & Hin & _).
    split; [exact Hin|]. split; reflexivity.
Defined.

(** Alice's request with her token and a tenant header of someone else's;
    and, the key vault being down, with [constructor] as context. *)
Lemma http_request_passes_only_verified_witness :
  (exists s' c' token,
     HttpAuth.authMiddleware verify_http getUserById credentials 1000 1000
       {| HttpAuth.authorization := Some "Bearer good";
          HttpAuth.x_tenant_id := Some "t2";
          HttpAuth.x_context_id := None |} Db.initial ∅
     = (HttpAuth.Next {| HttpAuth.req_userId := Demo.alice_id; HttpAuth.req_tenantId := "t1";
                         HttpAuth.req_contextTenantId := "";
                         HttpAuth.req_tenantDomain := Some "t2" |}, s', c') /\
     SocketAuth.split_1 "Bearer good" = Some token /\
     exists response, verify_http token = Ok response /\ HttpAuth.valid response = true) /\
  (exists s' c',
     HttpAuth.authMiddleware verify_http getUserById vault_down 1000 1000
       {| HttpAuth.authorization := Some "Bearer good";
          HttpAuth.x_tenant_id := None;
          HttpAuth.x_context_id := Some "constructor" |} Db.initial ∅
     = (HttpAuth.Next {| HttpAuth.req_userId := Demo.alice_id; HttpAuth.req_tenantId := "t1";
                         HttpAuth.req_contextTenantId := "constructor";
                         HttpAuth.req_tenantDomain := None |}, s', c') /\
     "constructor" ∈ Db.initializedTenants s' /\ Db.created s' = []).
Proof.
  assert (H : HttpAuth.authMiddleware verify_http getUserById credentials 1000 1000
                {| HttpAuth.authorization := Some "Bearer good";
                   HttpAuth.x_tenant_id := Some "t2";
                   HttpAuth.x_context_id := None |} Db.initial ∅
              = (HttpAuth.Next {| HttpAuth.req_userId := Demo.alice_id; HttpAuth.req_tenantId := "t1";
                                  HttpAuth.req_contextTenantId := "";
                                  HttpAuth.req_tenantDomain := Some "t2" |},
                 (HttpAuth.authMiddleware verify_http getUserById credentials 1000 1000
                    {| HttpAuth.authorization := Some "Bearer good";
                       HttpAuth.x_tenant_id := Some "t2";
                       HttpAuth.x_context_id := None |} Db.initial ∅).1.2,
                 (HttpAuth.authMiddleware verify_http getUserById credentials 1000 1000
                    {| HttpAuth.authorization := Some "Bearer good";
                       HttpAuth.x_tenant_id := Some "t2";
                       HttpAuth.x_context_id := None |} Db.initial ∅).2)).
  { apply CryptoRuns.ran. apply CryptoRuns.ran. vm_compute. reflexivity. }
  assert (H' : HttpAuth.authMiddleware verify_http getUserById vault_down 1000 1000
                 {| HttpAuth.authorization := Some "Bearer good";
                    HttpAuth.x_tenant_id := None;
                    HttpAuth.x_context_id := Some "constructor" |} Db.initial ∅
               = (HttpAuth.Next {| HttpAuth.req_userId := Demo.alice_id;
                                   HttpAuth.req_tenantId := "t1";
                                   HttpAuth.req_contextTenantId := "constructor";
                                   HttpAuth.req_tenantDomain := None |},
                  (HttpAuth.authMiddleware verify_http getUserById vault_down 1000 1000
                     {| HttpAuth.authorization := Some "Bearer good";
                        HttpAuth.x_tenant_id := None;
                        HttpAuth.x_context_id := Some "constructor" |} Db.initial ∅).1.2,
                  (HttpAuth.authMiddleware verify_http getUserById vault_down 1000 1000
                     {| HttpAuth.authorization := Some "Bearer good";
                        HttpAuth.x_tenant_id := None;
                        HttpAuth.x_context_id := Some "constructor" |} Db.initial ∅).2)).
  { apply CryptoRuns.ran. apply CryptoRuns.ran. vm_compute. reflexivity. }
  split.
  - destruct (HttpAuthFacts.http_request_passes_only_verified _ _ _ _ _ _ _ _ _ _ _ H)
      as [(authHeader & token & response & d & user & Ha & _ & Hs & Hv & Hvalid & _) _].
    injection Ha as <-.
    eexists _, _, token. split; [exact H|]. split; [exact Hs|]. eauto.
  - destruct (HttpAuthFacts.http_request_passes_only_verified _ _ _ _ _ _ _ _ _ _ _ H')
      as [(authHeader & token & response & d & user & _ & _ & _ & _ & _ & _ & _ & _ & _ & _
           & _ & Hin & _) _].
    eexists _, _. split; [exact H'|]. split; [exact Hin|reflexivity].
Defined.

(** Bob hides from himself the message Alice sent, while the cluster also
    holds the database of tenant [t2]. That database is as before, and
    the event Bob receives carries a message of [t1]'s database, which
    still holds only documents of [t1]. *)
Lemma tenant_isolation_witness :
  let r := Tenancy.onEvent Demo.iam credentials Demo.bob_socket [Demo.alice_socket] 300
             Demo.m3_id (DeleteMessage Demo.m2_id Demo.chat_id Demo.bob_id forMe) world in
  "t2" <> Socket.tenantId Demo.bob_socket /\
  Tenancy.database "tenant-t2" r.1 = Demo.st2 /\
  r.2 = [Emit "sb" (messageDeleted Demo.chat_id Demo.m2_id (Some (preview Demo.m1)) forMe)] /\
  from_store (Tenancy.database "tenant-t1" r.1)
    (messageDeleted Demo.chat_id Demo.m2_id (Some (preview Demo.m1)) forMe) /\
  tagged "t1" (Tenancy.database "tenant-t1" r.1).
Proof.
  intros r.
  pose proof (TenancyFacts.tenant_isolation Demo.iam credentials Demo.bob_socket
                [Demo.alice_socket] 300 Demo.m3_id
                (DeleteMessage Demo.m2_id Demo.chat_id Demo.bob_id forMe)
                [Db.SocketGetTenantModels credentials "t1";
                 Db.SocketGetTenantModels credentials "t2"]
                (<["tenant-t1" := Demo.st]> (<["tenant-t2" := Demo.st2]> ∅)) "t2"
                ltac:(discriminate)) as (Hframe & _ & Hev & Htag & _).
  assert (Hevents : r.2 = [Emit "sb" (messageDeleted Demo.chat_id Demo.m2_id
                                        (Some (preview Demo.m1)) forMe)])
    by (vm_compute; reflexivity).
  split; [discriminate|]. split; [|split; [exact Hevents|split]].
  - etransitivity; [exact Hframe|]. reflexivity.
  - apply (Hev (Emit "sb" (messageDeleted Demo.chat_id Demo.m2_id
                             (Some (preview Demo.m1)) forMe))).
    match goal with |- ?e ∈ _ => change (e ∈ r.2) end. rewrite Hevents. left.
  - apply Htag. exact Scenarios.demo_tagged.
Defined.

End AccessRuns.
